(** * mcp-server-training: the tool handlers of [src/server.py]

    A shallow embedding of the nine tool functions registered by
    [MCPTrainingServer.setup_tools] and of the pieces of the Python
    runtime they call (dictionary and list indexing, [os.path.join],
    [str.lstrip], text-mode file reading, a POSIX directory tree, one
    HTTP round trip), followed by the properties the specification
    states about them.

    Conventions.
    - A Python [str] is a Rocq [string], one [ascii] per character
      (the characters up to U+00FF); only key lookups, prefix tests,
      splitting, concatenation and the counting of bytes are performed
      on them.
    - A Python [dict] with string keys is a [gmap string _]: equality
      of dictionaries does not depend on insertion order.
    - A Python [int] is a [Z], a [float] a binary64 [float].
    - An exception is a value of [exn]; a tool is a computation in the
      monad [M], which threads the process environment ([world]) and
      keeps every effect performed before an exception is raised.
    - The operating system is Linux: [os.sep] is a slash, [os.linesep]
      a line feed, a file name has at most [NAME_MAX] bytes and a path
      fewer than [PATH_MAX]. File names reach it in UTF-8, in which a
      character beyond ASCII takes two bytes. There are no symbolic
      links and no permissions, the device stores whatever is written
      to it, and nothing else touches the tree while a tool runs.
    - A regular file holds bytes. Text is written and read through the
      encoding of the locale ([w_locale]), which can fail in either
      direction; a file opened for writing is emptied before anything
      is written to it. *)

From Stdlib Require Import PrimFloat Ascii.
From stdpp Require Import gmap strings list fin_maps.

#[local] Set Warnings "-register-all,-inexact-float".
#[local] Open Scope string_scope.
#[local] Open Scope list_scope.
#[local] Arguments String.append : simpl nomatch.

(** ** JSON values, as [response.json()] delivers them *)

Inductive json :=
| JNull
| JBool (b : bool)
| JInt (z : Z)
| JFloat (f : float)
| JStr (s : string)
| JArr (l : list json)
| JObj (m : gmap string json).

(** ** Exceptions and results *)

Inductive exn :=
| ValueError (msg : string)
| FileNotFoundError (msg : string)
| IsADirectoryError
| NotADirectoryError
| FileExistsError
| KeyError (key : json)
| IndexError
| TypeError
| AttributeError
| JSONDecodeError
| UnicodeEncodeError
| UnicodeDecodeError
| OSError (errno : Z)
| HTTPStatusError (status : Z)
| TransportError (msg : string).

Inductive result (A : Type) :=
| Ok (a : A)
| Raise (e : exn).
Arguments Ok {A} a.
Arguments Raise {A} e.

Definition is_ok {A} (r : result A) : bool :=
  match r with Ok _ => true | Raise _ => false end.

Definition rbind {A B} (r : result A) (k : A → result B) : result B :=
  match r with Ok a => k a | Raise e => Raise e end.

(** Evaluation of a list comprehension whose element expression may
    raise: elements are evaluated left to right and the first exception
    aborts the whole comprehension. *)
Fixpoint comprehension {A B} (f : A → result B) (xs : list A) : result (list B) :=
  match xs with
  | [] => Ok []
  | x :: rest =>
      rbind (f x) (λ y, rbind (comprehension f rest) (λ ys, Ok (y :: ys)))
  end.

(** ** Python subscripting on decoded JSON *)

(** [v[k]] for a string key [k]. Only a dict accepts it; a list or a
    string wants an integer index, the other values are not
    subscriptable: all of these are [TypeError]. *)
Definition getitem_key (v : json) (k : string) : result json :=
  match v with
  | JObj m =>
      match m !! k with
      | Some x => Ok x
      | None => Raise (KeyError (JStr k))
      end
  | _ => Raise TypeError
  end.

(** [v[i]] for a non-negative integer [i]. A dict decoded from JSON has
    string keys only, so an integer is never one of them. *)
Definition getitem_idx (v : json) (i : nat) : result json :=
  match v with
  | JArr l =>
      match l !! i with
      | Some x => Ok x
      | None => Raise IndexError
      end
  | JStr s =>
      match String.get i s with
      | Some c => Ok (JStr (String c ""))
      | None => Raise IndexError
      end
  | JObj _ => Raise (KeyError (JInt (Z.of_nat i)))
  | _ => Raise TypeError
  end.

(** [v.get(k, dflt)]: a method of dicts only. *)
Definition dict_get (v : json) (k : string) (dflt : json) : result json :=
  match v with
  | JObj m => Ok (default dflt (m !! k))
  | _ => Raise AttributeError
  end.

Fixpoint chars (s : string) : list json :=
  match s with
  | "" => []
  | String c rest => JStr (String c "") :: chars rest
  end.

(** [for x in v]: a list yields its elements, a dict its keys, a string
    its characters; nothing else is iterable. *)
Definition py_iter (v : json) : result (list json) :=
  match v with
  | JArr l => Ok l
  | JObj m => Ok (JStr <$> (map_to_list m).*1)
  | JStr s => Ok (chars s)
  | _ => Raise TypeError
  end.

(** ** Configuration *)

Record Config := {
  notion_api_token : option string;
  notion_database_id : option string;
  github_token : option string;
  openweather_api_key : option string;
}.

Definition server_name : string := "mcp-training-server".
Definition server_version : string := "1.0.0".

(** [Config.__init__]: each field is [os.getenv] of its variable, which
    is [None] when the variable is unset. *)
Definition Config_init (environ : gmap string string) : Config :=
  {| notion_api_token := environ !! "NOTION_API_TOKEN";
     notion_database_id := environ !! "NOTION_DATABASE_ID";
     github_token := environ !! "GITHUB_TOKEN";
     openweather_api_key := environ !! "OPENWEATHER_API_KEY" |}.

(** Truth value of an [Optional[str]]: [None] and the empty string are
    false. *)
Definition truthy (o : option string) : bool :=
  match o with
  | Some s => negb (String.eqb s "")
  | None => false
  end.

(** An [Optional[str]] interpolated in an f-string. *)
Definition fmt (o : option string) : string :=
  match o with
  | Some s => s
  | None => "None"
  end.

(** [Config._validate_config]: the names reported in the warning. *)
Definition missing_vars (cfg : Config) : list string :=
  (if truthy (notion_api_token cfg) then [] else ["NOTION_API_TOKEN"]) ++
  (if truthy (notion_database_id cfg) then [] else ["NOTION_DATABASE_ID"]) ++
  (if truthy (github_token cfg) then [] else ["GITHUB_TOKEN"]) ++
  (if truthy (openweather_api_key cfg) then [] else ["OPENWEATHER_API_KEY"]).

(** ** The process environment *)

Inductive http_method := GET | POST.

Record request := Request {
  rq_method : http_method;
  rq_url : string;
  rq_headers : list (string * string);
  rq_params : list (string * json);
  rq_json : option json;
}.

(** What [response.json()] finds in the body of a response: bytes
    that are not text in the encoding of JSON, text that is not JSON,
    or a JSON value. *)
Inductive payload :=
| NotText
| NotJson
| Json (j : json).

(** A response: its status code and its body. *)
Record response := Response {
  rs_status : Z;
  rs_payload : payload;
}.

(** The JSON value of the body, when it has one. *)
Definition rs_body (r : response) : option json :=
  match rs_payload r with
  | Json j => Some j
  | _ => None
  end.

(** A byte string, one [ascii] per byte. *)
Definition bytes := string.

(** A character encoding: [encode] gives the bytes of a text and
    [decode] the text of some bytes, when there is one. *)
Record codec := Codec {
  encode : string → option bytes;
  decode : bytes → option string;
}.

(** A node of the directory tree: a regular file with the bytes it
    holds, or a directory. *)
Inductive node :=
| File (content : bytes)
| Dir.

(** [w_cwd]: the working directory, as the list of its components from
    the root. [w_fs]: the directory tree, keyed by such lists (the root
    itself is not stored). [w_remote]: what the network answers to a
    request, an exception standing for a transport failure.
    [w_calls]: the requests sent so far, oldest first. [w_locale]: the
    encoding that [open] uses for a text file when none is given. *)
Record world := World {
  w_cwd : list string;
  w_fs : gmap (list string) node;
  w_remote : request → result response;
  w_calls : list request;
  w_locale : codec;
}.

Definition set_fs (fs : gmap (list string) node) (w : world) : world :=
  {| w_cwd := w_cwd w; w_fs := fs; w_remote := w_remote w; w_calls := w_calls w;
     w_locale := w_locale w |}.

Definition log_call (rq : request) (w : world) : world :=
  {| w_cwd := w_cwd w; w_fs := w_fs w; w_remote := w_remote w;
     w_calls := w_calls w ++ [rq]; w_locale := w_locale w |}.

(** ** The monad of tool handlers *)

Definition M (A : Type) : Type := world → result A * world.

Definition ret {A} (a : A) : M A := λ w, (Ok a, w).
Definition raise {A} (e : exn) : M A := λ w, (Raise e, w).
Definition lift {A} (r : result A) : M A := λ w, (r, w).
Definition bind {A B} (c : M A) (k : A → M B) : M B :=
  λ w, match c w with
       | (Ok a, w') => k a w'
       | (Raise e, w') => (Raise e, w')
       end.

Notation "x <- c ;; k" := (bind c (λ x, k))
  (at level 100, c at next level, right associativity).
Notation "c ;;; k" := (bind c (λ _, k))
  (at level 100, right associativity).

(** ** HTTP *)

(** [await client.get(...)] / [await client.post(...)]. *)
Definition send (rq : request) : M response :=
  λ w, (w_remote w rq, log_call rq w).

Definition is_success (status : Z) : bool :=
  (200 <=? status)%Z && (status <=? 299)%Z.

(** [response.raise_for_status()] *)
Definition raise_for_status (r : response) : M unit :=
  if is_success (rs_status r) then ret tt else raise (HTTPStatusError (rs_status r)).

(** [response.json()]: the bytes of the body are decoded, then
    parsed. *)
Definition response_json (r : response) : M json :=
  match rs_payload r with
  | Json j => ret j
  | NotJson => raise JSONDecodeError
  | NotText => raise UnicodeDecodeError
  end.

(** ** The integration tools *)

Section Tools.
Variable config : Config.

Definition notion_headers : list (string * string) :=
  [("Authorization", "Bearer " +:+ fmt (notion_api_token config));
   ("Notion-Version", "2022-06-28");
   ("Content-Type", "application/json")].

Definition github_headers : list (string * string) :=
  [("Authorization", "token " +:+ fmt (github_token config));
   ("Accept", "application/vnd.github.v3+json")].

Definition notion_query_request (max_results : Z) : request :=
  {| rq_method := POST;
     rq_url := "https://api.notion.com/v1/databases/"
                 +:+ fmt (notion_database_id config) +:+ "/query";
     rq_headers := notion_headers;
     rq_params := [];
     rq_json := Some (JObj {[ "page_size" := JInt max_results ]}) |}.

(** [page["properties"]["Name"]["title"][0]["text"]["content"]] *)
Definition page_title (page : json) : result json :=
  rbind (getitem_key page "properties") (λ v1,
  rbind (getitem_key v1 "Name") (λ v2,
  rbind (getitem_key v2 "title") (λ v3,
  rbind (getitem_idx v3 0) (λ v4,
  rbind (getitem_key v4 "text") (λ v5,
  getitem_key v5 "content"))))).

(** An omitted argument is [None]; it then takes the default of the
    signature: [max_results: int = 10]. *)
Definition get_notion_notes (max_results : option Z) : M (list json) :=
  if negb (truthy (notion_api_token config))
     || negb (truthy (notion_database_id config))
  then raise (ValueError "Notion API token and database ID are required")
  else
    response <- send (notion_query_request (default 10%Z max_results)) ;;
    raise_for_status response ;;;
    body <- response_json response ;;
    results <- lift (dict_get body "results" (JArr [])) ;;
    pages <- lift (py_iter results) ;;
    lift (comprehension page_title pages).

Definition notion_create_request (title content : string) : request :=
  {| rq_method := POST;
     rq_url := "https://api.notion.com/v1/pages";
     rq_headers := notion_headers;
     rq_params := [];
     rq_json := Some (JObj
       {[ "parent" :=
            JObj {[ "database_id" :=
                      match notion_database_id config with
                      | Some s => JStr s
                      | None => JNull
                      end ]};
          "properties" :=
            JObj {[ "Name" :=
                      JObj {[ "title" :=
                        JArr [JObj {[ "text" := JObj {[ "content" := JStr title ]} ]}] ]};
                    "Content" :=
                      JObj {[ "rich_text" :=
                        JArr [JObj {[ "text" := JObj {[ "content" := JStr content ]} ]}] ]} ]} ]}) |}.

Definition create_notion_note (title content : string) : M string :=
  if negb (truthy (notion_api_token config))
     || negb (truthy (notion_database_id config))
  then raise (ValueError "Notion API token and database ID are required")
  else
    response <- send (notion_create_request title content) ;;
    raise_for_status response ;;;
    ret "Note created successfully!".

Definition github_issues_request (owner repo state : string) (max_results : Z) : request :=
  {| rq_method := GET;
     rq_url := "https://api.github.com/repos/" +:+ owner +:+ "/" +:+ repo +:+ "/issues";
     rq_headers := github_headers;
     rq_params := [("state", JStr state); ("per_page", JInt max_results)];
     rq_json := None |}.

(** [{"title": issue["title"], "number": issue["number"], "state": issue["state"]}] *)
Definition issue_entry (issue : json) : result json :=
  rbind (getitem_key issue "title") (λ t,
  rbind (getitem_key issue "number") (λ n,
  rbind (getitem_key issue "state") (λ s,
  Ok (JObj {[ "title" := t; "number" := n; "state" := s ]})))).

(** Defaults of the signature: [state: str = "open"],
    [max_results: int = 10]. *)
Definition get_github_issues (owner repo : string)
    (state : option string) (max_results : option Z) : M (list json) :=
  if negb (truthy (github_token config))
  then raise (ValueError "GitHub token is required")
  else
    response <- send (github_issues_request owner repo
                        (default "open" state) (default 10%Z max_results)) ;;
    raise_for_status response ;;;
    issues <- response_json response ;;
    items <- lift (py_iter issues) ;;
    lift (comprehension issue_entry items).

Definition github_create_request (owner repo title body : string) : request :=
  {| rq_method := POST;
     rq_url := "https://api.github.com/repos/" +:+ owner +:+ "/" +:+ repo +:+ "/issues";
     rq_headers := github_headers;
     rq_params := [];
     rq_json := Some (JObj {[ "title" := JStr title; "body" := JStr body ]}) |}.

(** [create_github_issue] ends with
    [f"Issue created successfully! Issue #{response.json()['number']}"];
    the rendering of an arbitrary JSON value by [str] is left as a
    parameter [show]. *)
Definition create_github_issue (show : json → string)
    (owner repo title : string) (body : option string) : M string :=
  if negb (truthy (github_token config))
  then raise (ValueError "GitHub token is required")
  else
    response <- send (github_create_request owner repo title (default "" body)) ;;
    raise_for_status response ;;;
    data <- response_json response ;;
    number <- lift (getitem_key data "number") ;;
    ret ("Issue created successfully! Issue #" +:+ show number).

Definition weather_request (city country_code : string) : request :=
  {| rq_method := GET;
     rq_url := "http://api.openweathermap.org/data/2.5/weather";
     rq_headers := [];
     rq_params := [("q", JStr (city +:+ "," +:+ country_code));
                   ("appid", match openweather_api_key config with
                             | Some s => JStr s
                             | None => JNull
                             end);
                   ("units", JStr "metric")];
     rq_json := None |}.

(** The dictionary display that [get_weather] returns; its six
    entries are evaluated in the order of the source. *)
Definition weather_record (data : json) : result (gmap string json) :=
  rbind (getitem_key data "name") (λ city,
  rbind (rbind (getitem_key data "sys") (λ v, getitem_key v "country")) (λ country,
  rbind (rbind (getitem_key data "main") (λ v, getitem_key v "temp")) (λ temperature,
  rbind (rbind (rbind (getitem_key data "weather") (λ v, getitem_idx v 0))
               (λ v, getitem_key v "description")) (λ description,
  rbind (rbind (getitem_key data "main") (λ v, getitem_key v "humidity")) (λ humidity,
  rbind (rbind (getitem_key data "wind") (λ v, getitem_key v "speed")) (λ wind_speed,
  Ok ({[ "city" := city;
         "country" := country;
         "temperature" := temperature;
         "description" := description;
         "humidity" := humidity;
         "wind_speed" := wind_speed ]} : gmap string json))))))).

(** Default of the signature: [country_code: str = "US"]. *)
Definition get_weather (city : string) (country_code : option string)
    : M (gmap string json) :=
  if negb (truthy (openweather_api_key config))
  then raise (ValueError "OpenWeather API key is required")
  else
    response <- send (weather_request city (default "US" country_code)) ;;
    raise_for_status response ;;;
    data <- response_json response ;;
    lift (weather_record data).

(** [get_server_info], the clock reading being a parameter. *)
Definition get_server_info (now : string) : M (gmap string json) :=
  ret {[ "server_name" := JStr server_name;
         "server_version" := JStr server_version;
         "timestamp" := JStr now;
         "config_status" :=
           JObj {[ "notion_configured" :=
                     JBool (truthy (notion_api_token config)
                            && truthy (notion_database_id config));
                   "github_configured" := JBool (truthy (github_token config));
                   "weather_configured" := JBool (truthy (openweather_api_key config)) ]} ]}.

End Tools.

(** ** Strings and paths *)

Definition is_sep (c : ascii) : bool := Ascii.eqb c "/".

(** [s.startswith("/")] and [s.endswith("/")] *)
Definition startswith_sep (s : string) : bool :=
  match s with
  | String c _ => is_sep c
  | "" => false
  end.

Fixpoint endswith_sep (s : string) : bool :=
  match s with
  | "" => false
  | String c rest =>
      match rest with
      | "" => is_sep c
      | String _ _ => endswith_sep rest
      end
  end.

(** [os.path.join(a, b)] of [posixpath]: an absolute [b] discards [a];
    otherwise the two are concatenated, with a separator between them
    unless [a] is empty or already ends with one. *)
Definition path_join (a b : string) : string :=
  if startswith_sep b then b
  else if String.eqb a "" || endswith_sep a then a +:+ b
  else a +:+ "/" +:+ b.

Fixpoint char_in (c : ascii) (set : string) : bool :=
  match set with
  | "" => false
  | String d rest => Ascii.eqb c d || char_in c rest
  end.

(** [s.lstrip(set)]: drops the longest prefix of [s] made of characters
    that occur in [set]. *)
Fixpoint lstrip (set : string) (s : string) : string :=
  match s with
  | "" => ""
  | String c rest => if char_in c set then lstrip set rest else s
  end.

(** [s.removeprefix(p)]: [s[len(p):]] when [s] starts with [p], else
    [s]. *)
Definition removeprefix (p s : string) : string :=
  if String.prefix p s
  then String.substring (String.length p) (String.length s - String.length p) s
  else s.

(** The components of a path: the pieces between separators, empty
    pieces included. *)
Fixpoint split_sep (s : string) : list string :=
  match s with
  | "" => [""]
  | String c rest =>
      if is_sep c then "" :: split_sep rest
      else match split_sep rest with
           | [] => [String c ""]
           | h :: t => String c h :: t
           end
  end.

Fixpoint has_nul (s : string) : bool :=
  match s with
  | "" => false
  | String c rest => Ascii.eqb c "000" || has_nul rest
  end.

(** Reading in text mode with the default [newline=None]: the line
    endings CR LF and CR are delivered as LF. (Writing in text mode
    turns LF into [os.linesep], which is LF itself.) *)
Fixpoint universal_newlines (s : string) : string :=
  match s with
  | "" => ""
  | String c rest =>
      if Ascii.eqb c "013" then
        match rest with
        | String d rest' =>
            if Ascii.eqb d "010"
            then String "010" (universal_newlines rest')
            else String "010" (universal_newlines rest)
        | "" => String "010" ""
        end
      else String c (universal_newlines rest)
  end.

(** ** The directory tree *)

(** [NAME_MAX] and [PATH_MAX] of Linux, and the error number of a name
    or path beyond them. *)
Definition NAME_MAX : Z := 255.
Definition PATH_MAX : Z := 4096.
Definition ENAMETOOLONG : Z := 36.

(** The number of bytes of [s] as (a part of) a file name: one for an
    ASCII character, two for a character from U+0080 to U+00FF. *)
Fixpoint fs_length (s : string) : Z :=
  match s with
  | "" => 0%Z
  | String c rest =>
      ((if (N_of_ascii c <? 128)%N then 1 else 2) + fs_length rest)%Z
  end.

(** The absolute path of a directory given by its components, as
    [os.getcwd()] returns it. *)
Definition render_comps (p : list string) : string :=
  foldr (λ c acc, "/" +:+ c +:+ acc) "" p.

Definition render (p : list string) : string :=
  match p with
  | [] => "/"
  | _ => render_comps p
  end.

Definition node_at (fs : gmap (list string) node) (p : list string) : option node :=
  match p with
  | [] => Some Dir
  | _ => fs !! p
  end.

(** Components that do not name an entry: the empty one (doubled or
    trailing separator), [.] and [..]. *)
Definition special (c : string) : bool :=
  String.eqb c "" || String.eqb c "." || String.eqb c "..".

(** The position reached from directory [cur] through component [c]. *)
Definition enter (cur : list string) (c : string) : list string :=
  if String.eqb c "" || String.eqb c "." then cur
  else if String.eqb c ".." then removelast cur
  else cur ++ [c].

(** Path resolution: every component is looked up in the position
    reached so far, which must therefore be a directory, and must not
    be longer than a name can be. The path that a failed call was
    given is attached to the error afterwards ([with_filename]). *)
Fixpoint walk (fs : gmap (list string) node) (cur : list string)
    (comps : list string) : result (list string) :=
  match comps with
  | [] => Ok cur
  | c :: rest =>
      match node_at fs cur with
      | Some Dir =>
          if (NAME_MAX <? fs_length c)%Z then Raise (OSError ENAMETOOLONG)
          else walk fs (enter cur c) rest
      | Some (File _) => Raise NotADirectoryError
      | None => Raise (FileNotFoundError "")
      end
  end.

(** Python raises the exception of a failed system call with the path
    it passed to the call. *)
Definition with_filename {A} (path : string) (r : result A) : result A :=
  match r with
  | Raise (FileNotFoundError _) => Raise (FileNotFoundError path)
  | _ => r
  end.

(** What happens to the path argument of a system call before anything
    is looked up. *)
Definition path_arg (path : string) : result unit :=
  if has_nul path then Raise (ValueError "embedded null byte")
  else if String.eqb path "" then Raise (FileNotFoundError path)
  else if (PATH_MAX <=? fs_length path)%Z then Raise (OSError ENAMETOOLONG)
  else Ok tt.

(** The components of a path without its trailing empty ones. *)
Fixpoint trim (comps : list string) : list string :=
  match comps with
  | [] => []
  | c :: rest =>
      match trim rest with
      | [] => if String.eqb c "" then [] else [c]
      | t => c :: t
      end
  end.

Section FileSystem.
Variable cwd : list string.

Definition start_of (path : string) : list string :=
  if startswith_sep path then [] else cwd.

Definition resolve (fs : gmap (list string) node) (path : string)
    : result (list string) :=
  rbind (path_arg path) (λ _,
    with_filename path (walk fs (start_of path) (split_sep path))).

(** [os.stat] *)
Definition stat (fs : gmap (list string) node) (path : string) : result node :=
  rbind (resolve fs path) (λ p,
    match node_at fs p with
    | Some n => Ok n
    | None => Raise (FileNotFoundError path)
    end).

(** [os.path.exists]: whether [os.stat] succeeds. *)
Definition path_exists (fs : gmap (list string) node) (path : string) : bool :=
  is_ok (stat fs path).

(** [os.path.isfile] *)
Definition path_isfile (fs : gmap (list string) node) (path : string) : bool :=
  match stat fs path with
  | Ok (File _) => true
  | _ => false
  end.

(** [open(path, 'r')] followed by the reading of the whole file: the
    stored bytes. *)
Definition open_read (fs : gmap (list string) node) (path : string) : result bytes :=
  rbind (stat fs path) (λ n,
    match n with
    | File content => Ok content
    | Dir => Raise IsADirectoryError
    end).

(** [open(path, 'w')]: the directory of the last component must exist;
    the file is created, or emptied when it exists; a directory cannot
    be opened for writing, and a path that ends with a separator names
    one. The result is the position of the file and the new tree. *)
Definition open_write (fs : gmap (list string) node) (path : string)
    : result (list string * gmap (list string) node) :=
  rbind (path_arg path) (λ _,
    let comps := trim (split_sep path) in
    rbind (with_filename path (walk fs (start_of path) (removelast comps))) (λ d,
      match node_at fs d with
      | None => Raise (FileNotFoundError path)
      | Some (File _) => Raise NotADirectoryError
      | Some Dir =>
          match last comps with
          | None => Raise IsADirectoryError
          | Some name =>
              if special name || endswith_sep path then Raise IsADirectoryError
              else if (NAME_MAX <? fs_length name)%Z then Raise (OSError ENAMETOOLONG)
              else match node_at fs (d ++ [name]) with
                   | Some Dir => Raise IsADirectoryError
                   | _ => Ok (d ++ [name], <[d ++ [name] := File ""]> fs)
                   end
          end
      end)).

(** [os.makedirs(path, exist_ok=True)]: creates the leaf directory and
    every missing ancestor; the directories made before a failure
    stay. *)
Fixpoint makedirs_walk (fs : gmap (list string) node) (cur : list string)
    (comps : list string) : result unit * gmap (list string) node :=
  match comps with
  | [] => (Ok tt, fs)
  | c :: rest =>
      if special c then makedirs_walk fs (enter cur c) rest
      else if (NAME_MAX <? fs_length c)%Z then (Raise (OSError ENAMETOOLONG), fs)
      else
        match node_at fs (cur ++ [c]) with
        | Some Dir => makedirs_walk fs (cur ++ [c]) rest
        | Some (File _) =>
            (Raise (match rest with
                    | [] => FileExistsError
                    | _ => NotADirectoryError
                    end), fs)
        | None => makedirs_walk (<[cur ++ [c] := Dir]> fs) (cur ++ [c]) rest
        end
  end.

Definition makedirs (fs : gmap (list string) node) (path : string)
    : result unit * gmap (list string) node :=
  match path_arg path with
  | Raise e => (Raise e, fs)
  | Ok _ => makedirs_walk fs (start_of path) (split_sep path)
  end.

(** The name under which key [k] is an entry of directory [d]. *)
Definition child_of (d k : list string) : option string :=
  match last k with
  | Some n => if decide (k = d ++ [n]) then Some n else None
  | None => None
  end.

Definition entries (fs : gmap (list string) node) (d : list string) : list string :=
  omap (λ kv, child_of d kv.1) (map_to_list fs).

(** [os.listdir] *)
Definition listdir (fs : gmap (list string) node) (path : string)
    : result (list string) :=
  rbind (stat fs path) (λ n,
    match n with
    | Dir => rbind (resolve fs path) (λ d, Ok (entries fs d))
    | File _ => Raise NotADirectoryError
    end).

End FileSystem.

(** The operations above, on the process environment. *)

(** [os.getcwd()], which fails once the working directory has been
    removed. *)
Definition os_getcwd : M string :=
  λ w, match node_at (w_fs w) (w_cwd w) with
       | Some Dir => (Ok (render (w_cwd w)), w)
       | _ => (Raise (FileNotFoundError ""), w)
       end.

Definition os_makedirs (path : string) : M unit :=
  λ w, let '(r, fs) := makedirs (w_cwd w) (w_fs w) path in (r, set_fs fs w).

Definition os_path_exists (path : string) : M bool :=
  λ w, (Ok (path_exists (w_cwd w) (w_fs w) path), w).

Definition os_path_isfile (path : string) : M bool :=
  λ w, (Ok (path_isfile (w_cwd w) (w_fs w) path), w).

Definition os_listdir (path : string) : M (list string) :=
  λ w, (listdir (w_cwd w) (w_fs w) path, w).

(** [aiofiles.open(path, 'w')]: the open file is known by its position
    in the tree. *)
Definition os_open_w (path : string) : M (list string) :=
  λ w, match open_write (w_cwd w) (w_fs w) path with
       | Ok (f, fs) => (Ok f, set_fs fs w)
       | Raise e => (Raise e, w)
       end.

(** [await f.write(content)] and the closing of [f]: the text is
    encoded, which can fail, and its bytes become the content of the
    file. *)
Definition file_write (f : list string) (content : string) : M unit :=
  λ w, match encode (w_locale w) content with
       | Some b => (Ok tt, set_fs (<[f := File b]> (w_fs w)) w)
       | None => (Raise UnicodeEncodeError, w)
       end.

(** [async with aiofiles.open(path, 'w') as f: await f.write(content)] *)
Definition write_text (path content : string) : M unit :=
  f <- os_open_w path ;;
  file_write f content.

(** [async with aiofiles.open(path, 'r') as f: content = await f.read()]:
    the bytes of the file are decoded, which can fail, and the line
    endings of the text are normalised. *)
Definition read_text (path : string) : M string :=
  λ w, (rbind (open_read (w_cwd w) (w_fs w) path) (λ b,
          match decode (w_locale w) b with
          | Some s => Ok (universal_newlines s)
          | None => Raise UnicodeDecodeError
          end), w).

(** ** The file tools *)

Definition save_file (filename content : string) : M string :=
  cwd <- os_getcwd ;;
  let safe_dir := path_join cwd "data" in
  os_makedirs safe_dir ;;;
  let filepath := path_join safe_dir filename in
  write_text filepath content ;;;
  ret ("Content saved to " +:+ filepath).

Definition read_file (filename : string) : M string :=
  cwd <- os_getcwd ;;
  let safe_dir := path_join cwd "data" in
  let filepath := path_join safe_dir filename in
  found <- os_path_exists filepath ;;
  if negb found
  then raise (FileNotFoundError ("File " +:+ filename +:+ " not found"))
  else read_text filepath.

(** The loop of [list_files]: [files] accumulates the items that are
    regular files. *)
Fixpoint collect_files (target_dir : string) (items files : list string)
    : M (list string) :=
  match items with
  | [] => ret files
  | item :: rest =>
      let item_path := path_join target_dir item in
      regular <- os_path_isfile item_path ;;
      collect_files target_dir rest (if regular then files ++ [item] else files)
  end.

(** The path that [list_files] lists. *)
Definition list_files_target (cwd directory : string) : string :=
  let safe_dir := path_join cwd "data" in
  path_join safe_dir (lstrip "./" directory).

(** Default of the signature: [directory: str = "."]. *)
Definition list_files (directory : option string) : M (list string) :=
  let directory := default "." directory in
  cwd <- os_getcwd ;;
  let target_dir := list_files_target cwd directory in
  found <- os_path_exists target_dir ;;
  if negb found
  then raise (FileNotFoundError ("Directory " +:+ directory +:+ " not found"))
  else
    items <- os_listdir target_dir ;;
    collect_files target_dir items [].

(** ** Vocabulary of the specification *)

(** A position inside a JSON document ([sys.country], [weather[0]]):
    a key of an object or an index of an array. *)
Inductive seg :=
| Key (k : string)
| Idx (i : nat).

Definition jstep (v : json) (s : seg) : option json :=
  match s, v with
  | Key k, JObj m => m !! k
  | Idx i, JArr l => l !! i
  | _, _ => None
  end.

(** [jpath v p]: the value found in document [v] at position [p], when
    [v] contains that position. *)
Fixpoint jpath (v : json) (p : list seg) : option json :=
  match p with
  | [] => Some v
  | s :: rest =>
      match jstep v s with
      | Some y => jpath y rest
      | None => None
      end
  end.

(** Where the title of a notes-service record lives. *)
Definition title_path : list seg :=
  [Key "properties"; Key "Name"; Key "title"; Idx 0; Key "text"; Key "content"].

(** An issue object carries at least a title, a number and a state. *)
Definition is_issue (v : json) : bool :=
  match v with
  | JObj m =>
      bool_decide (is_Some (m !! "title"))
      && bool_decide (is_Some (m !! "number"))
      && bool_decide (is_Some (m !! "state"))
  | _ => false
  end.

(** [issue_view issue out]: [out] is the dictionary holding exactly the
    title, number and state of [issue]. *)
Inductive issue_view : json → json → Prop :=
| IssueView (m : gmap string json) (t n s : json) :
    m !! "title" = Some t →
    m !! "number" = Some n →
    m !! "state" = Some s →
    issue_view (JObj m) (JObj {[ "title" := t; "number" := n; "state" := s ]}).

(** The result records of a notes-service response body: the elements
    of its ["results"] list. *)
Definition result_records (body : json) : list json :=
  match body with
  | JObj m =>
      match m !! "results" with
      | Some (JArr l) => l
      | _ => []
      end
  | _ => []
  end.

(** A configuration value is missing when the handlers' test [not v]
    holds: the variable is unset ([None]) or set to the empty string. *)
Definition missing (o : option string) : Prop := truthy o = false.

(** The target of [list_files] as the specification words it: a leading
    ["./"] is removed, anything else is joined unchanged. *)
Definition list_files_target_spec (cwd directory : string) : string :=
  path_join (path_join cwd "data") (removeprefix "./" directory).

(** Whether a separator occurs in [s], and whether a carriage return
    does. *)
Fixpoint has_sep (s : string) : bool :=
  match s with
  | "" => false
  | String c rest => is_sep c || has_sep rest
  end.

Fixpoint has_cr (s : string) : bool :=
  match s with
  | "" => false
  | String c rest => Ascii.eqb c "013" || has_cr rest
  end.

(** Whether every character of [s] occurs in [set], and whether the
    first one does. *)
Fixpoint all_in (set s : string) : bool :=
  match s with
  | "" => true
  | String c rest => char_in c set && all_in set rest
  end.

Definition head_in (set s : string) : bool :=
  match s with
  | "" => false
  | String c _ => char_in c set
  end.

(** A name that a directory entry can bear: not empty, not [.] or
    [..], free of separators and of NUL, of at most [NAME_MAX]
    bytes. *)
Definition valid_name (n : string) : bool :=
  negb (special n) && negb (has_sep n) && negb (has_nul n)
  && (fs_length n <=? NAME_MAX)%Z.

(** A path short enough for a system call. *)
Definition fits (path : string) : bool := (fs_length path <? PATH_MAX)%Z.

(** Every directory on the way from [cur] down through [comps]
    exists. *)
Fixpoint dirs_along (fs : gmap (list string) node) (cur comps : list string) : bool :=
  match comps with
  | [] => true
  | c :: rest =>
      match node_at fs (cur ++ [c]) with
      | Some Dir => dirs_along fs (cur ++ [c]) rest
      | _ => false
      end
  end.

(** The working directory of a running process: an existing directory
    reached from the root through proper names, at a depth that leaves
    room for the path of its [data] entry. *)
Definition cwd_ok (w : world) : bool :=
  forallb valid_name (w_cwd w) && dirs_along (w_fs w) [] (w_cwd w)
  && fits (path_join (render (w_cwd w)) "data").

(** Every entry of the tree bears, like all its ancestors, a proper
    name. *)
Definition valid_fs (fs : gmap (list string) node) : bool :=
  forallb (λ kv, forallb valid_name kv.1) (map_to_list fs).

(** The fixed data subdirectory, and whether a position lies in it. *)
Definition data_dir (w : world) : list string := w_cwd w ++ ["data"].

Definition beneath (root p : list string) : Prop := root `prefix_of` p.

(** Where [save_file] writes and [read_file] reads. *)
Definition file_path (w : world) (filename : string) : string :=
  path_join (path_join (render (w_cwd w)) "data") filename.

(** A computation that leaves the directory tree as it is. *)
Definition keeps_fs {A} (c : M A) : Prop := ∀ w, w_fs (c w).2 = w_fs w.

(** An encoding that decodes what it has encoded. *)
Definition lossless (c : codec) : Prop :=
  ∀ text b, encode c text = Some b → decode c b = Some text.

(** Whether every character of [s] is an ASCII one. *)
Fixpoint is_ascii (s : string) : bool :=
  match s with
  | "" => true
  | String c rest => (N_of_ascii c <? 128)%N && is_ascii rest
  end.

(** ** Sample inputs *)

Definition no_credentials : Config := Config_init ∅.

Definition all_credentials : Config :=
  Config_init (list_to_map
    [("NOTION_API_TOKEN", "test_notion_token");
     ("NOTION_DATABASE_ID", "test_database_id");
     ("GITHUB_TOKEN", "test_github_token");
     ("OPENWEATHER_API_KEY", "test_weather_key")]).

(** A remote end that answers every request with status 200 and the
    given body. *)
Definition answering (body : json) : request → result response :=
  λ _, Ok {| rs_status := 200; rs_payload := Json body |}.

Definition unreachable : request → result response :=
  λ _, Raise (TransportError "connection refused").

(** The ASCII encoding, that of the C locale: text and bytes agree,
    and neither may go beyond ASCII. *)
Definition ascii_codec : codec :=
  {| encode := λ text, if is_ascii text then Some text else None;
     decode := λ b, if is_ascii b then Some b else None |}.

(** A process started in [/srv], an empty directory. *)
Definition fresh_world (remote : request → result response) : world :=
  {| w_cwd := ["srv"];
     w_fs := {[ ["srv"] := Dir ]};
     w_remote := remote;
     w_calls := [];
     w_locale := ascii_codec |}.

Definition new_york : json :=
  JObj {[ "name" := JStr "New York";
          "sys" := JObj {[ "country" := JStr "US" ]};
          "main" := JObj {[ "temp" := JFloat 20.5; "humidity" := JInt 65 ]};
          "weather" := JArr [JObj {[ "description" := JStr "clear sky" ]}];
          "wind" := JObj {[ "speed" := JFloat 5.2 ]} ]}.

Definition new_york_record : gmap string json :=
  {[ "city" := JStr "New York";
     "country" := JStr "US";
     "temperature" := JFloat 20.5;
     "humidity" := JInt 65;
     "description" := JStr "clear sky";
     "wind_speed" := JFloat 5.2 ]}.

Definition two_issues : list json :=
  [JObj {[ "title" := JStr "Test Issue 1"; "number" := JInt 1; "state" := JStr "open" ]};
   JObj {[ "title" := JStr "Test Issue 2"; "number" := JInt 2; "state" := JStr "closed" ]}].

Definition note_page (title : string) : json :=
  JObj {[ "properties" :=
    JObj {[ "Name" :=
      JObj {[ "title" :=
        JArr [JObj {[ "text" := JObj {[ "content" := JStr title ]} ]}] ]} ]} ]}.

(** A body whose ["results"] entry is [null]. *)
Definition null_results : json := JObj {[ "results" := JNull ]}.

(** A text that the ASCII encoding cannot encode: its last character
    is beyond ASCII. *)
Definition cafe : string := "caf" +:+ String "233" "".

(** A name of 256 bytes, one more than a file name can have. *)
Definition long_name : string :=
  String.string_of_list_ascii (replicate 256 "a"%char).

(** A text with a CR LF line ending. *)
Definition crlf_text : string := "one" +:+ String "013" (String "010" "two").

(** A process started in [/srv] whose data directory holds a file, a
    subdirectory and a directory with a dotted name. *)
Definition stocked_world : world :=
  {| w_cwd := ["srv"];
     w_fs := {[ ["srv"] := Dir;
                ["srv"; "data"] := Dir;
                ["srv"; "data"; "notes.txt"] := File crlf_text;
                ["srv"; "data"; "archive"] := Dir;
                ["srv"; "data"; "archive"; "old.txt"] := File "old";
                ["srv"; "data"; ".hidden"] := Dir;
                ["srv"; "data"; ".hidden"; "secret.txt"] := File "secret" ]};
     w_remote := unreachable;
     w_calls := [];
     w_locale := ascii_codec |}.

(** ** Further vocabulary *)

(** A computation that leaves the whole process environment as it
    is. *)
Definition keeps_world {A} (c : M A) : Prop := ∀ w, (c w).2 = w.

(** The environment variables that [Config] reads. *)
Definition config_variables : list string :=
  ["NOTION_API_TOKEN"; "NOTION_DATABASE_ID"; "GITHUB_TOKEN"; "OPENWEATHER_API_KEY"].

(** The page that [create_notion_note] asks the notes service to
    store. *)
Definition created_page (cfg : Config) (title content : string) : json :=
  default JNull (rq_json (notion_create_request cfg title content)).

(** Where the text of a note lives in such a page. *)
Definition content_path : list seg :=
  [Key "properties"; Key "Content"; Key "rich_text"; Idx 0; Key "text"; Key "content"].

(** The keys of the dictionary that [get_weather] returns. *)
Definition weather_keys : gset string :=
  list_to_set ["city"; "country"; "temperature"; "description"; "humidity"; "wind_speed"].

(** A flag of the [config_status] dictionary of [get_server_info]. *)
Definition config_flag (info : gmap string json) (name : string) : option json :=
  jpath (JObj info) [Key "config_status"; Key name].

(** A remote end that answers every request with the given status and
    a body that is not JSON. *)
Definition answering_status (status : Z) : request → result response :=
  λ _, Ok {| rs_status := status; rs_payload := NotJson |}.

(** A remote end that answers every request with status 200 and bytes
    that are not text. *)
Definition garbled : request → result response :=
  λ _, Ok {| rs_status := 200; rs_payload := NotText |}.

(** A process whose [data] is a regular file. *)
Definition blocked_world : world :=
  {| w_cwd := ["srv"];
     w_fs := {[ ["srv"] := Dir; ["srv"; "data"] := File "not a directory" ]};
     w_remote := unreachable;
     w_calls := [];
     w_locale := ascii_codec |}.

(** [r] passes on what went wrong upstream of request [rq]: the
    exception of a transport failure, or the status of an answer
    outside 2xx. *)
Definition propagates_failure {A} (w : world) (rq : request) (r : result A) : Prop :=
  (∀ e, w_remote w rq = Raise e → r = Raise e)
  ∧ (∀ resp, w_remote w rq = Ok resp → is_success (rs_status resp) = false →
       r = Raise (HTTPStatusError (rs_status resp))).

(** [r] is the decoding error when request [rq] is answered with a
    success status and a body that is not JSON: [UnicodeDecodeError]
    when the bytes are not text, [JSONDecodeError] when the text is not
    JSON. *)
Definition rejects_undecodable {A} (w : world) (rq : request) (r : result A) : Prop :=
  ∀ resp, w_remote w rq = Ok resp → is_success (rs_status resp) = true →
    (rs_payload resp = NotText → r = Raise UnicodeDecodeError)
    ∧ (rs_payload resp = NotJson → r = Raise JSONDecodeError).

(** A rendering of issue numbers, for the examples. *)
Definition show_sample (v : json) : string :=
  match v with
  | JInt z => if (z =? 123)%Z then "123" else "?"
  | _ => "?"
  end.

(** A machine with a file outside the data directory. *)
Definition shared_world : world :=
  {| w_cwd := ["srv"];
     w_fs := {[ ["srv"] := Dir;
                ["srv"; "data"] := Dir;
                ["etc"] := Dir;
                ["etc"; "hostname"] := File "build-host" ]};
     w_remote := unreachable;
     w_calls := [];
     w_locale := ascii_codec |}.

(** ** Basic facts *)

Lemma missing_None : missing None.
Proof. reflexivity. Qed.

Lemma missing_empty : missing (Some "").
Proof. reflexivity. Qed.

Lemma truthy_not_missing o : truthy o = true → ¬ missing o.
Proof. unfold missing. intros -> ?. discriminate. Qed.

Lemma jstep_key v k x : jstep v (Key k) = Some x → getitem_key v k = Ok x.
Proof. destruct v; simpl; try discriminate. by intros ->. Qed.

Lemma jstep_idx v i x : jstep v (Idx i) = Some x → getitem_idx v i = Ok x.
Proof. destruct v; simpl; try discriminate. by intros ->. Qed.

Lemma getitem_key_Ok v k x :
  getitem_key v k = Ok x ↔ ∃ m, v = JObj m ∧ m !! k = Some x.
Proof.
  split.
  - destruct v; simpl; try discriminate.
    destruct (m !! k) eqn:E; [|discriminate]. intros [= ->]. eauto.
  - intros (m & -> & E). simpl. by rewrite E.
Qed.

Lemma getitem_key_jstep v k x : getitem_key v k = Ok x ↔ jstep v (Key k) = Some x.
Proof.
  rewrite getitem_key_Ok. split.
  - by intros (m & -> & E).
  - destruct v; simpl; try discriminate. eauto.
Qed.

(** Whatever an integer index finds in a string is a string again, on
    which a key lookup fails. *)
Lemma getitem_idx_then_key v i k x y :
  getitem_idx v i = Ok x → getitem_key x k = Ok y → jstep v (Idx i) = Some x.
Proof.
  destruct v; simpl; try discriminate.
  - destruct (String.get i s); [|discriminate]. intros [= <-]. discriminate.
  - destruct (l !! i); [|discriminate]. by intros [= ->].
Qed.

Lemma comprehension_Ok {A B} (f : A → result B) xs ys :
  comprehension f xs = Ok ys ↔ Forall2 (λ x y, f x = Ok y) xs ys.
Proof.
  revert ys. induction xs as [|x xs IH]; intros ys; simpl.
  - split; [intros [= <-]; constructor | by inversion 1].
  - destruct (f x) as [y|e] eqn:Ef; simpl.
    + destruct (comprehension f xs) as [ys'|e] eqn:Ec; simpl.
      * split.
        -- intros [= <-]. constructor; [done|]. by apply IH.
        -- inversion 1 as [|? y' ? ys'' Hy Hrest]; subst.
           rewrite Ef in Hy. injection Hy as <-.
           apply IH in Hrest. by injection Hrest as <-.
      * split; [discriminate|].
        inversion 1 as [|? y' ? ys'' Hy Hrest]; subst.
        apply IH in Hrest. discriminate.
    + split; [discriminate|].
      inversion 1 as [|? y' ? ys'' Hy Hrest]; subst. congruence.
Qed.

Lemma comprehension_Raise {A B} (f : A → result B) xs :
  is_ok (comprehension f xs) = false ↔ ∃ x, x ∈ xs ∧ is_ok (f x) = false.
Proof.
  induction xs as [|x xs IH]; simpl.
  - split; [discriminate|]. intros (x & Hx & _). by apply not_elem_of_nil in Hx.
  - destruct (f x) as [y|e] eqn:Ef; simpl.
    + destruct (comprehension f xs) as [ys'|e] eqn:Ec; simpl.
      * split; [discriminate|]. intros (x' & Hx & Hf).
        apply elem_of_cons in Hx as [->|Hx].
        -- rewrite Ef in Hf. discriminate.
        -- destruct IH as [_ IH].
           specialize (IH (ex_intro _ x' (conj Hx Hf))). discriminate IH.
      * split; [|done]. intros _. destruct IH as [IH _].
        destruct (IH eq_refl) as (x' & Hx & Hf).
        exists x'. split; [apply elem_of_cons; by right|done].
    + split; [|done]. intros _. exists x. rewrite Ef. split; [apply elem_of_cons; by left|done].
Qed.

Lemma jpath_cons v s rest x :
  jpath v (s :: rest) = Some x ↔ ∃ y, jstep v s = Some y ∧ jpath y rest = Some x.
Proof.
  simpl. destruct (jstep v s) as [y|].
  - split; [eauto|]. by intros (y' & [= <-] & ?).
  - split; [discriminate|]. by intros (y' & [=] & ?).
Qed.

Lemma jpath_step v s rest y x :
  jstep v s = Some y → jpath y rest = Some x → jpath v (s :: rest) = Some x.
Proof. intros Hs Hp. apply jpath_cons. eauto. Qed.

Lemma jpath_nil v x : jpath v [] = Some x ↔ x = v.
Proof. simpl. split; [by intros [= ->]|by intros ->]. Qed.

(** Takes a hypothesis [jpath v p = Some x] apart, one step at a time. *)
Ltac path_steps :=
  repeat match goal with
    | H : jpath _ (_ :: _) = Some _ |- _ =>
        apply jpath_cons in H; destruct H as (? & ? & H)
    | H : jpath _ [] = Some _ |- _ =>
        apply jpath_nil in H; subst
    end.

Lemma rs_body_Some r j : rs_body r = Some j ↔ rs_payload r = Json j.
Proof.
  unfold rs_body. destruct (rs_payload r); split; intros H; by simplify_eq.
Qed.

(** Unfolds the plumbing of the handler monad. *)
Ltac run :=
  unfold bind, ret, raise, lift, send, raise_for_status, response_json; simpl.

(** ** Credentials *)

Section Credentials.
Variable cfg : Config.
Variable w : world.

Lemma get_notion_notes_unconfigured max_results :
  missing (notion_api_token cfg) ∨ missing (notion_database_id cfg) →
  get_notion_notes cfg max_results w
  = (Raise (ValueError "Notion API token and database ID are required"), w).
Proof.
  unfold missing, get_notion_notes. intros [-> | ->]; [done|].
  by rewrite orb_true_r.
Qed.

Lemma create_notion_note_unconfigured title content :
  missing (notion_api_token cfg) ∨ missing (notion_database_id cfg) →
  create_notion_note cfg title content w
  = (Raise (ValueError "Notion API token and database ID are required"), w).
Proof.
  unfold missing, create_notion_note. intros [-> | ->]; [done|].
  by rewrite orb_true_r.
Qed.

Lemma get_github_issues_unconfigured owner repo state max_results :
  missing (github_token cfg) →
  get_github_issues cfg owner repo state max_results w
  = (Raise (ValueError "GitHub token is required"), w).
Proof. unfold missing, get_github_issues. by intros ->. Qed.

Lemma create_github_issue_unconfigured show owner repo title body :
  missing (github_token cfg) →
  create_github_issue cfg show owner repo title body w
  = (Raise (ValueError "GitHub token is required"), w).
Proof. unfold missing, create_github_issue. by intros ->. Qed.

Lemma get_weather_unconfigured city country_code :
  missing (openweather_api_key cfg) →
  get_weather cfg city country_code w
  = (Raise (ValueError "OpenWeather API key is required"), w).
Proof. unfold missing, get_weather. by intros ->. Qed.

End Credentials.

(** A handler that goes past its credential test sends exactly one
    request. *)
Lemma get_weather_configured_calls cfg city country_code w :
  truthy (openweather_api_key cfg) = true →
  w_calls (get_weather cfg city country_code w).2
  = w_calls w ++ [weather_request cfg city (default "US" country_code)].
Proof.
  intros Hk. unfold get_weather. rewrite Hk. run.
  destruct (w_remote w _) as [resp|e]; [|done].
  destruct (is_success (rs_status resp)); simpl; [|done].
  by destruct (rs_payload resp).
Qed.

(** C1. Each of the five integration tools, called while a
    configuration value it requires is missing (both the token and the
    database id for the two notes tools, the token for the two issue
    tools, the key for the weather tool), raises its configuration
    error ([ValueError]) and returns the process environment as it
    found it: in particular the list of requests sent has not grown,
    so no network call was attempted. An unset variable ([None]) is
    missing. *)
Theorem missing_credential_raises_before_any_request (cfg : Config) (w : world) :
  (missing (notion_api_token cfg) ∨ missing (notion_database_id cfg) →
     (∀ max_results,
        get_notion_notes cfg max_results w
        = (Raise (ValueError "Notion API token and database ID are required"), w))
     ∧ (∀ title content,
        create_notion_note cfg title content w
        = (Raise (ValueError "Notion API token and database ID are required"), w)))
  ∧ (missing (github_token cfg) →
     (∀ owner repo state max_results,
        get_github_issues cfg owner repo state max_results w
        = (Raise (ValueError "GitHub token is required"), w))
     ∧ (∀ show owner repo title body,
        create_github_issue cfg show owner repo title body w
        = (Raise (ValueError "GitHub token is required"), w)))
  ∧ (missing (openweather_api_key cfg) →
     ∀ city country_code,
       get_weather cfg city country_code w
       = (Raise (ValueError "OpenWeather API key is required"), w))
  ∧ missing None.
Proof.
  repeat split.
  - intros. by apply get_notion_notes_unconfigured.
  - intros. by apply create_notion_note_unconfigured.
  - intros. by apply get_github_issues_unconfigured.
  - intros. by apply create_github_issue_unconfigured.
  - intros. by apply get_weather_unconfigured.
Qed.

Lemma missing_credential_witness :
  w_calls (get_notion_notes no_credentials None (fresh_world unreachable)).2 = []
  ∧ w_calls (get_github_issues no_credentials "owner" "repo" None None
               (fresh_world unreachable)).2 = []
  ∧ w_calls (get_weather no_credentials "New York" None (fresh_world unreachable)).2 = [].
Proof.
  destruct (missing_credential_raises_before_any_request
              no_credentials (fresh_world unreachable))
    as (Hnotion & Hgithub & Hweather & _).
  destruct (Hnotion (or_introl eq_refl)) as [Hn _].
  destruct (Hgithub eq_refl) as [Hg _].
  rewrite Hn, Hg, (Hweather eq_refl). by repeat split.
Defined.

(** ** Weather *)

Lemma weather_record_paths data name country temp humidity description wind :
  jpath data [Key "name"] = Some name →
  jpath data [Key "sys"; Key "country"] = Some country →
  jpath data [Key "main"; Key "temp"] = Some temp →
  jpath data [Key "main"; Key "humidity"] = Some humidity →
  jpath data [Key "weather"; Idx 0; Key "description"] = Some description →
  jpath data [Key "wind"; Key "speed"] = Some wind →
  weather_record data
  = Ok {[ "city" := name; "country" := country; "temperature" := temp;
          "description" := description; "humidity" := humidity;
          "wind_speed" := wind ]}.
Proof.
  intros. path_steps. simplify_eq. unfold weather_record.
  repeat (first [ erewrite jstep_key by eassumption
                | erewrite jstep_idx by eassumption ]; simpl).
  reflexivity.
Qed.

Lemma get_weather_answer cfg w city country_code resp data :
  truthy (openweather_api_key cfg) = true →
  w_remote w (weather_request cfg city (default "US" country_code)) = Ok resp →
  is_success (rs_status resp) = true →
  rs_body resp = Some data →
  (get_weather cfg city country_code w).1 = weather_record data.
Proof.
  intros Hk Hr Hs Hb%rs_body_Some. unfold get_weather. rewrite Hk. run.
  by rewrite Hr, Hs, Hb.
Qed.

(** C2. When the weather key is configured and the remote service
    answers the lookup with a success status and a payload that
    contains [name], [sys.country], [main.temp], [main.humidity],
    [weather[0].description] and [wind.speed], [get_weather] returns
    the dictionary with exactly the six entries city, country,
    temperature, description, humidity and wind_speed bound to those
    values; for the New York payload of the specification it returns
    the record given there. *)
Theorem get_weather_returns_record
    (cfg : Config) (w : world) (city : string) (country_code : option string)
    (resp : response) :
  truthy (openweather_api_key cfg) = true →
  w_remote w (weather_request cfg city (default "US" country_code)) = Ok resp →
  is_success (rs_status resp) = true →
  (∀ data name country temp humidity description wind,
     rs_body resp = Some data →
     jpath data [Key "name"] = Some name →
     jpath data [Key "sys"; Key "country"] = Some country →
     jpath data [Key "main"; Key "temp"] = Some temp →
     jpath data [Key "main"; Key "humidity"] = Some humidity →
     jpath data [Key "weather"; Idx 0; Key "description"] = Some description →
     jpath data [Key "wind"; Key "speed"] = Some wind →
     (get_weather cfg city country_code w).1
     = Ok {[ "city" := name; "country" := country; "temperature" := temp;
             "description" := description; "humidity" := humidity;
             "wind_speed" := wind ]})
  ∧ (rs_body resp = Some new_york →
     (get_weather cfg city country_code w).1 = Ok new_york_record).
Proof.
  intros Hk Hr Hs. split.
  - intros * Hb **. rewrite (get_weather_answer _ _ _ _ _ _ Hk Hr Hs Hb).
    by apply weather_record_paths.
  - intros Hb. rewrite (get_weather_answer _ _ _ _ _ _ Hk Hr Hs Hb).
    reflexivity.
Qed.

Lemma get_weather_witness :
  (get_weather all_credentials "New York" None (fresh_world (answering new_york))).1
  = Ok new_york_record.
Proof.
  refine (proj2 (get_weather_returns_record all_credentials
            (fresh_world (answering new_york)) "New York" None
            {| rs_status := 200; rs_payload := Json new_york |} _ _ _) _);
    reflexivity.
Defined.

(** ** Issues *)

Lemma issue_entry_view issue :
  is_issue issue = true → ∃ out, issue_entry issue = Ok out ∧ issue_view issue out.
Proof.
  destruct issue as [| | | | | |m]; try discriminate. simpl.
  rewrite !andb_true_iff, !bool_decide_eq_true.
  intros [[[t Ht] [n Hn]] [s Hs]].
  exists (JObj {[ "title" := t; "number" := n; "state" := s ]}).
  unfold issue_entry. simpl. rewrite Ht, Hn, Hs. simpl.
  split; [done|by constructor].
Qed.

Lemma issues_comprehension issues :
  forallb is_issue issues = true →
  ∃ out, comprehension issue_entry issues = Ok out ∧ Forall2 issue_view issues out.
Proof.
  induction issues as [|issue issues IH]; simpl.
  - exists []. split; [done|constructor].
  - rewrite andb_true_iff. intros [Hi Hrest].
    destruct (issue_entry_view _ Hi) as (o & Ho & Hv).
    destruct (IH Hrest) as (os & Hos & Hvs).
    exists (o :: os). rewrite Ho. simpl. rewrite Hos. simpl.
    split; [done|by constructor].
Qed.

(** C5. When the token is configured and the remote service answers
    the listing with a success status and a list of issue objects,
    [get_github_issues] returns a list that matches the remote one
    element by element (hence of the same length and in the same
    order), each element being the dictionary with exactly the title,
    number and state of the remote issue. The one request sent carries
    the state filter and the page size, which are ["open"] and [10]
    when the caller omits them. *)
Theorem get_github_issues_maps_in_order
    (cfg : Config) (w : world) (owner repo : string)
    (state : option string) (max_results : option Z)
    (resp : response) (issues : list json) :
  truthy (github_token cfg) = true →
  w_remote w (github_issues_request cfg owner repo
                (default "open" state) (default 10%Z max_results)) = Ok resp →
  is_success (rs_status resp) = true →
  rs_body resp = Some (JArr issues) →
  forallb is_issue issues = true →
  (∃ out,
     (get_github_issues cfg owner repo state max_results w).1 = Ok out
     ∧ Forall2 issue_view issues out
     ∧ length out = length issues)
  ∧ (∃ rq,
     w_calls (get_github_issues cfg owner repo state max_results w).2 = w_calls w ++ [rq]
     ∧ rq_params rq = [("state", JStr (default "open" state));
                       ("per_page", JInt (default 10%Z max_results))])
  ∧ get_github_issues cfg owner repo None None
    = get_github_issues cfg owner repo (Some "open") (Some 10%Z).
Proof.
  intros Hk Hr Hs Hb%rs_body_Some Hi.
  destruct (issues_comprehension _ Hi) as (out & Hout & Hv).
  repeat split.
  - exists out. unfold get_github_issues. rewrite Hk. run.
    rewrite Hr, Hs, Hb. simpl. rewrite Hout.
    repeat split; [done|]. symmetry. by eapply Forall2_length.
  - eexists. unfold get_github_issues. rewrite Hk. run.
    rewrite Hr, Hs, Hb. simpl. split; reflexivity.
Qed.

Lemma get_github_issues_witness :
  ∃ out,
    (get_github_issues all_credentials "owner" "repo" None None
       (fresh_world (answering (JArr two_issues)))).1 = Ok out
    ∧ Forall2 issue_view two_issues out
    ∧ length out = 2.
Proof.
  exact (proj1 (get_github_issues_maps_in_order all_credentials
                  (fresh_world (answering (JArr two_issues))) "owner" "repo" None None
                  {| rs_status := 200; rs_payload := Json (JArr two_issues) |} two_issues
                  eq_refl eq_refl eq_refl eq_refl eq_refl)).
Defined.

(** ** Notes *)

(** The subscript chain of [get_notion_notes] finds a title exactly
    when the record contains the title position. *)
Lemma page_title_jpath page t :
  page_title page = Ok t ↔ jpath page title_path = Some t.
Proof.
  split.
  - unfold page_title. intros E6.
    destruct (getitem_key page "properties") as [v1|] eqn:E1; simpl in E6; [|discriminate].
    destruct (getitem_key v1 "Name") as [v2|] eqn:E2; simpl in E6; [|discriminate].
    destruct (getitem_key v2 "title") as [v3|] eqn:E3; simpl in E6; [|discriminate].
    destruct (getitem_idx v3 0) as [v4|] eqn:E4; simpl in E6; [|discriminate].
    destruct (getitem_key v4 "text") as [v5|] eqn:E5; simpl in E6; [|discriminate].
    pose proof (getitem_idx_then_key _ _ _ _ _ E4 E5) as E4'.
    apply getitem_key_jstep in E1, E2, E3, E5, E6.
    unfold title_path.
    repeat (eapply jpath_step; [eassumption|]).
    reflexivity.
  - intros H. unfold title_path in H. path_steps. unfold page_title.
    repeat (first [ erewrite jstep_key by eassumption
                  | erewrite jstep_idx by eassumption ]; simpl).
    reflexivity.
Qed.

Lemma page_title_fault page :
  is_ok (page_title page) = false ↔ jpath page title_path = None.
Proof.
  destruct (page_title page) as [t|e] eqn:E.
  - apply page_title_jpath in E. rewrite E. split; discriminate.
  - split; [|done]. intros _.
    destruct (jpath page title_path) as [t|] eqn:Ep; [|done].
    apply page_title_jpath in Ep. congruence.
Qed.

Lemma get_notion_notes_answer cfg w max_results resp body :
  truthy (notion_api_token cfg) = true →
  truthy (notion_database_id cfg) = true →
  w_remote w (notion_query_request cfg (default 10%Z max_results)) = Ok resp →
  is_success (rs_status resp) = true →
  rs_body resp = Some body →
  (get_notion_notes cfg max_results w).1
  = rbind (dict_get body "results" (JArr [])) (λ results,
    rbind (py_iter results) (comprehension page_title)).
Proof.
  intros Ht Hd Hr Hs Hb%rs_body_Some. unfold get_notion_notes. rewrite Ht, Hd. run.
  rewrite Hr, Hs, Hb. simpl.
  destruct (dict_get body "results" (JArr [])) as [results|]; simpl; [|done].
  by destruct (py_iter results).
Qed.

(** C9, as amended. When the notes service answers the query with a
    success status and a JSON object, [get_notion_notes] returns the
    empty list if the object has no ["results"] entry; if that entry is
    a list, the call faults exactly when one of its records does not
    contain the title position
    [properties.Name.title[0].text.content], and otherwise returns the
    values found at that position, in order. *)
Theorem get_notion_notes_results
    (cfg : Config) (w : world) (max_results : option Z)
    (resp : response) (m : gmap string json) :
  truthy (notion_api_token cfg) = true →
  truthy (notion_database_id cfg) = true →
  w_remote w (notion_query_request cfg (default 10%Z max_results)) = Ok resp →
  is_success (rs_status resp) = true →
  rs_body resp = Some (JObj m) →
  (m !! "results" = None →
     (get_notion_notes cfg max_results w).1 = Ok [])
  ∧ (∀ pages, m !! "results" = Some (JArr pages) →
       (is_ok (get_notion_notes cfg max_results w).1 = false
        ↔ ∃ page, page ∈ pages ∧ jpath page title_path = None)
       ∧ (∀ titles,
            (get_notion_notes cfg max_results w).1 = Ok titles
            ↔ Forall2 (λ page t, jpath page title_path = Some t) pages titles)).
Proof.
  intros Ht Hd Hr Hs Hb.
  rewrite (get_notion_notes_answer _ _ _ _ _ Ht Hd Hr Hs Hb). simpl.
  split.
  - by intros ->.
  - intros pages ->. simpl. split.
    + rewrite comprehension_Raise.
      split; intros (page & Hin & Hf); exists page; split; try done;
        by apply page_title_fault.
    + intros titles. rewrite comprehension_Ok.
      split; intros H; eapply Forall2_impl; try exact H;
        intros page t; by apply page_title_jpath.
Qed.

Lemma get_notion_notes_witness :
  (get_notion_notes all_credentials None (fresh_world (answering (JObj ∅)))).1 = Ok []
  ∧ (get_notion_notes all_credentials (Some 5%Z)
       (fresh_world (answering
          (JObj {[ "results" := JArr [note_page "Test Note 1"; note_page "Test Note 2"] ]})))).1
    = Ok [JStr "Test Note 1"; JStr "Test Note 2"].
Proof.
  split.
  - exact (proj1 (get_notion_notes_results all_credentials
                    (fresh_world (answering (JObj ∅))) None
                    {| rs_status := 200; rs_payload := Json (JObj ∅) |} ∅
                    eq_refl eq_refl eq_refl eq_refl eq_refl) eq_refl).
  - reflexivity.
Defined.

(** C9, as stated, fails: with ["results": null] the call faults
    although the response has no result record at all. *)
Lemma null_results_fault_without_record :
  ¬ (is_ok (get_notion_notes all_credentials None
              (fresh_world (answering null_results))).1 = false →
     ∃ page, page ∈ result_records null_results ∧ jpath page title_path = None).
Proof.
  intros H. destruct (H eq_refl) as (page & Hin & _).
  by apply not_elem_of_nil in Hin.
Qed.

Lemma null_results_raises :
  (get_notion_notes all_credentials None (fresh_world (answering null_results))).1
  = Raise TypeError.
Proof. reflexivity. Qed.

(** ** Strings *)

Lemma append_assoc (a b c : string) : (a +:+ b) +:+ c = a +:+ (b +:+ c).
Proof. induction a as [|x a IH]; simpl; [done|by rewrite IH]. Qed.

Lemma append_nil_r (a : string) : a +:+ "" = a.
Proof. induction a as [|x a IH]; simpl; [done|by rewrite IH]. Qed.

Lemma eqb_string_eq (a b : string) : String.eqb a b = true ↔ a = b.
Proof. apply String.eqb_eq. Qed.

Lemma eqb_string_neq (a b : string) : String.eqb a b = false ↔ a ≠ b.
Proof. apply String.eqb_neq. Qed.

Lemma has_nul_app a b : has_nul (a +:+ b) = has_nul a || has_nul b.
Proof.
  induction a as [|x a IH]; simpl; [done|].
  by rewrite IH, orb_assoc.
Qed.

Lemma has_sep_app a b : has_sep (a +:+ b) = has_sep a || has_sep b.
Proof.
  induction a as [|x a IH]; simpl; [done|].
  by rewrite IH, orb_assoc.
Qed.

Lemma startswith_sep_app a b :
  a ≠ "" → startswith_sep (a +:+ b) = startswith_sep a.
Proof. by destruct a. Qed.

Lemma endswith_sep_app a b :
  b ≠ "" → endswith_sep (a +:+ b) = endswith_sep b.
Proof.
  intros Hb. induction a as [|x a IH]; [done|].
  change (String x a +:+ b) with (String x (a +:+ b)).
  simpl. destruct (a +:+ b) eqn:E; [|done].
  destruct a; [|discriminate]. simpl in E. congruence.
Qed.

Lemma endswith_sep_inv s : endswith_sep s = true → ∃ t, s = t +:+ "/".
Proof.
  induction s as [|x s IH]; [discriminate|]. simpl.
  destruct s as [|y s].
  - unfold is_sep. intros H. apply Ascii.eqb_eq in H as ->. by exists "".
  - intros H. destruct (IH H) as [t Ht]. exists (String x t). simpl. by rewrite Ht.
Qed.

Lemma split_sep_nonempty s : split_sep s ≠ [].
Proof.
  induction s as [|x s IH]; simpl; [done|].
  destruct (is_sep x); [done|]. by destruct (split_sep s).
Qed.

(** Splitting distributes over a separator. *)
Lemma split_sep_app_sep a b :
  split_sep (a +:+ String "/" b) = split_sep a ++ split_sep b.
Proof.
  induction a as [|x a IH]; simpl; [done|].
  rewrite IH. destruct (is_sep x); [done|].
  pose proof (split_sep_nonempty a). by destruct (split_sep a).
Qed.

Lemma split_sep_plain s : has_sep s = false → split_sep s = [s].
Proof.
  induction s as [|x s IH]; simpl; [done|].
  intros H. apply orb_false_iff in H as [-> Hs]. by rewrite (IH Hs).
Qed.

Example universal_newlines_sample :
  universal_newlines
    ("a" +:+ String "013" (String "010" ("b" +:+ String "013" ("c" +:+ String "013" ""))))
  = "a" +:+ String "010" ("b" +:+ String "010" ("c" +:+ String "010" "")).
Proof. reflexivity. Qed.

Example split_sep_sample :
  split_sep "/srv/data/" = [""; "srv"; "data"; ""]
  ∧ split_sep "a//b" = ["a"; ""; "b"]
  ∧ split_sep "" = [""].
Proof. by repeat split. Qed.

Example path_join_sample :
  path_join "/srv" "data" = "/srv/data"
  ∧ path_join "/" "data" = "/data"
  ∧ path_join "/srv/data" "" = "/srv/data/"
  ∧ path_join "/srv/data" "/etc/passwd" = "/etc/passwd"
  ∧ path_join "/srv/data/" "x" = "/srv/data/x".
Proof. by repeat split. Qed.

Example lstrip_sample :
  lstrip "./" "./notes" = "notes"
  ∧ lstrip "./" "." = ""
  ∧ lstrip "./" "../../etc" = "etc"
  ∧ lstrip "./" ".hidden" = "hidden"
  ∧ lstrip "./" "notes/./x" = "notes/./x".
Proof. by repeat split. Qed.

Example removeprefix_sample :
  removeprefix "./" "./notes" = "notes"
  ∧ removeprefix "./" ".hidden" = ".hidden"
  ∧ removeprefix "./" "." = "."
  ∧ removeprefix "./" "notes" = "notes".
Proof. by repeat split. Qed.

Lemma fs_length_app a b : fs_length (a +:+ b) = (fs_length a + fs_length b)%Z.
Proof. induction a as [|x a IH]; simpl; [done|]. rewrite IH. lia. Qed.

Lemma fs_length_nonneg s : (0 ≤ fs_length s)%Z.
Proof. induction s as [|x s IH]; simpl; [done|]. destruct (_ <? _)%N; lia. Qed.

Lemma fs_length_pos s : s ≠ "" → (0 < fs_length s)%Z.
Proof.
  destruct s as [|x s]; [done|]. intros _. simpl.
  pose proof (fs_length_nonneg s). destruct (_ <? _)%N; lia.
Qed.

Lemma universal_newlines_id s : has_cr s = false → universal_newlines s = s.
Proof.
  induction s as [|x s IH]; simpl; [done|].
  intros H. apply orb_false_iff in H as [-> Hs]. by rewrite (IH Hs).
Qed.

Lemma lstrip_decompose set s :
  ∃ prefix, s = prefix +:+ lstrip set s ∧ all_in set prefix = true.
Proof.
  induction s as [|x s (p & Hp & Ha)]; simpl.
  - by exists "".
  - destruct (char_in x set) eqn:E.
    + exists (String x p). simpl. rewrite E, Ha. split; [by rewrite <- Hp|done].
    + by exists "".
Qed.

Lemma lstrip_head set s : head_in set (lstrip set s) = false.
Proof.
  induction s as [|x s IH]; simpl; [done|].
  destruct (char_in x set) eqn:E; [done|]. simpl. by rewrite E.
Qed.

Lemma lstrip_id set s : head_in set s = false → lstrip set s = s.
Proof. destruct s as [|x s]; simpl; [done|]. by intros ->. Qed.

Lemma head_in_sep s : head_in "./" s = false → startswith_sep s = false.
Proof.
  destruct s as [|x s]; simpl; [done|]. unfold is_sep.
  destruct (Ascii.eqb x "."); simpl; [done|]. by rewrite orb_false_r.
Qed.

(** ** Paths *)

Lemma valid_name_inv n :
  valid_name n = true →
  special n = false ∧ has_sep n = false ∧ has_nul n = false ∧ n ≠ "".
Proof.
  unfold valid_name. rewrite !andb_true_iff, !negb_true_iff.
  intros [[[Hs Hp] Hn] _]. repeat split; try done.
  intros ->. discriminate.
Qed.

Lemma valid_name_short n : valid_name n = true → (NAME_MAX <? fs_length n)%Z = false.
Proof.
  unfold valid_name. rewrite !andb_true_iff. intros [_ H]. lia.
Qed.

Lemma path_arg_Ok path :
  has_nul path = false → path ≠ "" → fits path = true → path_arg path = Ok tt.
Proof.
  unfold path_arg, fits. intros -> Hne Hf.
  apply eqb_string_neq in Hne as ->.
  by destruct (Z.leb_spec PATH_MAX (fs_length path)); [lia|].
Qed.

Lemma path_arg_inv path :
  path_arg path = Ok tt → has_nul path = false ∧ path ≠ "" ∧ fits path = true.
Proof.
  unfold path_arg, fits. destruct (has_nul path); [done|].
  destruct (String.eqb path "") eqn:E; [done|]. apply eqb_string_neq in E.
  destruct (Z.leb_spec PATH_MAX (fs_length path)); [done|].
  intros _. repeat split; try done. lia.
Qed.

Lemma valid_names_inv p c :
  forallb valid_name p = true → c ∈ p → valid_name c = true.
Proof.
  intros Hp Hc. apply list_elem_of_In in Hc.
  by apply (proj1 (forallb_forall _ _) Hp).
Qed.

Lemma enter_valid cur n : special n = false → enter cur n = cur ++ [n].
Proof.
  unfold special, enter. rewrite !orb_false_iff. by intros [[-> ->] ->].
Qed.

Lemma render_comps_app p q :
  render_comps (p ++ q) = render_comps p +:+ render_comps q.
Proof.
  induction p as [|c p IH]; simpl; [done|].
  by rewrite IH, append_assoc.
Qed.

Lemma render_snoc p c : render (p ++ [c]) = render_comps p +:+ "/" +:+ c.
Proof.
  transitivity (render_comps (p ++ [c])); [by destruct p|].
  rewrite render_comps_app. simpl. by rewrite append_nil_r.
Qed.

Lemma render_comps_has_nul p :
  forallb valid_name p = true → has_nul (render_comps p) = false.
Proof.
  induction p as [|c p IH]; [done|].
  simpl forallb. rewrite andb_true_iff. intros [Hc Hp].
  apply valid_name_inv in Hc as (_ & _ & Hn & _).
  simpl. by rewrite has_nul_app, Hn, IH.
Qed.

(** The components of a rendered position followed by a relative
    path. *)
Lemma split_render_comps p s :
  forallb valid_name p = true →
  split_sep (render_comps p +:+ String "/" s) = "" :: p ++ split_sep s.
Proof.
  induction p as [|c p IH]; [done|].
  simpl forallb. rewrite andb_true_iff. intros [Hc Hp].
  apply valid_name_inv in Hc as (_ & Hs & _ & _).
  specialize (IH Hp). simpl. rewrite append_assoc. f_equal.
  destruct p as [|d p]; simpl in *.
  - by rewrite split_sep_app_sep, split_sep_plain.
  - rewrite split_sep_app_sep, split_sep_plain by done.
    simpl. f_equal. by injection IH.
Qed.

Lemma endswith_sep_plain s : s ≠ "" → has_sep s = false → endswith_sep s = false.
Proof.
  induction s as [|x s IH]; [done|]. intros _. simpl.
  intros H. apply orb_false_iff in H as [Hx Hs].
  destruct s; [done|]. by apply IH.
Qed.

Lemma endswith_sep_render_comps p :
  p ≠ [] → forallb valid_name p = true → endswith_sep (render_comps p) = false.
Proof.
  intros Hne Hp. destruct (exists_last Hne) as (q & d & ->).
  rewrite forallb_app in Hp. apply andb_true_iff in Hp as [_ Hd].
  simpl in Hd. rewrite andb_true_r in Hd.
  apply valid_name_inv in Hd as (_ & Hs & _ & Hd).
  rewrite render_comps_app. simpl. rewrite append_nil_r.
  rewrite endswith_sep_app by done. simpl.
  destruct d; [done|]. by apply endswith_sep_plain.
Qed.

(** [os.path.join(os.getcwd(), "data")] names the data directory. *)
Lemma safe_dir_render p :
  forallb valid_name p = true →
  path_join (render p) "data" = render_comps (p ++ ["data"]).
Proof.
  intros Hp. unfold path_join. simpl startswith_sep. cbv iota.
  destruct p as [|c p]; [done|].
  change (render (c :: p)) with (render_comps (c :: p)).
  rewrite endswith_sep_render_comps by done.
  assert (String.eqb (render_comps (c :: p)) "" = false) as ->
    by by apply eqb_string_neq.
  by rewrite render_comps_app.
Qed.

Lemma join_beneath p s :
  p ≠ [] → forallb valid_name p = true → startswith_sep s = false →
  path_join (render_comps p) s = render_comps p +:+ String "/" s.
Proof.
  intros Hne Hp Hs. unfold path_join. rewrite Hs.
  rewrite endswith_sep_render_comps by done. rewrite orb_false_r.
  assert (String.eqb (render_comps p) "" = false) as ->; [|done].
  apply eqb_string_neq. by destruct p.
Qed.

(** ** Path resolution *)

Lemma app_snoc {A} (cur : list A) c comps :
  cur ++ c :: comps = (cur ++ [c]) ++ comps.
Proof. by rewrite <- (assoc_L (++)). Qed.

Lemma node_at_snoc fs cur c : node_at fs (cur ++ [c]) = fs !! (cur ++ [c]).
Proof. by destruct cur. Qed.

Lemma node_at_insert_ne fs k v q :
  q ≠ k → node_at (<[k:=v]> fs) q = node_at fs q.
Proof. intros Hq. destruct q; [done|]. simpl. by rewrite lookup_insert_ne. Qed.

Lemma node_at_insert_eq fs cur c v :
  node_at (<[cur ++ [c]:=v]> fs) (cur ++ [c]) = Some v.
Proof. rewrite node_at_snoc. apply lookup_insert_eq. Qed.

(** Adding an entry where there was none keeps every node in place. *)
Lemma node_at_insert_fresh fs k v q n :
  node_at fs k = None → node_at fs q = Some n → node_at (<[k:=v]> fs) q = Some n.
Proof.
  intros Hk Hq. rewrite node_at_insert_ne; [done|]. intros ->. congruence.
Qed.

Lemma walk_app fs cur a b :
  walk fs cur (a ++ b) = rbind (walk fs cur a) (λ p, walk fs p b).
Proof.
  revert cur. induction a as [|c a IH]; intros cur; simpl; [done|].
  destruct (node_at fs cur) as [[]|]; try done.
  by destruct (_ <? _)%Z.
Qed.

Lemma dirs_along_end fs cur comps :
  node_at fs cur = Some Dir → dirs_along fs cur comps = true →
  node_at fs (cur ++ comps) = Some Dir.
Proof.
  revert cur. induction comps as [|c comps IH]; intros cur Hcur; simpl.
  - by rewrite app_nil_r.
  - destruct (node_at fs (cur ++ [c])) as [[]|] eqn:E; try discriminate.
    intros H. rewrite (app_snoc cur c comps). by apply IH.
Qed.

Lemma dirs_along_app fs cur a b :
  dirs_along fs cur (a ++ b) = dirs_along fs cur a && dirs_along fs (cur ++ a) b.
Proof.
  revert cur. induction a as [|c a IH]; intros cur; simpl.
  - by rewrite app_nil_r.
  - destruct (node_at fs (cur ++ [c])) as [[]|]; try done.
    by rewrite IH, <- (app_snoc cur c a).
Qed.

(** Proper names leading through existing directories resolve to the
    position they spell. *)
Lemma walk_dirs fs cur comps :
  forallb valid_name comps = true →
  node_at fs cur = Some Dir →
  dirs_along fs cur comps = true →
  walk fs cur comps = Ok (cur ++ comps).
Proof.
  revert cur. induction comps as [|c comps IH]; intros cur Hv Hcur; simpl.
  - by rewrite app_nil_r.
  - simpl in Hv. apply andb_true_iff in Hv as [Hc Hv].
    rewrite Hcur, (valid_name_short _ Hc).
    apply valid_name_inv in Hc as (Hs & _). rewrite enter_valid by done.
    destruct (node_at fs (cur ++ [c])) as [[]|] eqn:E; try discriminate.
    intros H. rewrite (app_snoc cur c comps). by apply IH.
Qed.

(** A successful resolution only looks at directories. *)
Lemma walk_dirs_agree fs fs' cur comps r :
  (∀ q, node_at fs q = Some Dir → node_at fs' q = Some Dir) →
  walk fs cur comps = Ok r → walk fs' cur comps = Ok r.
Proof.
  intros Hsub. revert cur. induction comps as [|c comps IH]; intros cur; simpl; [done|].
  destruct (node_at fs cur) as [[]|] eqn:E; try discriminate.
  rewrite (Hsub _ E). destruct (_ <? _)%Z; [done|]. apply IH.
Qed.

(** ** Creating directories *)

Lemma makedirs_walk_preserves fs cur comps r fs1 q n :
  makedirs_walk fs cur comps = (r, fs1) →
  node_at fs q = Some n → node_at fs1 q = Some n.
Proof.
  revert fs cur. induction comps as [|c comps IH]; intros fs cur; simpl.
  - by intros [= _ <-].
  - destruct (special c); [apply IH|].
    destruct (_ <? _)%Z; [by intros [= _ <-]|].
    destruct (node_at fs (cur ++ [c])) as [[]|] eqn:E.
    + by intros [= _ <-].
    + apply IH.
    + intros H Hq. eapply IH; [exact H|]. by apply node_at_insert_fresh.
Qed.

(** Once the directories are there, making them again changes
    nothing, whatever else the tree has gained meanwhile. *)
Lemma makedirs_walk_idem fs cur comps fs1 fs' :
  makedirs_walk fs cur comps = (Ok tt, fs1) →
  (∀ q, node_at fs1 q = Some Dir → node_at fs' q = Some Dir) →
  makedirs_walk fs' cur comps = (Ok tt, fs').
Proof.
  intros H Hsub. revert fs cur H.
  induction comps as [|c comps IH]; intros fs cur; simpl; [done|].
  destruct (special c); [apply IH|].
  destruct (_ <? _)%Z; [discriminate|].
  destruct (node_at fs (cur ++ [c])) as [[]|] eqn:E.
  - discriminate.
  - intros H. rewrite (Hsub (cur ++ [c])); [by eapply IH|].
    by eapply makedirs_walk_preserves.
  - intros H. rewrite (Hsub (cur ++ [c])); [by eapply IH|].
    eapply makedirs_walk_preserves; [exact H|]. apply node_at_insert_eq.
Qed.

Lemma makedirs_walk_dirs fs cur a b :
  forallb valid_name a = true →
  dirs_along fs cur a = true →
  makedirs_walk fs cur (a ++ b) = makedirs_walk fs (cur ++ a) b.
Proof.
  revert cur. induction a as [|c a IH]; intros cur Hv; simpl.
  - by rewrite app_nil_r.
  - simpl in Hv. apply andb_true_iff in Hv as [Hc Hv].
    rewrite (valid_name_short _ Hc).
    apply valid_name_inv in Hc as (-> & _).
    destruct (node_at fs (cur ++ [c])) as [[]|] eqn:E; try discriminate.
    intros H. rewrite (app_snoc cur c a). by apply IH.
Qed.

(** ** The data directory *)

Section DataDirectory.
Variable w : world.
Hypothesis Hcwd : cwd_ok w = true.

Lemma cwd_valid : forallb valid_name (w_cwd w) = true.
Proof. unfold cwd_ok in Hcwd. by rewrite !andb_true_iff in Hcwd; destruct Hcwd as [[? _] _]. Qed.

Lemma cwd_dirs : dirs_along (w_fs w) [] (w_cwd w) = true.
Proof. unfold cwd_ok in Hcwd. by rewrite !andb_true_iff in Hcwd; destruct Hcwd as [[_ ?] _]. Qed.

Lemma cwd_is_dir : node_at (w_fs w) (w_cwd w) = Some Dir.
Proof. by apply (dirs_along_end _ [] _ eq_refl cwd_dirs). Qed.

Lemma data_dir_valid : forallb valid_name (data_dir w) = true.
Proof. unfold data_dir. by rewrite forallb_app, cwd_valid. Qed.

Lemma data_dir_nonempty : data_dir w ≠ [].
Proof. unfold data_dir. by destruct (w_cwd w). Qed.

Lemma safe_dir_eq :
  path_join (render (w_cwd w)) "data" = render_comps (data_dir w).
Proof. apply safe_dir_render, cwd_valid. Qed.

Lemma safe_dir_split :
  split_sep (render_comps (data_dir w)) = "" :: data_dir w.
Proof.
  unfold data_dir. rewrite render_comps_app. simpl.
  by rewrite split_render_comps by apply cwd_valid.
Qed.

Lemma safe_dir_fits : fits (render_comps (data_dir w)) = true.
Proof.
  rewrite <- safe_dir_eq. unfold cwd_ok in Hcwd.
  by rewrite !andb_true_iff in Hcwd; destruct Hcwd as [_ ?].
Qed.

Lemma safe_dir_has_nul : has_nul (render_comps (data_dir w)) = false.
Proof. apply render_comps_has_nul, data_dir_valid. Qed.

Lemma safe_dir_nonempty : render_comps (data_dir w) ≠ "".
Proof. unfold data_dir. by destruct (w_cwd w). Qed.

Lemma safe_dir_absolute : startswith_sep (render_comps (data_dir w)) = true.
Proof. unfold data_dir. by destruct (w_cwd w). Qed.

(** What [os.makedirs(safe_dir, exist_ok=True)] does. *)
Lemma makedirs_data :
  makedirs (w_cwd w) (w_fs w) (path_join (render (w_cwd w)) "data")
  = match node_at (w_fs w) (data_dir w) with
    | Some Dir => (Ok tt, w_fs w)
    | Some (File _) => (Raise FileExistsError, w_fs w)
    | None => (Ok tt, <[data_dir w := Dir]> (w_fs w))
    end.
Proof.
  rewrite safe_dir_eq. unfold makedirs, start_of.
  rewrite (path_arg_Ok _ safe_dir_has_nul safe_dir_nonempty safe_dir_fits).
  rewrite safe_dir_absolute, safe_dir_split.
  change (makedirs_walk (w_fs w) [] ("" :: data_dir w))
    with (makedirs_walk (w_fs w) [] (data_dir w)).
  unfold data_dir. rewrite makedirs_walk_dirs by (apply cwd_valid || apply cwd_dirs).
  simpl. by destruct (node_at (w_fs w) (w_cwd w ++ ["data"])) as [[]|].
Qed.

End DataDirectory.

(** ** Writing *)

Lemma dirs_kept_by_file fs p c q :
  node_at fs p ≠ Some Dir →
  node_at fs q = Some Dir → node_at (<[p:=File c]> fs) q = Some Dir.
Proof.
  intros Hp Hq. rewrite node_at_insert_ne; [done|]. intros ->. congruence.
Qed.

Lemma with_filename_Ok {A} path (r : result A) x :
  with_filename path r = Ok x ↔ r = Ok x.
Proof. destruct r as [a|[]]; simpl; split; by intros H. Qed.

Lemma trim_id l : last l ≠ Some "" → trim l = l.
Proof.
  induction l as [|c l IH]; [done|]. destruct l as [|c' l].
  - simpl. intros H. destruct (String.eqb c "") eqn:E; [|done].
    apply eqb_string_eq in E as ->. done.
  - intros H. change (trim (c :: c' :: l))
      with (match trim (c' :: l) with
            | [] => if String.eqb c "" then [] else [c]
            | t => c :: t
            end).
    by rewrite IH.
Qed.

Lemma last_split_sep s :
  s ≠ "" → endswith_sep s = false → last (split_sep s) ≠ Some "".
Proof.
  induction s as [|x s IH]; [done|]. intros _ He.
  assert (s ≠ "" → last (split_sep s) ≠ Some "") as IH'.
  { intros Hs. apply IH; [done|]. simpl in He. by destruct s. }
  simpl. pose proof (split_sep_nonempty s) as Hne.
  destruct (is_sep x) eqn:Ex.
  - destruct s as [|y s]; [simpl in He; congruence|].
    destruct (split_sep (String y s)) as [|h t] eqn:E; [done|].
    apply IH'. done.
  - destruct s as [|y s]; [done|].
    destruct (split_sep (String y s)) as [|h t] eqn:E; [done|].
    destruct t as [|h' t]; [done|]. by apply IH'.
Qed.

(** A successful [open_write] leaves an empty file at one position,
    which was not a directory before and to which the path resolves
    from then on; and it succeeds likewise, at the same position, in
    any tree that has the same directories and no directory at that
    position. *)
Lemma open_write_inv cwd fs path f fs2 :
  open_write cwd fs path = Ok (f, fs2) →
  (∃ d name, f = d ++ [name] ∧ node_at fs d = Some Dir)
  ∧ node_at fs f ≠ Some Dir
  ∧ fs2 = <[f := File ""]> fs
  ∧ fits path = true
  ∧ ∀ fs',
      (∀ q, node_at fs q = Some Dir → node_at fs' q = Some Dir) →
      resolve cwd fs' path = Ok f
      ∧ (node_at fs' f ≠ Some Dir →
         open_write cwd fs' path = Ok (f, <[f := File ""]> fs')).
Proof.
  unfold open_write, resolve.
  destruct (path_arg path) as [[]|] eqn:Ea; simpl; [|discriminate].
  apply path_arg_inv in Ea as (Hnul & Hne & Hfit).
  destruct (with_filename path _) as [d|] eqn:Ew; simpl; [|discriminate].
  apply with_filename_Ok in Ew.
  destruct (node_at fs d) as [[]|] eqn:Ed; try discriminate.
  destruct (last (trim (split_sep path))) as [name|] eqn:El; [|discriminate].
  destruct (special name) eqn:Es; [discriminate|].
  destruct (endswith_sep path) eqn:Ee; [discriminate|]. simpl.
  destruct (NAME_MAX <? fs_length name)%Z eqn:Elen; [discriminate|].
  rewrite (trim_id (split_sep path)) in * by by apply last_split_sep.
  assert (split_sep path = removelast (split_sep path) ++ [name]) as Hsplit.
  { destruct (exists_last (split_sep_nonempty path)) as (l' & x & E).
    rewrite E in *. rewrite last_snoc in El. injection El as ->.
    by rewrite removelast_last. }
  intros H.
  assert (f = d ++ [name] ∧ node_at fs (d ++ [name]) ≠ Some Dir
          ∧ fs2 = <[d ++ [name] := File ""]> fs) as (-> & Hn & ->)
    by (destruct (node_at fs (d ++ [name])) as [[]|]; by simplify_eq).
  split; [eauto|]. split; [done|]. split; [done|]. split; [done|].
  intros fs' Hsub. split.
  - rewrite Hsplit, walk_app, (walk_dirs_agree _ _ _ _ _ Hsub Ew). simpl.
    by rewrite (Hsub _ Ed), Elen, enter_valid.
  - intros Hn'. rewrite (walk_dirs_agree _ _ _ _ _ Hsub Ew). simpl.
    rewrite (Hsub _ Ed).
    by destruct (node_at fs' (d ++ [name])) as [[]|].
Qed.

Lemma makedirs_idem cwd fs path fs1 fs' :
  makedirs cwd fs path = (Ok tt, fs1) →
  (∀ q, node_at fs1 q = Some Dir → node_at fs' q = Some Dir) →
  makedirs cwd fs' path = (Ok tt, fs').
Proof.
  unfold makedirs. destruct (path_arg path); [|discriminate].
  apply makedirs_walk_idem.
Qed.

Lemma makedirs_preserves cwd fs path r fs1 q n :
  makedirs cwd fs path = (r, fs1) →
  node_at fs q = Some n → node_at fs1 q = Some n.
Proof.
  unfold makedirs. destruct (path_arg path); [|by intros [= _ <-]].
  apply makedirs_walk_preserves.
Qed.

(** The steps of [save_file]. *)
Lemma save_file_steps filename content w :
  save_file filename content w
  = match node_at (w_fs w) (w_cwd w) with
    | Some Dir =>
        match makedirs (w_cwd w) (w_fs w) (path_join (render (w_cwd w)) "data") with
        | (Ok _, fs1) =>
            match open_write (w_cwd w) fs1 (file_path w filename) with
            | Ok (f, fs2) =>
                match encode (w_locale w) content with
                | Some b =>
                    (Ok ("Content saved to " +:+ file_path w filename),
                     set_fs (<[f := File b]> fs2) w)
                | None => (Raise UnicodeEncodeError, set_fs fs2 w)
                end
            | Raise e => (Raise e, set_fs fs1 w)
            end
        | (Raise e, fs1) => (Raise e, set_fs fs1 w)
        end
    | _ => (Raise (FileNotFoundError ""), w)
    end.
Proof.
  unfold save_file, write_text, bind, os_getcwd, os_makedirs, os_open_w, file_write,
    ret, file_path. cbv beta.
  destruct (node_at (w_fs w) (w_cwd w)) as [[]|]; try done. simpl.
  destruct (makedirs _ _ _) as [[[]|e] fs1]; simpl; [|done].
  destruct (open_write _ _ _) as [[f fs2]|e]; simpl; [|done].
  by destruct (encode _ _).
Qed.

(** What a successful [save_file] has done. *)
Lemma save_file_Ok filename content w msg w1 :
  save_file filename content w = (Ok msg, w1) →
  ∃ fs1 f b,
    node_at (w_fs w) (w_cwd w) = Some Dir
    ∧ makedirs (w_cwd w) (w_fs w) (path_join (render (w_cwd w)) "data") = (Ok tt, fs1)
    ∧ open_write (w_cwd w) fs1 (file_path w filename) = Ok (f, <[f := File ""]> fs1)
    ∧ encode (w_locale w) content = Some b
    ∧ msg = "Content saved to " +:+ file_path w filename
    ∧ w1 = set_fs (<[f := File b]> fs1) w.
Proof.
  rewrite save_file_steps.
  destruct (node_at (w_fs w) (w_cwd w)) as [[]|] eqn:Ec; try discriminate.
  destruct (makedirs _ _ _) as [[[]|e] fs1] eqn:Em; [|discriminate].
  destruct (open_write _ _ _) as [[f fs2]|e] eqn:Eo; [|discriminate].
  destruct (encode _ _) as [b|] eqn:Ee; [|discriminate].
  intros [= <- <-]. exists fs1, f, b.
  pose proof (open_write_inv _ _ _ _ _ Eo) as (_ & _ & -> & _).
  by rewrite insert_insert_eq.
Qed.

(** C7, as amended. Whenever two successive calls of [save_file] with
    the same filename both succeed, they confirm the same path, which
    resolves to one regular file; after the first call that file holds
    the encoded first text, and the second call puts the encoded
    second text in its place and changes nothing else in the tree or
    in the rest of the process environment; when the two texts are the
    same, the second call changes nothing at all. *)
Theorem save_file_overwrites
    (w w1 w2 : world) (filename content1 content2 msg1 msg2 : string) :
  save_file filename content1 w = (Ok msg1, w1) →
  save_file filename content2 w1 = (Ok msg2, w2) →
  msg2 = msg1
  ∧ ∃ p b1 b2,
      resolve (w_cwd w1) (w_fs w1) (file_path w1 filename) = Ok p
      ∧ encode (w_locale w) content1 = Some b1
      ∧ encode (w_locale w) content2 = Some b2
      ∧ w_fs w1 !! p = Some (File b1)
      ∧ w2 = set_fs (<[p := File b2]> (w_fs w1)) w1
      ∧ w_fs w2 !! p = Some (File b2)
      ∧ (∀ q, q ≠ p → w_fs w2 !! q = w_fs w1 !! q)
      ∧ (content2 = content1 → w2 = w1).
Proof.
  intros H1 H2.
  apply save_file_Ok in H1 as (fs1 & f & b1 & Hc & Em & Eo & Ee1 & -> & ->).
  apply save_file_Ok in H2 as (fs1' & f' & b2 & _ & Em' & Eo' & Ee2 & -> & ->).
  change (w_cwd (set_fs ?a w)) with (w_cwd w) in *.
  change (w_fs (set_fs ?a w)) with a in *.
  change (w_locale (set_fs ?a w)) with (w_locale w) in *.
  change (file_path (set_fs ?a w) filename) with (file_path w filename) in *.
  change (set_fs ?a (set_fs ?b w)) with (set_fs a w).
  split; [done|].
  apply open_write_inv in Eo as ((d & name & -> & Hd) & Hn & _ & _ & Hagain).
  set (p := d ++ [name]) in *.
  set (fs2 := <[p := File b1]> fs1) in *.
  assert (∀ q, node_at fs1 q = Some Dir → node_at fs2 q = Some Dir) as Hsub
    by (intros q; by apply dirs_kept_by_file).
  destruct (Hagain fs2 Hsub) as [Hres Hwrite].
  assert (fs2 !! p = Some (File b1)) as Hp by apply lookup_insert_eq.
  rewrite (makedirs_idem _ _ _ _ _ Em Hsub) in Em'. injection Em' as <-.
  rewrite Hwrite in Eo' by (unfold p in *; rewrite node_at_snoc, Hp; congruence).
  injection Eo' as <-.
  exists p, b1, b2. repeat split; try done.
  - simpl. apply lookup_insert_eq.
  - intros q Hq. simpl. by rewrite lookup_insert_ne.
  - intros ->. rewrite Ee1 in Ee2. injection Ee2 as <-.
    by rewrite insert_id.
Qed.

(** ** Reading and listing *)

Lemma read_file_steps filename w :
  read_file filename w
  = (match node_at (w_fs w) (w_cwd w) with
     | Some Dir =>
         if path_exists (w_cwd w) (w_fs w) (file_path w filename)
         then rbind (open_read (w_cwd w) (w_fs w) (file_path w filename)) (λ b,
                match decode (w_locale w) b with
                | Some s => Ok (universal_newlines s)
                | None => Raise UnicodeDecodeError
                end)
         else Raise (FileNotFoundError ("File " +:+ filename +:+ " not found"))
     | _ => Raise (FileNotFoundError "")
     end, w).
Proof.
  unfold read_file, bind, os_getcwd, os_path_exists, read_text, raise, file_path.
  cbv beta. destruct (node_at (w_fs w) (w_cwd w)) as [[]|]; try done.
  simpl. by destruct (path_exists _ _ _).
Qed.

(** The loop of [list_files] keeps, in order, the items that are
    regular files, and touches nothing. *)
Lemma collect_files_filter target_dir items files w :
  collect_files target_dir items files w
  = (Ok (files ++ filter
           (λ item, path_isfile (w_cwd w) (w_fs w) (path_join target_dir item) = true)
           items), w).
Proof.
  revert files. induction items as [|item items IH]; intros files; simpl.
  - unfold ret. by rewrite app_nil_r.
  - unfold bind, os_path_isfile. rewrite IH, filter_cons.
    destruct (path_isfile _ _ _) eqn:E.
    + rewrite decide_True by done. by rewrite <- (assoc_L (++)).
    + by rewrite decide_False by done.
Qed.

Lemma list_files_steps directory w :
  let target_dir := list_files_target (render (w_cwd w)) (default "." directory) in
  list_files directory w
  = (match node_at (w_fs w) (w_cwd w) with
     | Some Dir =>
         if path_exists (w_cwd w) (w_fs w) target_dir
         then rbind (listdir (w_cwd w) (w_fs w) target_dir) (λ items,
                Ok (filter
                      (λ item, path_isfile (w_cwd w) (w_fs w)
                                 (path_join target_dir item) = true)
                      items))
         else Raise (FileNotFoundError
                       ("Directory " +:+ default "." directory +:+ " not found"))
     | _ => Raise (FileNotFoundError "")
     end, w).
Proof.
  unfold list_files, bind, os_getcwd, os_path_exists, os_listdir, raise. cbv beta.
  destruct (node_at (w_fs w) (w_cwd w)) as [[]|]; try done. simpl.
  destruct (path_exists _ _ _); simpl; [|done].
  destruct (listdir _ _ _) as [items|e]; simpl; [|done].
  by rewrite collect_files_filter.
Qed.

(** The entries of a directory are the names under which the tree has
    a node right below it, each listed once. *)
Lemma entries_spec fs d n : n ∈ entries fs d ↔ is_Some (fs !! (d ++ [n])).
Proof.
  unfold entries. rewrite list_elem_of_omap. split.
  - intros ([k v] & Hin & Hc). simpl in Hc. unfold child_of in Hc.
    destruct (last k) as [m|]; [|discriminate].
    destruct (decide (k = d ++ [m])) as [->|]; [|discriminate].
    injection Hc as ->. apply elem_of_map_to_list in Hin. eauto.
  - intros [v Hv]. exists (d ++ [n], v). split; [by apply elem_of_map_to_list|].
    simpl. unfold child_of. rewrite last_snoc. by rewrite decide_True.
Qed.

Lemma NoDup_omap_inj {A B} (f : A → option B) (l : list A) :
  (∀ x y z, x ∈ l → y ∈ l → f x = Some z → f y = Some z → x = y) →
  NoDup l → NoDup (omap f l).
Proof.
  induction l as [|a l IH]; intros Hinj Hnd; simpl; [constructor|].
  apply NoDup_cons in Hnd as [Ha Hnd].
  assert (NoDup (omap f l)) as Hrest.
  { apply IH; [|done]. intros x y z Hx Hy. apply Hinj; by apply elem_of_cons; right. }
  destruct (f a) as [b|] eqn:Ea; [|done].
  apply NoDup_cons. split; [|done].
  rewrite list_elem_of_omap. intros (x & Hx & Efx).
  assert (x = a) as ->; [|done].
  eapply Hinj; [by apply elem_of_cons; right|by apply elem_of_cons; left|done..].
Qed.

Lemma entries_NoDup fs d : NoDup (entries fs d).
Proof.
  unfold entries. apply NoDup_omap_inj; [|apply NoDup_map_to_list].
  intros [k1 v1] [k2 v2] n H1 H2. simpl. unfold child_of.
  destruct (last k1) as [m1|]; [|discriminate].
  destruct (decide (k1 = d ++ [m1])) as [->|]; [|discriminate]. intros [= ->].
  destruct (last k2) as [m2|]; [|discriminate].
  destruct (decide (k2 = d ++ [m2])) as [->|]; [|discriminate]. intros [= ->].
  apply elem_of_map_to_list in H1, H2. congruence.
Qed.

Lemma valid_fs_names fs k v :
  valid_fs fs = true → fs !! k = Some v → forallb valid_name k = true.
Proof.
  unfold valid_fs. intros Hv Hk.
  apply (proj1 (forallb_forall _ _) Hv (k, v)).
  by apply list_elem_of_In, elem_of_map_to_list.
Qed.

Lemma resolve_inv cwd fs path d :
  resolve cwd fs path = Ok d →
  has_nul path = false ∧ path ≠ "" ∧ fits path = true
  ∧ walk fs (start_of cwd path) (split_sep path) = Ok d.
Proof.
  unfold resolve. destruct (path_arg path) as [[]|] eqn:Ea; simpl; [|discriminate].
  apply path_arg_inv in Ea as (? & ? & ?). rewrite with_filename_Ok. done.
Qed.

Lemma resolve_intro cwd fs path d :
  has_nul path = false → path ≠ "" → fits path = true →
  walk fs (start_of cwd path) (split_sep path) = Ok d →
  resolve cwd fs path = Ok d.
Proof.
  unfold resolve. intros Hn Hne Hf Hw. rewrite (path_arg_Ok _ Hn Hne Hf). simpl.
  by rewrite Hw.
Qed.

(** A path beyond the length limit neither exists nor is a regular
    file, as far as [os.path] can tell. *)
Lemma stat_unfit cwd fs path : fits path = false → is_ok (stat cwd fs path) = false.
Proof.
  intros Hf. unfold stat, resolve, path_arg.
  destruct (has_nul path); [done|]. destruct (String.eqb path ""); [done|].
  unfold fits in Hf. by destruct (Z.leb_spec PATH_MAX (fs_length path)); [|lia].
Qed.

Lemma isfile_unfit cwd fs path : fits path = false → path_isfile cwd fs path = false.
Proof.
  intros Hf. unfold path_isfile. pose proof (stat_unfit cwd fs path Hf).
  by destruct (stat cwd fs path).
Qed.

Lemma valid_name_relative n : valid_name n = true → startswith_sep n = false.
Proof.
  intros Hn. apply valid_name_inv in Hn as (_ & Hs & _ & _).
  destruct n as [|x n]; [done|]. simpl in *. by apply orb_false_iff in Hs as [-> _].
Qed.

(** Joining the name of an entry to a path that resolves to a
    directory gives a path that resolves to the entry, if it is not
    too long. *)
Lemma resolve_join cwd fs path d n :
  resolve cwd fs path = Ok d →
  node_at fs d = Some Dir →
  valid_name n = true →
  fits (path_join path n) = true →
  resolve cwd fs (path_join path n) = Ok (d ++ [n]).
Proof.
  intros Hr Hd Hn. apply resolve_inv in Hr as (Hnul & Hne & _ & Hw).
  pose proof (valid_name_relative _ Hn) as Hrel.
  pose proof (valid_name_short _ Hn) as Hlen.
  apply valid_name_inv in Hn as (Hsp & Hsep & Hnn & Hnne).
  assert (walk fs d [n] = Ok (d ++ [n])) as Hstep
    by (simpl; by rewrite Hd, Hlen, enter_valid).
  unfold path_join. rewrite Hrel.
  assert (String.eqb path "" = false) as -> by by apply eqb_string_neq.
  simpl orb. destruct (endswith_sep path) eqn:Ee.
  - apply endswith_sep_inv in Ee as [t ->].
    rewrite append_assoc. simpl. intros Hfit.
    rewrite has_nul_app in Hnul. apply orb_false_iff in Hnul as [Ht _].
    apply resolve_intro; [| |done|].
    + by rewrite has_nul_app, Ht.
    + by destruct t.
    + rewrite split_sep_app_sep, (split_sep_plain n) by done.
      rewrite split_sep_app_sep in Hw. simpl in Hw.
      assert (start_of cwd (t +:+ String "/" n) = start_of cwd (t +:+ "/")) as ->
        by (unfold start_of; by destruct t).
      rewrite walk_app in *.
      destruct (walk fs (start_of cwd (t +:+ "/")) (split_sep t)) as [p|]; [|done].
      simpl in *. destruct (node_at fs p) as [[]|] eqn:Ep; try discriminate.
      injection Hw as <-. by rewrite Hlen, enter_valid.
  - change (path +:+ "/" +:+ n) with (path +:+ String "/" n). intros Hfit.
    apply resolve_intro; [| |done|].
    + rewrite has_nul_app, Hnul. simpl. by rewrite Hnn.
    + by destruct path.
    + rewrite split_sep_app_sep, (split_sep_plain n) by done.
      assert (start_of cwd (path +:+ String "/" n) = start_of cwd path) as ->
        by (unfold start_of; by destruct path).
      by rewrite walk_app, Hw.
Qed.

Lemma isfile_join cwd fs path d n :
  resolve cwd fs path = Ok d →
  node_at fs d = Some Dir →
  valid_name n = true →
  path_isfile cwd fs (path_join path n) = true
  ↔ (∃ content, fs !! (d ++ [n]) = Some (File content))
    ∧ fits (path_join path n) = true.
Proof.
  intros Hr Hd Hn. destruct (fits (path_join path n)) eqn:Hf.
  - unfold path_isfile, stat.
    rewrite (resolve_join _ _ _ _ _ Hr Hd Hn Hf). simpl. rewrite node_at_snoc.
    destruct (fs !! (d ++ [n])) as [[c|]|]; split; try done;
      try (by intros [[? [=]] _]). eauto.
  - rewrite (isfile_unfit _ _ _ Hf). split; [done|by intros [_ ?]].
Qed.

(** ** Effects on the directory tree *)

Lemma keeps_fs_ret {A} (a : A) : keeps_fs (ret a).
Proof. done. Qed.

Lemma keeps_fs_raise {A} e : keeps_fs (raise (A:=A) e).
Proof. done. Qed.

Lemma keeps_fs_lift {A} (r : result A) : keeps_fs (lift r).
Proof. done. Qed.

Lemma keeps_fs_send rq : keeps_fs (send rq).
Proof. done. Qed.

Lemma keeps_fs_bind {A B} (c : M A) (k : A → M B) :
  keeps_fs c → (∀ a, keeps_fs (k a)) → keeps_fs (bind c k).
Proof.
  intros Hc Hk w. unfold bind. specialize (Hc w).
  destruct (c w) as [[a|e] w']; simpl in *; [|done].
  by rewrite Hk.
Qed.

Lemma keeps_fs_raise_for_status r : keeps_fs (raise_for_status r).
Proof. unfold raise_for_status. by destruct (is_success _). Qed.

Lemma keeps_fs_response_json r : keeps_fs (response_json r).
Proof. unfold response_json. by destruct (rs_payload r). Qed.

(** Past its credential test, an integration tool sends one request
    and then only computes. *)
Ltac frame :=
  repeat first
    [ apply keeps_fs_bind; [|intros ?]
    | apply keeps_fs_send
    | apply keeps_fs_raise_for_status
    | apply keeps_fs_response_json
    | apply keeps_fs_lift
    | apply keeps_fs_ret
    | apply keeps_fs_raise ].

Lemma get_notion_notes_keeps_fs cfg max_results :
  keeps_fs (get_notion_notes cfg max_results).
Proof. unfold get_notion_notes. destruct (_ || _); frame. Qed.

Lemma create_notion_note_keeps_fs cfg title content :
  keeps_fs (create_notion_note cfg title content).
Proof. unfold create_notion_note. destruct (_ || _); frame. Qed.

Lemma get_github_issues_keeps_fs cfg owner repo state max_results :
  keeps_fs (get_github_issues cfg owner repo state max_results).
Proof. unfold get_github_issues. destruct (negb _); frame. Qed.

Lemma create_github_issue_keeps_fs cfg show owner repo title body :
  keeps_fs (create_github_issue cfg show owner repo title body).
Proof. unfold create_github_issue. destruct (negb _); frame. Qed.

Lemma get_weather_keeps_fs cfg city country_code :
  keeps_fs (get_weather cfg city country_code).
Proof. unfold get_weather. destruct (negb _); frame. Qed.

(** Whatever [save_file] does after [os.makedirs], a directory stays a
    directory. *)
Lemma save_file_keeps_dirs filename content w q :
  node_at (w_fs w) q = Some Dir →
  node_at (w_fs (save_file filename content w).2) q = Some Dir.
Proof.
  intros Hd. rewrite save_file_steps.
  destruct (node_at (w_fs w) (w_cwd w)) as [[]|]; try done.
  destruct (makedirs _ _ _) as [r fs1] eqn:Em.
  pose proof (makedirs_preserves _ _ _ _ _ _ _ Em Hd) as Hd1.
  destruct r as [[]|e]; [|done].
  destruct (open_write _ _ _) as [[f fs2]|e] eqn:Eo; [|done].
  apply open_write_inv in Eo as (_ & Hn & -> & _).
  assert (node_at (<[f := File ""]> fs1) q = Some Dir) as Hd2
    by by apply dirs_kept_by_file.
  destruct (encode _ _) as [b|]; [|done]. simpl.
  rewrite insert_insert_eq. by apply dirs_kept_by_file.
Qed.

Lemma save_file_makes_data_dir filename content w :
  cwd_ok w = true →
  node_at (w_fs w) (data_dir w) = None →
  node_at (w_fs (save_file filename content w).2) (data_dir w) = Some Dir.
Proof.
  intros Hcwd Hnone. rewrite save_file_steps, (cwd_is_dir w Hcwd).
  rewrite (makedirs_data w Hcwd), Hnone.
  assert (node_at (<[data_dir w := Dir]> (w_fs w)) (data_dir w) = Some Dir) as Hd
    by apply node_at_insert_eq.
  destruct (open_write _ _ _) as [[f fs2]|e] eqn:Eo; [|done].
  apply open_write_inv in Eo as (_ & Hn & -> & _).
  assert (node_at (<[f := File ""]> (<[data_dir w := Dir]> (w_fs w))) (data_dir w)
          = Some Dir) as Hd2 by by apply dirs_kept_by_file.
  destruct (encode _ _) as [b|]; [|done]. simpl.
  rewrite insert_insert_eq. by apply dirs_kept_by_file.
Qed.

(** C8. [read_file] and [list_files] return the process environment
    exactly as they found it, so they create nothing; the five
    integration tools and [get_server_info] leave the directory tree
    untouched; [save_file], called where the working directory exists
    (at a depth that leaves room for the path of [data]) and has no
    entry named [data], leaves a directory [data] there, whatever the
    filename and whether or not the write that follows succeeds. *)
Theorem only_save_file_creates_data_dir
    (cfg : Config) (w : world) (filename content : string) :
  (∀ name, (read_file name w).2 = w)
  ∧ (∀ directory, (list_files directory w).2 = w)
  ∧ (∀ max_results, w_fs (get_notion_notes cfg max_results w).2 = w_fs w)
  ∧ (∀ title text, w_fs (create_notion_note cfg title text w).2 = w_fs w)
  ∧ (∀ owner repo state max_results,
       w_fs (get_github_issues cfg owner repo state max_results w).2 = w_fs w)
  ∧ (∀ show owner repo title body,
       w_fs (create_github_issue cfg show owner repo title body w).2 = w_fs w)
  ∧ (∀ city country_code, w_fs (get_weather cfg city country_code w).2 = w_fs w)
  ∧ (∀ now, (get_server_info cfg now w).2 = w)
  ∧ (cwd_ok w = true →
     node_at (w_fs w) (data_dir w) = None →
     node_at (w_fs (save_file filename content w).2) (data_dir w) = Some Dir).
Proof.
  repeat split.
  - intros. by rewrite read_file_steps.
  - intros. by rewrite list_files_steps.
  - intros. apply get_notion_notes_keeps_fs.
  - intros. apply create_notion_note_keeps_fs.
  - intros. apply get_github_issues_keeps_fs.
  - intros. apply create_github_issue_keeps_fs.
  - intros. apply get_weather_keeps_fs.
  - by apply save_file_makes_data_dir.
Qed.

Lemma only_save_file_creates_witness :
  node_at (w_fs (save_file "test.txt" "Hello, World!" (fresh_world unreachable)).2)
    ["srv"; "data"] = Some Dir
  ∧ node_at (w_fs (read_file "test.txt" (fresh_world unreachable)).2)
      ["srv"; "data"] = None
  ∧ node_at (w_fs (list_files None (fresh_world unreachable)).2)
      ["srv"; "data"] = None.
Proof.
  destruct (only_save_file_creates_data_dir no_credentials (fresh_world unreachable)
              "test.txt" "Hello, World!")
    as (Hread & Hlist & _ & _ & _ & _ & _ & _ & Hsave).
  rewrite Hread, Hlist. split; [|done].
  exact (Hsave eq_refl eq_refl).
Defined.

(** ** Outcomes of reading and listing *)

Lemma stat_resolve cwd fs path n :
  stat cwd fs path = Ok n → ∃ d, resolve cwd fs path = Ok d ∧ node_at fs d = Some n.
Proof.
  unfold stat. destruct (resolve cwd fs path) as [d|]; simpl; [|discriminate].
  destruct (node_at fs d) as [m|] eqn:E; [|discriminate]. intros [= ->]. eauto.
Qed.

Lemma stat_intro cwd fs path d n :
  resolve cwd fs path = Ok d → node_at fs d = Some n → stat cwd fs path = Ok n.
Proof. unfold stat. intros -> Hn. simpl. by rewrite Hn. Qed.

(** C6, as amended. Where the working directory exists: [read_file]
    raises its not-found error exactly when [os.path.exists] denies
    the resolved path; when the path is a regular file it returns the
    text that the bytes of the file decode to, as text mode delivers
    it (line endings CR LF and CR read as LF), or raises
    [UnicodeDecodeError] when they decode to none; when the path is a
    directory it raises [IsADirectoryError]. [list_files] raises its
    not-found error exactly when [os.path.exists] denies the resolved
    directory; when the path is a regular file it raises
    [NotADirectoryError]; when it is a directory it returns, each
    once, the names of the regular files directly inside it whose own
    path is within the length limit, leaving out subdirectories and
    everything below them (in a tree whose entries bear proper names,
    as those of a real one do). *)
Theorem read_and_list_outcomes (w : world) (filename : string) (directory : option string) :
  node_at (w_fs w) (w_cwd w) = Some Dir →
  (((∃ msg, (read_file filename w).1 = Raise (FileNotFoundError msg))
    ↔ path_exists (w_cwd w) (w_fs w) (file_path w filename) = false)
   ∧ (∀ b,
        stat (w_cwd w) (w_fs w) (file_path w filename) = Ok (File b) →
        (∀ text, decode (w_locale w) b = Some text →
           (read_file filename w).1 = Ok (universal_newlines text))
        ∧ (decode (w_locale w) b = None →
           (read_file filename w).1 = Raise UnicodeDecodeError))
   ∧ (stat (w_cwd w) (w_fs w) (file_path w filename) = Ok Dir →
        (read_file filename w).1 = Raise IsADirectoryError))
  ∧ (((∃ msg, (list_files directory w).1 = Raise (FileNotFoundError msg))
      ↔ path_exists (w_cwd w) (w_fs w)
          (list_files_target (render (w_cwd w)) (default "." directory)) = false)
     ∧ (∀ b,
          stat (w_cwd w) (w_fs w)
            (list_files_target (render (w_cwd w)) (default "." directory))
          = Ok (File b) →
          (list_files directory w).1 = Raise NotADirectoryError)
     ∧ (∀ d,
          valid_fs (w_fs w) = true →
          resolve (w_cwd w) (w_fs w)
            (list_files_target (render (w_cwd w)) (default "." directory)) = Ok d →
          node_at (w_fs w) d = Some Dir →
          ∃ names,
            (list_files directory w).1 = Ok names
            ∧ NoDup names
            ∧ ∀ n, n ∈ names
                   ↔ (∃ b, w_fs w !! (d ++ [n]) = Some (File b))
                     ∧ fits (path_join
                               (list_files_target (render (w_cwd w))
                                  (default "." directory)) n) = true)).
Proof.
  intros Hc. split.
  - rewrite read_file_steps, Hc. unfold path_exists, open_read. simpl.
    destruct (stat _ _ _) as [[c|]|e]; simpl.
    + split; [|split]; [|intros b [= <-]; split; [by intros text ->|by intros ->]|done].
      split; [|done]. destruct (decode _ c); by intros [? [=]].
    + split; [|split]; [|done..]. split; [by intros [? [=]]|done].
    + split; [|split]; [|done..]. split; [done|eauto].
  - rewrite list_files_steps, Hc. cbv zeta.
    set (target := list_files_target _ _).
    unfold path_exists, listdir. simpl. repeat split.
    + destruct (stat _ _ target) as [[c|]|e] eqn:Es; simpl; try by intros [? [=]].
      apply stat_resolve in Es as (d & -> & _). by intros [? [=]].
    + destruct (stat _ _ target) as [[c|]|e]; simpl; try done. eauto.
    + by intros content ->.
    + intros d Hv Hr Hd. rewrite (stat_intro _ _ _ _ _ Hr Hd), Hr. simpl.
      eexists. split; [done|]. split; [apply NoDup_filter, entries_NoDup|].
      assert (∀ n v, w_fs w !! (d ++ [n]) = Some v → valid_name n = true) as Hname.
      { intros n v Hn. pose proof (valid_fs_names _ _ _ Hv Hn) as Hk.
        rewrite forallb_app in Hk. apply andb_true_iff in Hk as [_ Hk].
        simpl in Hk. by rewrite andb_true_r in Hk. }
      intros n. rewrite list_elem_of_filter, entries_spec. split.
      * intros [Hf [v Hn]].
        apply (isfile_join _ _ _ _ _ Hr Hd); [by eapply Hname|done].
      * intros [[c Hc'] Hf]. split; [|eauto].
        apply (isfile_join _ _ _ _ _ Hr Hd); [by eapply Hname|eauto].
Qed.

(** ** Saving, then reading and listing *)

Lemma dirs_along_agree fs fs' cur comps :
  (∀ q, node_at fs q = Some Dir → node_at fs' q = Some Dir) →
  dirs_along fs cur comps = true → dirs_along fs' cur comps = true.
Proof.
  intros Hsub. revert cur. induction comps as [|c comps IH]; intros cur; simpl; [done|].
  destruct (node_at fs (cur ++ [c])) as [[]|] eqn:E; try discriminate.
  rewrite (Hsub _ E). apply IH.
Qed.

Lemma ascii_codec_lossless : lossless ascii_codec.
Proof.
  intros text b. simpl. destruct (is_ascii text) eqn:E; [|discriminate].
  intros [= <-]. by rewrite E.
Qed.

(** After a successful [os.makedirs] the data directory is there, and
    nothing else has changed. *)
Lemma makedirs_data_Ok w fs1 :
  cwd_ok w = true →
  makedirs (w_cwd w) (w_fs w) (path_join (render (w_cwd w)) "data") = (Ok tt, fs1) →
  dirs_along fs1 [] (data_dir w) = true
  ∧ (∀ b, node_at (w_fs w) (data_dir w) ≠ Some (File b))
  ∧ (∀ q, q ≠ data_dir w → node_at fs1 q = node_at (w_fs w) q)
  ∧ (∀ q n, node_at (w_fs w) q = Some n → node_at fs1 q = Some n).
Proof.
  intros Hcwd. rewrite (makedirs_data w Hcwd).
  destruct (node_at (w_fs w) (data_dir w)) as [[text|]|] eqn:Ed; [discriminate|..];
    intros [= <-]; (split; [|split; [done|split]]).
  - unfold data_dir in *. rewrite dirs_along_app, (cwd_dirs w Hcwd). simpl.
    by rewrite Ed.
  - done.
  - done.
  - unfold data_dir in *. rewrite dirs_along_app. apply andb_true_iff. split.
    + eapply dirs_along_agree; [|by apply cwd_dirs].
      intros q. by apply node_at_insert_fresh.
    + simpl. by rewrite node_at_insert_eq.
  - intros q Hq. by apply node_at_insert_ne.
  - intros q n. by apply node_at_insert_fresh.
Qed.

Section InDataDirectory.
Variable w : world.
Variable fs : gmap (list string) node.
Hypothesis Hcwd : cwd_ok w = true.
Hypothesis Hdirs : dirs_along fs [] (data_dir w) = true.

Lemma data_is_dir : node_at fs (data_dir w) = Some Dir.
Proof. by apply (dirs_along_end _ [] _ eq_refl Hdirs). Qed.

Lemma walk_data : walk fs [] (data_dir w) = Ok (data_dir w).
Proof. apply (walk_dirs fs []); [by apply data_dir_valid|done|done]. Qed.

Lemma resolve_data : resolve (w_cwd w) fs (render_comps (data_dir w)) = Ok (data_dir w).
Proof.
  apply resolve_intro.
  - by apply safe_dir_has_nul.
  - apply safe_dir_nonempty.
  - by apply safe_dir_fits.
  - unfold start_of. rewrite safe_dir_absolute, safe_dir_split by done.
    change (walk fs [] ("" :: data_dir w)) with (walk fs [] (data_dir w)).
    apply walk_data.
Qed.

Lemma file_path_beneath filename :
  startswith_sep filename = false →
  file_path w filename = render_comps (data_dir w) +:+ String "/" filename.
Proof.
  intros Hrel. unfold file_path. rewrite safe_dir_eq by done.
  apply join_beneath; [apply data_dir_nonempty|by apply data_dir_valid|done].
Qed.

Lemma resolve_file_path filename :
  valid_name filename = true →
  fits (file_path w filename) = true →
  resolve (w_cwd w) fs (file_path w filename) = Ok (data_dir w ++ [filename]).
Proof.
  intros Hn. unfold file_path. rewrite safe_dir_eq by done.
  apply resolve_join; [apply resolve_data|apply data_is_dir|done].
Qed.

(** The target of [list_files(".")] is the data directory, named with
    a separator at its end. *)
Lemma data_listing_target :
  list_files_target (render (w_cwd w)) "." = render_comps (data_dir w) +:+ "/".
Proof.
  unfold list_files_target. rewrite safe_dir_eq by done. simpl lstrip.
  apply join_beneath; [apply data_dir_nonempty|by apply data_dir_valid|done].
Qed.

Lemma resolve_data_listing :
  fits (render_comps (data_dir w) +:+ "/") = true →
  resolve (w_cwd w) fs (list_files_target (render (w_cwd w)) ".") = Ok (data_dir w).
Proof.
  intros Hfit. rewrite data_listing_target.
  apply resolve_intro.
  - rewrite has_nul_app, safe_dir_has_nul; done.
  - by destruct (render_comps (data_dir w)).
  - done.
  - unfold start_of.
    rewrite startswith_sep_app, safe_dir_absolute by by apply safe_dir_nonempty.
    rewrite split_render_comps by by apply data_dir_valid.
    change (walk fs [] ("" :: data_dir w ++ split_sep ""))
      with (walk fs [] (data_dir w ++ [""])).
    rewrite walk_app, walk_data. simpl. by rewrite data_is_dir.
Qed.

(** A path in the data directory is longer than the path of the
    directory with a separator. *)
Lemma data_listing_fits filename :
  startswith_sep filename = false →
  fits (file_path w filename) = true →
  fits (render_comps (data_dir w) +:+ "/") = true.
Proof.
  intros Hrel. rewrite file_path_beneath by done. unfold fits.
  change (render_comps (data_dir w) +:+ String "/" filename)
    with (render_comps (data_dir w) +:+ ("/" +:+ filename)).
  rewrite !fs_length_app. pose proof (fs_length_nonneg filename).
  change (fs_length "/") with 1%Z. lia.
Qed.

End InDataDirectory.

(** C3, as amended. Where the working directory exists and the
    encoding of the locale decodes what it has encoded: for every
    filename that is a proper name (not empty, not [.] or [..], free
    of separators and NUL, of at most [NAME_MAX] bytes) and every text
    free of carriage returns, whenever [save_file] succeeds, a
    following [read_file] of the same filename returns exactly that
    text, and the filename is among the names that
    [list_files(".")], or [list_files()], then returns. *)
Theorem save_then_read_and_list (w w1 : world) (filename content msg : string) :
  cwd_ok w = true →
  lossless (w_locale w) →
  valid_name filename = true →
  has_cr content = false →
  save_file filename content w = (Ok msg, w1) →
  (read_file filename w1).1 = Ok content
  ∧ (∃ names, (list_files (Some ".") w1).1 = Ok names ∧ filename ∈ names)
  ∧ list_files None w1 = list_files (Some ".") w1.
Proof.
  intros Hcwd Hcodec Hn Hcr Hsave.
  apply save_file_Ok in Hsave as (fs1 & f & b & Hc & Em & Eo & Ee & -> & ->).
  destruct (makedirs_data_Ok w fs1 Hcwd Em) as (Hdirs1 & _ & _ & Hkeep).
  apply open_write_inv in Eo as (_ & Hnd & _ & Hfit & Hagain).
  destruct (Hagain fs1 (λ q H, H)) as [Hres _].
  rewrite (resolve_file_path w fs1 Hcwd Hdirs1 filename Hn Hfit) in Hres.
  injection Hres as <-.
  set (p := data_dir w ++ [filename]) in *.
  set (fs2 := <[p := File b]> fs1).
  assert (dirs_along fs2 [] (data_dir w) = true) as Hdirs2.
  { eapply dirs_along_agree; [|exact Hdirs1]. intros q. by apply dirs_kept_by_file. }
  assert (fs2 !! p = Some (File b)) as Hp by apply lookup_insert_eq.
  assert (node_at fs2 (w_cwd w) = Some Dir) as Hc2
    by (apply dirs_kept_by_file; [done|by apply Hkeep]).
  pose proof (valid_name_relative _ Hn) as Hrel.
  pose proof (resolve_file_path w fs2 Hcwd Hdirs2 filename Hn Hfit) as Hr.
  repeat split.
  - rewrite read_file_steps.
    change (w_cwd (set_fs fs2 w)) with (w_cwd w).
    change (w_fs (set_fs fs2 w)) with fs2.
    change (w_locale (set_fs fs2 w)) with (w_locale w).
    change (file_path (set_fs fs2 w) filename) with (file_path w filename).
    rewrite Hc2.
    assert (stat (w_cwd w) fs2 (file_path w filename) = Ok (File b)) as Hs.
    { eapply stat_intro; [exact Hr|]. unfold p in Hp. by rewrite node_at_snoc. }
    unfold path_exists, open_read. rewrite Hs. simpl.
    by rewrite (Hcodec _ _ Ee), universal_newlines_id.
  - rewrite list_files_steps. cbv zeta.
    change (w_cwd (set_fs fs2 w)) with (w_cwd w).
    change (w_fs (set_fs fs2 w)) with fs2.
    change (default "." (Some ".")) with ".".
    rewrite Hc2.
    pose proof (resolve_data_listing w fs2 Hcwd Hdirs2
                  (data_listing_fits w Hcwd filename Hrel Hfit)) as Hrd.
    pose proof (data_is_dir w fs2 Hdirs2) as Hd.
    unfold path_exists, listdir.
    rewrite (stat_intro _ _ _ _ _ Hrd Hd), Hrd. simpl.
    eexists. split; [done|].
    apply list_elem_of_filter. split.
    + apply (isfile_join _ _ _ _ _ Hrd Hd Hn). split; [eauto|].
      rewrite (data_listing_target w Hcwd). unfold path_join. rewrite Hrel.
      rewrite (endswith_sep_app _ "/") by done.
      rewrite orb_true_r, append_assoc.
      change (render_comps (data_dir w) +:+ "/" +:+ filename)
        with (render_comps (data_dir w) +:+ String "/" filename).
      by rewrite <- (file_path_beneath w Hcwd filename Hrel).
    + apply entries_spec. eauto.
Qed.

Lemma save_then_read_and_list_witness :
  (read_file "test.txt"
     (save_file "test.txt" "Hello, World!" (fresh_world unreachable)).2).1
  = Ok "Hello, World!"
  ∧ (∃ names,
       (list_files (Some ".")
          (save_file "test.txt" "Hello, World!" (fresh_world unreachable)).2).1
       = Ok names
       ∧ "test.txt" ∈ names).
Proof.
  destruct (save_then_read_and_list (fresh_world unreachable)
              (save_file "test.txt" "Hello, World!" (fresh_world unreachable)).2
              "test.txt" "Hello, World!" "Content saved to /srv/data/test.txt"
              eq_refl ascii_codec_lossless eq_refl eq_refl eq_refl)
    as (Hread & Hlist & _).
  split; [exact Hread|exact Hlist].
Defined.

(** C3, as stated, fails for a filename with a directory part:
    [save_file] makes [data] only, so the write raises, nothing is
    stored, and neither [read_file] nor [list_files] finds the file. *)
Lemma save_in_missing_subdirectory :
  (read_file "reports/q1.txt"
     (save_file "reports/q1.txt" "Hello, World!" (fresh_world unreachable)).2).1
  ≠ Ok "Hello, World!"
  ∧ (save_file "reports/q1.txt" "Hello, World!" (fresh_world unreachable)).1
    = Raise (FileNotFoundError "/srv/data/reports/q1.txt")
  ∧ (read_file "reports/q1.txt"
       (save_file "reports/q1.txt" "Hello, World!" (fresh_world unreachable)).2).1
    = Raise (FileNotFoundError "File reports/q1.txt not found")
  ∧ (list_files (Some ".")
       (save_file "reports/q1.txt" "Hello, World!" (fresh_world unreachable)).2).1
    = Ok [].
Proof. split; [discriminate|]. by repeat split. Qed.

(** It fails also for a text with a carriage return, which text mode
    does not hand back. *)
Lemma carriage_return_not_read_back :
  (read_file "test.txt" (save_file "test.txt" crlf_text (fresh_world unreachable)).2).1
  = Ok ("one" +:+ String "010" "two")
  ∧ "one" +:+ String "010" "two" ≠ crlf_text.
Proof. split; [by vm_compute|discriminate]. Qed.

(** And for a file saved into an existing subdirectory, which the
    listing of [data] does not show. *)
Lemma saved_below_subdirectory_not_listed :
  (save_file "archive/new.txt" "Hello" stocked_world).1
  = Ok "Content saved to /srv/data/archive/new.txt"
  ∧ (list_files (Some ".") (save_file "archive/new.txt" "Hello" stocked_world).2).1
    = Ok ["notes.txt"].
Proof. by vm_compute. Qed.

Lemma save_file_overwrites_witness :
  ∃ p,
    w_fs (save_file "test.txt" "Hello, World!" (fresh_world unreachable)).2 !! p
    = Some (File "Hello, World!")
    ∧ w_fs (save_file "test.txt" "Goodbye"
              (save_file "test.txt" "Hello, World!" (fresh_world unreachable)).2).2 !! p
      = Some (File "Goodbye").
Proof.
  destruct (save_file_overwrites (fresh_world unreachable)
              (save_file "test.txt" "Hello, World!" (fresh_world unreachable)).2
              (save_file "test.txt" "Goodbye"
                 (save_file "test.txt" "Hello, World!" (fresh_world unreachable)).2).2
              "test.txt" "Hello, World!" "Goodbye"
              "Content saved to /srv/data/test.txt"
              "Content saved to /srv/data/test.txt" eq_refl eq_refl)
    as (_ & p & b1 & b2 & _ & E1 & E2 & H1 & _ & H2 & _).
  injection E1 as <-. injection E2 as <-.
  exists p. split; assumption.
Defined.

(** C7, as stated, fails for the empty filename: the resolved path is
    the data directory itself, every call raises, and no file is
    left. *)
Lemma save_file_empty_name_leaves_no_file :
  (save_file "" "Hello" (fresh_world unreachable)).1 = Raise IsADirectoryError
  ∧ (save_file "" "Hello" (save_file "" "Hello" (fresh_world unreachable)).2).1
    = Raise IsADirectoryError
  ∧ ∀ p content,
      w_fs (save_file "" "Hello"
              (save_file "" "Hello" (fresh_world unreachable)).2).2 !! p
      ≠ Some (File content).
Proof.
  repeat split; try by vm_compute.
  intros p content H. apply elem_of_map_to_list in H.
  vm_compute in H. repeat (apply elem_of_cons in H as [[=]|H]).
  by apply elem_of_nil in H.
Qed.

Lemma read_and_list_witness :
  (read_file "notes.txt" stocked_world).1 = Ok ("one" +:+ String "010" "two")
  ∧ ∃ names,
      (list_files (Some ".") stocked_world).1 = Ok names
      ∧ NoDup names
      ∧ ∀ n, n ∈ names
             ↔ (∃ b, w_fs stocked_world !! (["srv"; "data"] ++ [n]) = Some (File b))
               ∧ fits (path_join "/srv/data/" n) = true.
Proof.
  destruct (read_and_list_outcomes stocked_world "notes.txt" (Some ".") eq_refl)
    as ((_ & Hread & _) & (_ & _ & Hlist)).
  split.
  - exact (proj1 (Hread crlf_text eq_refl) crlf_text eq_refl).
  - exact (Hlist ["srv"; "data"] eq_refl eq_refl eq_refl).
Defined.

(** C6, as stated, fails where the resolved path exists but is of the
    other kind: a directory given to [read_file], a regular file given
    to [list_files]. Neither call returns a value, and neither error is
    the not-found one. *)
Lemma existing_path_of_the_other_kind :
  ¬ (path_exists (w_cwd stocked_world) (w_fs stocked_world)
       (file_path stocked_world "archive") = true →
     ∃ text, (read_file "archive" stocked_world).1 = Ok text)
  ∧ ¬ (path_exists (w_cwd stocked_world) (w_fs stocked_world)
         (list_files_target (render (w_cwd stocked_world)) "notes.txt") = true →
       ∃ names, (list_files (Some "notes.txt") stocked_world).1 = Ok names).
Proof.
  split; intros H; destruct (H eq_refl) as [x Hx]; vm_compute in Hx; discriminate.
Qed.

Lemma other_kind_errors :
  (read_file "archive" stocked_world).1 = Raise IsADirectoryError
  ∧ (list_files (Some "notes.txt") stocked_world).1 = Raise NotADirectoryError.
Proof. by vm_compute. Qed.
(** ** The target of a listing *)

(** What [directory.lstrip("./")] does to the target of [list_files]:
    every leading character that is a dot or a slash is removed (the
    dropped prefix consists of such characters only, and what remains
    does not begin with one), and the remainder is joined to the data
    directory, which the join never discards. An argument that begins
    with neither character is joined unchanged; an argument ["./"]
    followed by a remainder that begins with neither is joined as that
    remainder. *)
Lemma list_files_target_strips_dots_and_slashes (cwd directory : string) :
  list_files_target cwd directory
  = path_join (path_join cwd "data") (lstrip "./" directory)
  ∧ (∃ prefix, directory = prefix +:+ lstrip "./" directory
               ∧ all_in "./" prefix = true)
  ∧ head_in "./" (lstrip "./" directory) = false
  ∧ (list_files_target cwd directory
     = path_join cwd "data" +:+ lstrip "./" directory
     ∨ list_files_target cwd directory
       = path_join cwd "data" +:+ "/" +:+ lstrip "./" directory)
  ∧ (head_in "./" directory = false →
     list_files_target cwd directory = path_join (path_join cwd "data") directory)
  ∧ (∀ rest, directory = "./" +:+ rest → head_in "./" rest = false →
     list_files_target cwd directory = path_join (path_join cwd "data") rest).
Proof.
  repeat split.
  - apply lstrip_decompose.
  - apply lstrip_head.
  - unfold list_files_target, path_join.
    rewrite (head_in_sep _ (lstrip_head "./" directory)).
    destruct (_ || _); eauto.
  - intros H. unfold list_files_target. by rewrite lstrip_id.
  - intros rest -> H. unfold list_files_target. simpl. by rewrite lstrip_id.
Qed.

Example list_files_target_sample :
  list_files_target "/srv" "notes" = "/srv/data/notes"
  ∧ list_files_target "/srv" "./notes" = "/srv/data/notes"
  ∧ list_files_target "/srv" "../../etc" = "/srv/data/etc".
Proof. by repeat split. Qed.

(** The target is not the one the specification describes (a leading
    ["./"] removed, anything else joined unchanged). *)
Lemma list_files_target_not_prefix_removal :
  ¬ (∀ cwd directory,
       list_files_target cwd directory = list_files_target_spec cwd directory).
Proof. intros H. specialize (H "/srv" ".hidden"). vm_compute in H. discriminate. Qed.

(** C4. The code departs from the specification on an argument that
    begins with a dot but not with ["./"]. For [".hidden"] the
    specification gives the target [data/.hidden], the code
    [data/hidden]: in a data directory that holds the directory
    [.hidden] with one file, [list_files(".hidden")] raises its
    not-found error although the directory exists, can be listed by
    its path, and is the one [read_file] reads from under the same
    name. *)
Theorem list_files_misses_dotted_directory :
  list_files_target_spec "/srv" ".hidden" = "/srv/data/.hidden"
  ∧ list_files_target "/srv" ".hidden" = "/srv/data/hidden"
  ∧ stat (w_cwd stocked_world) (w_fs stocked_world) "/srv/data/.hidden" = Ok Dir
  ∧ listdir (w_cwd stocked_world) (w_fs stocked_world) "/srv/data/.hidden"
    = Ok ["secret.txt"]
  ∧ (list_files (Some ".hidden") stocked_world).1
    = Raise (FileNotFoundError "Directory .hidden not found")
  ∧ (read_file ".hidden/secret.txt" stocked_world).1 = Ok "secret".
Proof. by vm_compute. Qed.

(** ** Escaping the data directory *)

Lemma file_path_absolute w filename :
  startswith_sep filename = true → file_path w filename = filename.
Proof. unfold file_path, path_join. by intros ->. Qed.

(** C10. [save_file] hands its filename to the join and the open
    unchanged, and there are filenames, one with a parent-directory
    component and one absolute, for which the call succeeds and the
    text lands at a position that is not beneath the data directory. *)
Theorem save_file_escapes_data_dir :
  (∃ p,
     (save_file "../outside.txt" "x" (fresh_world unreachable)).1
     = Ok "Content saved to /srv/data/../outside.txt"
     ∧ w_fs (save_file "../outside.txt" "x" (fresh_world unreachable)).2 !! p
       = Some (File "x")
     ∧ w_fs (fresh_world unreachable) !! p = None
     ∧ ¬ beneath (data_dir (fresh_world unreachable)) p)
  ∧ (∃ p,
       (save_file "/outside.txt" "x" (fresh_world unreachable)).1
       = Ok "Content saved to /outside.txt"
       ∧ w_fs (save_file "/outside.txt" "x" (fresh_world unreachable)).2 !! p
         = Some (File "x")
       ∧ w_fs (fresh_world unreachable) !! p = None
       ∧ ¬ beneath (data_dir (fresh_world unreachable)) p).
Proof.
  split.
  - exists ["srv"; "outside.txt"]. repeat split; try by vm_compute.
    intros [k Hk]. discriminate.
  - exists ["outside.txt"]. repeat split; try by vm_compute.
    intros [k Hk]. discriminate.
Qed.


(** ** Configuration at start-up *)

(** X1. The start-up check reports exactly the variables whose value
    is missing, each once and among the four that [Config] reads; it
    reports nothing exactly when all four values are present. A
    variable reported for a configuration read from the environment is
    unset there or set to the empty string. *)
Theorem missing_vars_reports_missing (cfg : Config) :
  (∀ name,
     name ∈ missing_vars cfg
     ↔ (name = "NOTION_API_TOKEN" ∧ missing (notion_api_token cfg))
       ∨ (name = "NOTION_DATABASE_ID" ∧ missing (notion_database_id cfg))
       ∨ (name = "GITHUB_TOKEN" ∧ missing (github_token cfg))
       ∨ (name = "OPENWEATHER_API_KEY" ∧ missing (openweather_api_key cfg)))
  ∧ NoDup (missing_vars cfg)
  ∧ missing_vars cfg ⊆ config_variables
  ∧ (missing_vars cfg = []
     ↔ truthy (notion_api_token cfg) = true
       ∧ truthy (notion_database_id cfg) = true
       ∧ truthy (github_token cfg) = true
       ∧ truthy (openweather_api_key cfg) = true)
  ∧ (∀ environ name,
       name ∈ missing_vars (Config_init environ) →
       environ !! name = None ∨ environ !! name = Some "").
Proof.
  assert (∀ c name,
     name ∈ missing_vars c
     ↔ (name = "NOTION_API_TOKEN" ∧ missing (notion_api_token c))
       ∨ (name = "NOTION_DATABASE_ID" ∧ missing (notion_database_id c))
       ∨ (name = "GITHUB_TOKEN" ∧ missing (github_token c))
       ∨ (name = "OPENWEATHER_API_KEY" ∧ missing (openweather_api_key c))) as Hmem.
  { intros c name. unfold missing_vars, missing.
    destruct (truthy (notion_api_token c)), (truthy (notion_database_id c)),
      (truthy (github_token c)), (truthy (openweather_api_key c)); simpl;
      rewrite ?elem_of_cons, ?elem_of_nil; intuition congruence. }
  split; [apply Hmem|]. split; [|split; [|split]].
  - unfold missing_vars.
    destruct (truthy (notion_api_token cfg)), (truthy (notion_database_id cfg)),
      (truthy (github_token cfg)), (truthy (openweather_api_key cfg)); simpl;
      repeat (apply NoDup_cons; split;
              [rewrite ?elem_of_cons, ?elem_of_nil; intuition congruence|]);
      apply NoDup_nil_2.
  - intros name Hn. apply Hmem in Hn. unfold config_variables.
    rewrite !elem_of_cons. intuition congruence.
  - unfold missing_vars.
    destruct (truthy (notion_api_token cfg)), (truthy (notion_database_id cfg)),
      (truthy (github_token cfg)), (truthy (openweather_api_key cfg)); simpl;
      intuition congruence.
  - intros environ name Hn. apply Hmem in Hn. unfold missing, truthy in Hn. simpl in Hn.
    destruct Hn as [[-> H]|[[-> H]|[[-> H]|[-> H]]]];
      match goal with
      | |- ?m !! ?k = None ∨ _ => destruct (m !! k) as [s|]; [right|by left]
      end;
      apply negb_false_iff, String.eqb_eq in H; by subst.
Qed.

Lemma missing_vars_witness :
  "GITHUB_TOKEN" ∈ missing_vars (Config_init {[ "NOTION_API_TOKEN" := "secret" ]})
  ∧ ({[ "NOTION_API_TOKEN" := "secret" ]} : gmap string string) !! "GITHUB_TOKEN" = None.
Proof.
  destruct (missing_vars_reports_missing (Config_init {[ "NOTION_API_TOKEN" := "secret" ]}))
    as (Hmem & _ & _ & _ & Henv).
  assert ("GITHUB_TOKEN" ∈ missing_vars (Config_init {[ "NOTION_API_TOKEN" := "secret" ]}))
    as Hin by (apply Hmem; right; right; left; by split).
  split; [exact Hin|].
  by destruct (Henv _ _ Hin) as [H|H].
Defined.

(** ** One round trip per call *)

Lemma keeps_world_ret {A} (a : A) : keeps_world (ret a).
Proof. done. Qed.

Lemma keeps_world_raise {A} e : keeps_world (raise (A:=A) e).
Proof. done. Qed.

Lemma keeps_world_lift {A} (r : result A) : keeps_world (lift r).
Proof. done. Qed.

Lemma keeps_world_bind {A B} (c : M A) (k : A → M B) :
  keeps_world c → (∀ a, keeps_world (k a)) → keeps_world (bind c k).
Proof.
  intros Hc Hk w. unfold bind. specialize (Hc w).
  destruct (c w) as [[a|e] w']; simpl in *; subst; [apply Hk|done].
Qed.

Lemma keeps_world_raise_for_status r : keeps_world (raise_for_status r).
Proof. unfold raise_for_status. by destruct (is_success _). Qed.

Lemma keeps_world_response_json r : keeps_world (response_json r).
Proof. unfold response_json. by destruct (rs_payload r). Qed.

Ltac pure_tail :=
  repeat first
    [ apply keeps_world_bind; [|intros ?]
    | apply keeps_world_raise_for_status
    | apply keeps_world_response_json
    | apply keeps_world_lift
    | apply keeps_world_ret
    | apply keeps_world_raise ].

(** A request followed by computation that has no effect: the request
    is logged and nothing else changes; a transport failure is the
    outcome of the whole. *)
Lemma send_then {A} rq (k : response → M A) w :
  (∀ r, keeps_world (k r)) →
  (bind (send rq) k w).2 = log_call rq w
  ∧ (bind (send rq) k w).1
    = match w_remote w rq with
      | Ok r => (k r (log_call rq w)).1
      | Raise e => Raise e
      end.
Proof.
  intros Hk. unfold bind, send.
  destruct (w_remote w rq) as [r|e]; [|done].
  specialize (Hk r (log_call rq w)).
  by destruct (k r (log_call rq w)).
Qed.

(** What each integration tool returns once its credentials are
    present, as a function of what the network answers. *)
Lemma get_notion_notes_result cfg max_results w :
  truthy (notion_api_token cfg) = true →
  truthy (notion_database_id cfg) = true →
  (get_notion_notes cfg max_results w).2
  = log_call (notion_query_request cfg (default 10%Z max_results)) w
  ∧ (get_notion_notes cfg max_results w).1
    = match w_remote w (notion_query_request cfg (default 10%Z max_results)) with
      | Raise e => Raise e
      | Ok resp =>
          if is_success (rs_status resp) then
            match rs_payload resp with
            | NotText => Raise UnicodeDecodeError
            | NotJson => Raise JSONDecodeError
            | Json body =>
                rbind (dict_get body "results" (JArr [])) (λ results,
                rbind (py_iter results) (comprehension page_title))
            end
          else Raise (HTTPStatusError (rs_status resp))
      end.
Proof.
  intros Ht Hd. unfold get_notion_notes. rewrite Ht, Hd. cbn [negb orb].
  match goal with
  | |- context [bind (send ?rq) ?k] => destruct (send_then rq k w) as [H2 H1]
  end; [intros r; pure_tail|].
  rewrite H1, H2. split; [done|].
  destruct (w_remote w _) as [resp|e]; [|done]. run.
  destruct (is_success _); simpl; [|done].
  destruct (rs_payload resp) as [| |body]; simpl; [done|done|].
  destruct (dict_get _ _ _) as [results|]; simpl; [|done].
  by destruct (py_iter results).
Qed.

Lemma create_notion_note_result cfg title content w :
  truthy (notion_api_token cfg) = true →
  truthy (notion_database_id cfg) = true →
  (create_notion_note cfg title content w).2
  = log_call (notion_create_request cfg title content) w
  ∧ (create_notion_note cfg title content w).1
    = match w_remote w (notion_create_request cfg title content) with
      | Raise e => Raise e
      | Ok resp =>
          if is_success (rs_status resp) then Ok "Note created successfully!"
          else Raise (HTTPStatusError (rs_status resp))
      end.
Proof.
  intros Ht Hd. unfold create_notion_note. rewrite Ht, Hd. cbn [negb orb].
  match goal with
  | |- context [bind (send ?rq) ?k] => destruct (send_then rq k w) as [H2 H1]
  end; [intros r; pure_tail|].
  rewrite H1, H2. split; [done|].
  destruct (w_remote w _) as [resp|e]; [|done]. run.
  by destruct (is_success _).
Qed.

Lemma get_github_issues_result cfg owner repo state max_results w :
  truthy (github_token cfg) = true →
  (get_github_issues cfg owner repo state max_results w).2
  = log_call (github_issues_request cfg owner repo
                (default "open" state) (default 10%Z max_results)) w
  ∧ (get_github_issues cfg owner repo state max_results w).1
    = match w_remote w (github_issues_request cfg owner repo
                          (default "open" state) (default 10%Z max_results)) with
      | Raise e => Raise e
      | Ok resp =>
          if is_success (rs_status resp) then
            match rs_payload resp with
            | NotText => Raise UnicodeDecodeError
            | NotJson => Raise JSONDecodeError
            | Json issues => rbind (py_iter issues) (comprehension issue_entry)
            end
          else Raise (HTTPStatusError (rs_status resp))
      end.
Proof.
  intros Hk. unfold get_github_issues. rewrite Hk. cbn [negb orb].
  match goal with
  | |- context [bind (send ?rq) ?k] => destruct (send_then rq k w) as [H2 H1]
  end; [intros r; pure_tail|].
  rewrite H1, H2. split; [done|].
  destruct (w_remote w _) as [resp|e]; [|done]. run.
  destruct (is_success _); simpl; [|done].
  destruct (rs_payload resp) as [| |issues]; simpl; [done|done|].
  by destruct (py_iter issues).
Qed.

Lemma create_github_issue_result cfg show owner repo title body w :
  truthy (github_token cfg) = true →
  (create_github_issue cfg show owner repo title body w).2
  = log_call (github_create_request cfg owner repo title (default "" body)) w
  ∧ (create_github_issue cfg show owner repo title body w).1
    = match w_remote w (github_create_request cfg owner repo title (default "" body)) with
      | Raise e => Raise e
      | Ok resp =>
          if is_success (rs_status resp) then
            match rs_payload resp with
            | NotText => Raise UnicodeDecodeError
            | NotJson => Raise JSONDecodeError
            | Json data =>
                rbind (getitem_key data "number") (λ number,
                  Ok ("Issue created successfully! Issue #" +:+ show number))
            end
          else Raise (HTTPStatusError (rs_status resp))
      end.
Proof.
  intros Hk. unfold create_github_issue. rewrite Hk. cbn [negb orb].
  match goal with
  | |- context [bind (send ?rq) ?k] => destruct (send_then rq k w) as [H2 H1]
  end; [intros r; pure_tail|].
  rewrite H1, H2. split; [done|].
  destruct (w_remote w _) as [resp|e]; [|done]. run.
  destruct (is_success _); simpl; [|done].
  destruct (rs_payload resp) as [| |data]; simpl; [done|done|].
  by destruct (getitem_key data "number").
Qed.

Lemma get_weather_result cfg city country_code w :
  truthy (openweather_api_key cfg) = true →
  (get_weather cfg city country_code w).2
  = log_call (weather_request cfg city (default "US" country_code)) w
  ∧ (get_weather cfg city country_code w).1
    = match w_remote w (weather_request cfg city (default "US" country_code)) with
      | Raise e => Raise e
      | Ok resp =>
          if is_success (rs_status resp) then
            match rs_payload resp with
            | NotText => Raise UnicodeDecodeError
            | NotJson => Raise JSONDecodeError
            | Json data => weather_record data
            end
          else Raise (HTTPStatusError (rs_status resp))
      end.
Proof.
  intros Hk. unfold get_weather. rewrite Hk. cbn [negb orb].
  match goal with
  | |- context [bind (send ?rq) ?k] => destruct (send_then rq k w) as [H2 H1]
  end; [intros r; pure_tail|].
  rewrite H1, H2. split; [done|].
  destruct (w_remote w _) as [resp|e]; [|done]. run.
  destruct (is_success _); simpl; [|done].
  by destruct (rs_payload resp).
Qed.

(** X2. Once its credentials are present, each of the five integration
    tools logs exactly one request, the one built from its arguments
    and defaults, and changes nothing else in the process environment,
    whatever the network answers and whether the call then returns or
    raises. *)
Theorem configured_tool_sends_one_request (cfg : Config) (w : world) :
  (truthy (notion_api_token cfg) = true → truthy (notion_database_id cfg) = true →
     (∀ max_results,
        (get_notion_notes cfg max_results w).2
        = log_call (notion_query_request cfg (default 10%Z max_results)) w)
     ∧ (∀ title content,
        (create_notion_note cfg title content w).2
        = log_call (notion_create_request cfg title content) w))
  ∧ (truthy (github_token cfg) = true →
     (∀ owner repo state max_results,
        (get_github_issues cfg owner repo state max_results w).2
        = log_call (github_issues_request cfg owner repo
                      (default "open" state) (default 10%Z max_results)) w)
     ∧ (∀ show owner repo title body,
        (create_github_issue cfg show owner repo title body w).2
        = log_call (github_create_request cfg owner repo title (default "" body)) w))
  ∧ (truthy (openweather_api_key cfg) = true →
     ∀ city country_code,
       (get_weather cfg city country_code w).2
       = log_call (weather_request cfg city (default "US" country_code)) w)
  ∧ (∀ rq,
       w_calls (log_call rq w) = w_calls w ++ [rq]
       ∧ w_fs (log_call rq w) = w_fs w
       ∧ w_cwd (log_call rq w) = w_cwd w
       ∧ w_remote (log_call rq w) = w_remote w).
Proof.
  split; [|split; [|split]].
  - intros Ht Hd. split; intros.
    + by apply get_notion_notes_result.
    + by apply create_notion_note_result.
  - intros Hk. split; intros.
    + by apply get_github_issues_result.
    + by apply create_github_issue_result.
  - intros Hk city country_code. by apply get_weather_result.
  - done.
Qed.

Lemma one_request_witness :
  w_calls (get_weather all_credentials "Paris" (Some "FR") (fresh_world unreachable)).2
  = [weather_request all_credentials "Paris" "FR"]
  ∧ w_calls (create_notion_note all_credentials "Title" "Text"
               (fresh_world (answering_status 503))).2
    = [notion_create_request all_credentials "Title" "Text"].
Proof.
  destruct (configured_tool_sends_one_request all_credentials (fresh_world unreachable))
    as (_ & _ & Hw & _).
  destruct (configured_tool_sends_one_request all_credentials
              (fresh_world (answering_status 503)))
    as (Hn & _ & _ & _).
  destruct (Hn eq_refl eq_refl) as [_ Hc].
  by rewrite (Hw eq_refl), Hc.
Defined.

(** X3. Once its credentials are present, each integration tool passes
    an upstream failure on as it is: a transport failure of the
    request raises that same exception, and an answer whose status is
    outside 2xx raises the status error carrying that status. Nothing
    is retried and no value is returned. *)
Theorem upstream_failure_propagates (cfg : Config) (w : world) :
  (truthy (notion_api_token cfg) = true → truthy (notion_database_id cfg) = true →
     (∀ max_results,
        propagates_failure w (notion_query_request cfg (default 10%Z max_results))
          (get_notion_notes cfg max_results w).1)
     ∧ (∀ title content,
        propagates_failure w (notion_create_request cfg title content)
          (create_notion_note cfg title content w).1))
  ∧ (truthy (github_token cfg) = true →
     (∀ owner repo state max_results,
        propagates_failure w
          (github_issues_request cfg owner repo
             (default "open" state) (default 10%Z max_results))
          (get_github_issues cfg owner repo state max_results w).1)
     ∧ (∀ show owner repo title body,
        propagates_failure w
          (github_create_request cfg owner repo title (default "" body))
          (create_github_issue cfg show owner repo title body w).1))
  ∧ (truthy (openweather_api_key cfg) = true →
     ∀ city country_code,
       propagates_failure w (weather_request cfg city (default "US" country_code))
         (get_weather cfg city country_code w).1).
Proof.
  unfold propagates_failure. split; [|split].
  - intros Ht Hd. split; intros.
    + rewrite (proj2 (get_notion_notes_result cfg max_results w Ht Hd)).
      split; [by intros e ->|by intros resp -> ->].
    + rewrite (proj2 (create_notion_note_result cfg title content w Ht Hd)).
      split; [by intros e ->|by intros resp -> ->].
  - intros Hk. split; intros.
    + rewrite (proj2 (get_github_issues_result cfg owner repo state max_results w Hk)).
      split; [by intros e ->|by intros resp -> ->].
    + rewrite (proj2 (create_github_issue_result cfg show owner repo title body w Hk)).
      split; [by intros e ->|by intros resp -> ->].
  - intros Hk city country_code.
    rewrite (proj2 (get_weather_result cfg city country_code w Hk)).
    split; [by intros e ->|by intros resp -> ->].
Qed.

Lemma upstream_failure_witness :
  (get_github_issues all_credentials "owner" "repo" None None
     (fresh_world (answering_status 503))).1
  = Raise (HTTPStatusError 503)
  ∧ (get_weather all_credentials "Paris" None (fresh_world unreachable)).1
    = Raise (TransportError "connection refused").
Proof.
  destruct (upstream_failure_propagates all_credentials (fresh_world (answering_status 503)))
    as (_ & Hg & _).
  destruct (upstream_failure_propagates all_credentials (fresh_world unreachable))
    as (_ & _ & Hw).
  split.
  - destruct (Hg eq_refl) as [Hi _].
    exact (proj2 (Hi "owner" "repo" None None)
             {| rs_status := 503; rs_payload := NotJson |} eq_refl eq_refl).
  - exact (proj1 (Hw eq_refl "Paris" None) _ eq_refl).
Defined.

(** X4. The four tools that read the answer ([get_notion_notes],
    [get_github_issues], [create_github_issue], [get_weather]) raise
    a decoding error when a success answer carries a body that is not
    JSON: [UnicodeDecodeError] when its bytes are not text,
    [JSONDecodeError] when its text is not JSON. [create_notion_note]
    never reads the body: for every answer with a 2xx status it
    returns its fixed confirmation. *)
Theorem undecodable_body_outcomes (cfg : Config) (w : world) :
  (truthy (notion_api_token cfg) = true → truthy (notion_database_id cfg) = true →
     (∀ max_results,
        rejects_undecodable w (notion_query_request cfg (default 10%Z max_results))
          (get_notion_notes cfg max_results w).1)
     ∧ (∀ title content resp,
        w_remote w (notion_create_request cfg title content) = Ok resp →
        is_success (rs_status resp) = true →
        (create_notion_note cfg title content w).1 = Ok "Note created successfully!"))
  ∧ (truthy (github_token cfg) = true →
     (∀ owner repo state max_results,
        rejects_undecodable w
          (github_issues_request cfg owner repo
             (default "open" state) (default 10%Z max_results))
          (get_github_issues cfg owner repo state max_results w).1)
     ∧ (∀ show owner repo title body,
        rejects_undecodable w
          (github_create_request cfg owner repo title (default "" body))
          (create_github_issue cfg show owner repo title body w).1))
  ∧ (truthy (openweather_api_key cfg) = true →
     ∀ city country_code,
       rejects_undecodable w (weather_request cfg city (default "US" country_code))
         (get_weather cfg city country_code w).1).
Proof.
  unfold rejects_undecodable. split; [|split].
  - intros Ht Hd. split.
    + intros max_results resp Hr Hs.
      rewrite (proj2 (get_notion_notes_result cfg max_results w Ht Hd)).
      rewrite Hr, Hs. split; by intros ->.
    + intros title content resp Hr Hs.
      rewrite (proj2 (create_notion_note_result cfg title content w Ht Hd)).
      by rewrite Hr, Hs.
  - intros Hk. split.
    + intros owner repo state max_results resp Hr Hs.
      rewrite (proj2 (get_github_issues_result cfg owner repo state max_results w Hk)).
      rewrite Hr, Hs. split; by intros ->.
    + intros show owner repo title body resp Hr Hs.
      rewrite (proj2 (create_github_issue_result cfg show owner repo title body w Hk)).
      rewrite Hr, Hs. split; by intros ->.
  - intros Hk city country_code resp Hr Hs.
    rewrite (proj2 (get_weather_result cfg city country_code w Hk)).
    rewrite Hr, Hs. split; by intros ->.
Qed.

Lemma undecodable_body_witness :
  (get_weather all_credentials "Paris" None (fresh_world (answering_status 200))).1
  = Raise JSONDecodeError
  ∧ (get_weather all_credentials "Paris" None (fresh_world garbled)).1
    = Raise UnicodeDecodeError
  ∧ (create_notion_note all_credentials "Title" "Text"
       (fresh_world (answering_status 204))).1
    = Ok "Note created successfully!".
Proof.
  destruct (undecodable_body_outcomes all_credentials (fresh_world (answering_status 200)))
    as (_ & _ & Hw).
  destruct (undecodable_body_outcomes all_credentials (fresh_world garbled))
    as (_ & _ & Hg).
  destruct (undecodable_body_outcomes all_credentials (fresh_world (answering_status 204)))
    as (Hn & _ & _).
  split; [|split].
  - exact (proj2 (Hw eq_refl "Paris" None {| rs_status := 200; rs_payload := NotJson |}
                    eq_refl eq_refl) eq_refl).
  - exact (proj1 (Hg eq_refl "Paris" None {| rs_status := 200; rs_payload := NotText |}
                    eq_refl eq_refl) eq_refl).
  - destruct (Hn eq_refl eq_refl) as [_ Hc].
    exact (Hc "Title" "Text" {| rs_status := 204; rs_payload := NotJson |} eq_refl eq_refl).
Defined.

(** X5. [create_github_issue], answered with a success status and a
    JSON body: an object with a ["number"] entry gives the
    confirmation that ends with the rendering of that number; an
    object without one raises [KeyError]; a body that is not an object
    raises [TypeError]. An omitted issue body is sent as the empty
    string. *)
Theorem create_github_issue_outcomes
    (cfg : Config) (w : world) (show : json → string)
    (owner repo title : string) (body : option string)
    (resp : response) (data : json) :
  truthy (github_token cfg) = true →
  w_remote w (github_create_request cfg owner repo title (default "" body)) = Ok resp →
  is_success (rs_status resp) = true →
  rs_body resp = Some data →
  (∀ m number, data = JObj m → m !! "number" = Some number →
     (create_github_issue cfg show owner repo title body w).1
     = Ok ("Issue created successfully! Issue #" +:+ show number))
  ∧ (∀ m, data = JObj m → m !! "number" = None →
       (create_github_issue cfg show owner repo title body w).1
       = Raise (KeyError (JStr "number")))
  ∧ ((∀ m, data ≠ JObj m) →
       (create_github_issue cfg show owner repo title body w).1 = Raise TypeError)
  ∧ rq_json (github_create_request cfg owner repo title (default "" None))
    = Some (JObj {[ "title" := JStr title; "body" := JStr "" ]}).
Proof.
  intros Hk Hr Hs Hb%rs_body_Some.
  rewrite (proj2 (create_github_issue_result cfg show owner repo title body w Hk)).
  rewrite Hr, Hs, Hb. repeat split.
  - intros m number -> Hn. simpl. by rewrite Hn.
  - intros m -> Hn. simpl. by rewrite Hn.
  - intros Hno. destruct data; try done. by destruct (Hno m).
Qed.

Lemma create_github_issue_witness :
  (create_github_issue all_credentials show_sample "owner" "repo" "Test Issue" None
     (fresh_world (answering (JObj {[ "number" := JInt 123 ]})))).1
  = Ok "Issue created successfully! Issue #123".
Proof.
  exact (proj1 (create_github_issue_outcomes all_credentials
                  (fresh_world (answering (JObj {[ "number" := JInt 123 ]})))
                  show_sample "owner" "repo" "Test Issue" None
                  {| rs_status := 200; rs_payload := Json (JObj {[ "number" := JInt 123 ]}) |}
                  (JObj {[ "number" := JInt 123 ]})
                  eq_refl eq_refl eq_refl eq_refl)
           {[ "number" := JInt 123 ]} (JInt 123) eq_refl eq_refl).
Defined.

(** ** Shapes of the answers *)

Lemma rbind_Ok {A B} (r : result A) (k : A → result B) y :
  rbind r k = Ok y ↔ ∃ x, r = Ok x ∧ k x = Ok y.
Proof.
  destruct r as [x|e]; simpl.
  - split; [eauto|]. by intros (x' & [= <-] & ?).
  - split; [discriminate|]. by intros (x' & [=] & ?).
Qed.

(** The dictionary display of [get_weather] succeeds only on a payload
    that has the six positions, and then binds each key to the value
    at its position. *)
Lemma weather_record_inv data r :
  weather_record data = Ok r →
  ∃ name country temp humidity description wind,
    jpath data [Key "name"] = Some name
    ∧ jpath data [Key "sys"; Key "country"] = Some country
    ∧ jpath data [Key "main"; Key "temp"] = Some temp
    ∧ jpath data [Key "main"; Key "humidity"] = Some humidity
    ∧ jpath data [Key "weather"; Idx 0; Key "description"] = Some description
    ∧ jpath data [Key "wind"; Key "speed"] = Some wind
    ∧ r = {[ "city" := name; "country" := country; "temperature" := temp;
             "description" := description; "humidity" := humidity;
             "wind_speed" := wind ]}.
Proof.
  unfold weather_record. intros H.
  repeat match goal with
    | H : rbind _ _ = Ok _ |- _ =>
        apply rbind_Ok in H; destruct H as (? & ? & H)
    end.
  injection H as <-.
  repeat match goal with
    | Hi : getitem_idx ?v ?i = Ok ?x, Hk : getitem_key ?x _ = Ok _ |- _ =>
        pose proof (getitem_idx_then_key _ _ _ _ _ Hi Hk); clear Hi
    end.
  repeat match goal with
    | H : getitem_key _ _ = Ok _ |- _ => apply getitem_key_jstep in H
    end.
  simplify_eq.
  do 6 eexists. repeat split;
    repeat (eapply jpath_step; [eassumption|]); reflexivity.
Qed.

(** X6. [get_weather], answered with a success status and a JSON
    payload, returns a value exactly when the payload contains the six
    positions it reads; a payload that lacks one of them raises and no
    partial record comes back. A returned record has exactly the six
    keys city, country, temperature, description, humidity and
    wind_speed, each bound to the payload value at its position. *)
Theorem get_weather_record_or_fault
    (cfg : Config) (w : world) (city : string) (country_code : option string)
    (resp : response) (data : json) :
  truthy (openweather_api_key cfg) = true →
  w_remote w (weather_request cfg city (default "US" country_code)) = Ok resp →
  is_success (rs_status resp) = true →
  rs_body resp = Some data →
  (is_ok (get_weather cfg city country_code w).1 = true
   ↔ is_Some (jpath data [Key "name"])
     ∧ is_Some (jpath data [Key "sys"; Key "country"])
     ∧ is_Some (jpath data [Key "main"; Key "temp"])
     ∧ is_Some (jpath data [Key "main"; Key "humidity"])
     ∧ is_Some (jpath data [Key "weather"; Idx 0; Key "description"])
     ∧ is_Some (jpath data [Key "wind"; Key "speed"]))
  ∧ (∀ r, (get_weather cfg city country_code w).1 = Ok r →
       dom r = weather_keys
       ∧ r !! "city" = jpath data [Key "name"]
       ∧ r !! "country" = jpath data [Key "sys"; Key "country"]
       ∧ r !! "temperature" = jpath data [Key "main"; Key "temp"]
       ∧ r !! "humidity" = jpath data [Key "main"; Key "humidity"]
       ∧ r !! "description" = jpath data [Key "weather"; Idx 0; Key "description"]
       ∧ r !! "wind_speed" = jpath data [Key "wind"; Key "speed"]).
Proof.
  intros Hk Hr Hs Hb%rs_body_Some.
  rewrite (proj2 (get_weather_result cfg city country_code w Hk)), Hr, Hs, Hb.
  split.
  - split.
    + destruct (weather_record data) as [r|] eqn:E; [|discriminate]. intros _.
      apply weather_record_inv in E
        as (? & ? & ? & ? & ? & ? & -> & -> & -> & -> & -> & -> & _).
      by repeat split.
    + intros ([? H1] & [? H2] & [? H3] & [? H4] & [? H5] & [? H6]).
      by rewrite (weather_record_paths _ _ _ _ _ _ _ H1 H2 H3 H4 H5 H6).
  - intros r E.
    apply weather_record_inv in E
      as (? & ? & ? & ? & ? & ? & -> & -> & -> & -> & -> & -> & ->).
    by repeat split.
Qed.

Lemma get_weather_fault_witness :
  is_ok (get_weather all_credentials "Paris" None
           (fresh_world (answering (JObj {[ "name" := JStr "Paris" ]})))).1 = false.
Proof.
  destruct (get_weather_record_or_fault all_credentials
              (fresh_world (answering (JObj {[ "name" := JStr "Paris" ]})))
              "Paris" None
              {| rs_status := 200; rs_payload := Json (JObj {[ "name" := JStr "Paris" ]}) |}
              (JObj {[ "name" := JStr "Paris" ]})
              eq_refl eq_refl eq_refl eq_refl) as [Hiff _].
  destruct (is_ok _); [|done].
  destruct (proj1 Hiff eq_refl) as (_ & [? H] & _). discriminate H.
Defined.

Lemma issue_entry_is_issue v : is_ok (issue_entry v) = is_issue v.
Proof.
  destruct v as [| | | | | |m]; try done. unfold issue_entry. simpl.
  destruct (m !! "title"); simpl; [|done].
  destruct (m !! "number"); simpl; [|done].
  by destruct (m !! "state").
Qed.

Lemma comprehension_is_ok {A B} (f : A → result B) xs :
  is_ok (comprehension f xs) = forallb (λ x, is_ok (f x)) xs.
Proof.
  induction xs as [|x xs IH]; simpl; [done|].
  destruct (f x); simpl; [|done].
  rewrite <- IH. by destruct (comprehension f xs).
Qed.

(** X7. [get_github_issues], answered with a success status and a JSON
    payload, is all or nothing: for a list it returns a value exactly
    when every element is an object with title, number and state (one
    element that is not makes the whole call raise), and the empty
    list gives the empty list; [null], a boolean or a number is not
    iterable and raises [TypeError]; an object is iterated over its
    keys, so it gives the empty list when empty and [TypeError]
    otherwise. *)
Theorem get_github_issues_all_or_nothing
    (cfg : Config) (w : world) (owner repo : string)
    (state : option string) (max_results : option Z)
    (resp : response) (payload : json) :
  truthy (github_token cfg) = true →
  w_remote w (github_issues_request cfg owner repo
                (default "open" state) (default 10%Z max_results)) = Ok resp →
  is_success (rs_status resp) = true →
  rs_body resp = Some payload →
  (∀ issues, payload = JArr issues →
     is_ok (get_github_issues cfg owner repo state max_results w).1
     = forallb is_issue issues)
  ∧ (payload = JArr [] →
     (get_github_issues cfg owner repo state max_results w).1 = Ok [])
  ∧ ((payload = JNull ∨ (∃ b, payload = JBool b) ∨ (∃ z, payload = JInt z)
      ∨ (∃ f, payload = JFloat f)) →
     (get_github_issues cfg owner repo state max_results w).1 = Raise TypeError)
  ∧ (∀ m, payload = JObj m →
     (get_github_issues cfg owner repo state max_results w).1
     = if decide (m = ∅) then Ok [] else Raise TypeError).
Proof.
  intros Hk Hr Hs Hb%rs_body_Some.
  rewrite (proj2 (get_github_issues_result cfg owner repo state max_results w Hk)).
  rewrite Hr, Hs, Hb. repeat split.
  - intros issues ->. simpl. rewrite comprehension_is_ok.
    clear. induction issues as [|v issues IH]; simpl; [done|].
    by rewrite issue_entry_is_issue, IH.
  - by intros ->.
  - intros [->|[[b ->]|[[z ->]|[f ->]]]]; done.
  - intros m ->. simpl. destruct (decide (m = ∅)) as [->|Hne].
    + by rewrite map_to_list_empty.
    + destruct (map_to_list m) as [|[k v] rest] eqn:E.
      * by apply map_to_list_empty_iff in E.
      * done.
Qed.

Lemma get_github_issues_fault_witness :
  is_ok (get_github_issues all_credentials "owner" "repo" None None
           (fresh_world (answering
              (JArr [JObj {[ "title" := JStr "Only a title" ]}])))).1 = false.
Proof.
  exact (proj1 (get_github_issues_all_or_nothing all_credentials
                  (fresh_world (answering
                     (JArr [JObj {[ "title" := JStr "Only a title" ]}])))
                  "owner" "repo" None None
                  {| rs_status := 200;
                     rs_payload := Json (JArr [JObj {[ "title" := JStr "Only a title" ]}]) |}
                  (JArr [JObj {[ "title" := JStr "Only a title" ]}])
                  eq_refl eq_refl eq_refl eq_refl)
           [JObj {[ "title" := JStr "Only a title" ]}] eq_refl).
Defined.

(** ** Notes written and read *)

Lemma created_page_title cfg title content :
  page_title (created_page cfg title content) = Ok (JStr title).
Proof. reflexivity. Qed.

(** X8. The page that [create_notion_note] sends keeps the title where
    [get_notion_notes] looks for it, and the text under
    [properties.Content.rich_text[0].text.content]. So when the notes
    service answers a query with the pages as they were sent,
    [get_notion_notes] returns their titles, in the order of the
    answer. *)
Theorem created_notes_are_read_back
    (cfg : Config) (w : world) (max_results : option Z)
    (notes : list (string * string)) (resp : response) :
  truthy (notion_api_token cfg) = true →
  truthy (notion_database_id cfg) = true →
  w_remote w (notion_query_request cfg (default 10%Z max_results)) = Ok resp →
  is_success (rs_status resp) = true →
  rs_body resp
  = Some (JObj {[ "results" := JArr ((λ n, created_page cfg n.1 n.2) <$> notes) ]}) →
  (get_notion_notes cfg max_results w).1 = Ok ((λ n, JStr n.1) <$> notes)
  ∧ (∀ title content,
       rq_json (notion_create_request cfg title content)
       = Some (created_page cfg title content)
       ∧ jpath (created_page cfg title content) title_path = Some (JStr title)
       ∧ jpath (created_page cfg title content) content_path = Some (JStr content)).
Proof.
  intros Ht Hd Hr Hs Hb%rs_body_Some. split; [|done].
  rewrite (proj2 (get_notion_notes_result cfg max_results w Ht Hd)), Hr, Hs, Hb.
  simpl. rewrite lookup_singleton_eq. simpl. clear.
  induction notes as [|[title content] notes IH]; [done|].
  rewrite !fmap_cons. simpl. rewrite created_page_title. simpl.
  by rewrite IH.
Qed.

Lemma created_notes_witness :
  (get_notion_notes all_credentials None
     (fresh_world (answering
        (JObj {[ "results" :=
                   JArr [created_page all_credentials "Groceries" "milk";
                         created_page all_credentials "Ideas" "none yet"] ]})))).1
  = Ok [JStr "Groceries"; JStr "Ideas"].
Proof.
  exact (proj1 (created_notes_are_read_back all_credentials
                  (fresh_world (answering
                     (JObj {[ "results" :=
                               JArr [created_page all_credentials "Groceries" "milk";
                                     created_page all_credentials "Ideas" "none yet"] ]})))
                  None [("Groceries", "milk"); ("Ideas", "none yet")]
                  {| rs_status := 200;
                     rs_payload := Json
                       (JObj {[ "results" :=
                                 JArr [created_page all_credentials "Groceries" "milk";
                                       created_page all_credentials "Ideas" "none yet"] ]}) |}
                  eq_refl eq_refl eq_refl eq_refl eq_refl)).
Defined.

(** ** What the server reports about itself *)

Lemma log_call_changes rq w : log_call rq w ≠ w.
Proof.
  intros H. apply (f_equal w_calls) in H. simpl in H.
  apply (f_equal length) in H. rewrite length_app in H. simpl in H. lia.
Qed.

(** X9. [get_server_info] touches nothing and returns the server name
    and version, the clock reading, and three flags that agree with
    the tools: a flag is false exactly when the tools of that
    integration raise their configuration error without sending
    anything, whatever their arguments. All three flags are true
    exactly when the start-up check finds no variable missing. *)
Theorem get_server_info_agrees_with_tools (cfg : Config) (now : string) (w : world) :
  ∃ info,
    get_server_info cfg now w = (Ok info, w)
    ∧ info !! "server_name" = Some (JStr "mcp-training-server")
    ∧ info !! "server_version" = Some (JStr "1.0.0")
    ∧ info !! "timestamp" = Some (JStr now)
    ∧ (∃ notion github weather,
         config_flag info "notion_configured" = Some (JBool notion)
         ∧ config_flag info "github_configured" = Some (JBool github)
         ∧ config_flag info "weather_configured" = Some (JBool weather)
         ∧ (notion = false
            ↔ ∀ max_results,
                get_notion_notes cfg max_results w
                = (Raise (ValueError "Notion API token and database ID are required"), w))
         ∧ (github = false
            ↔ ∀ owner repo state max_results,
                get_github_issues cfg owner repo state max_results w
                = (Raise (ValueError "GitHub token is required"), w))
         ∧ (weather = false
            ↔ ∀ city country_code,
                get_weather cfg city country_code w
                = (Raise (ValueError "OpenWeather API key is required"), w))
         ∧ (notion = true ∧ github = true ∧ weather = true ↔ missing_vars cfg = [])).
Proof.
  eexists. split; [reflexivity|]. split; [done|]. split; [done|]. split; [done|].
  exists (truthy (notion_api_token cfg) && truthy (notion_database_id cfg)),
    (truthy (github_token cfg)), (truthy (openweather_api_key cfg)).
  split; [done|]. split; [done|]. split; [done|]. split; [|split; [|split]].
  - split.
    + intros H max_results. apply get_notion_notes_unconfigured. unfold missing.
      apply andb_false_iff in H. tauto.
    + intros H. specialize (H None).
      destruct (truthy (notion_api_token cfg)) eqn:Ht; [|done].
      destruct (truthy (notion_database_id cfg)) eqn:Hd; [|done].
      apply (f_equal snd) in H. simpl in H.
      rewrite (proj1 (get_notion_notes_result cfg None w Ht Hd)) in H.
      by apply log_call_changes in H.
  - split.
    + intros H owner repo state max_results. by apply get_github_issues_unconfigured.
    + intros H. specialize (H "" "" None None).
      destruct (truthy (github_token cfg)) eqn:Hk; [|done].
      apply (f_equal snd) in H. simpl in H.
      rewrite (proj1 (get_github_issues_result cfg "" "" None None w Hk)) in H.
      by apply log_call_changes in H.
  - split.
    + intros H city country_code. by apply get_weather_unconfigured.
    + intros H. specialize (H "" None).
      destruct (truthy (openweather_api_key cfg)) eqn:Hk; [|done].
      apply (f_equal snd) in H. simpl in H.
      rewrite (proj1 (get_weather_result cfg "" None w Hk)) in H.
      by apply log_call_changes in H.
  - unfold missing_vars.
    destruct (truthy (notion_api_token cfg)), (truthy (notion_database_id cfg)),
      (truthy (github_token cfg)), (truthy (openweather_api_key cfg)); simpl;
      intuition congruence.
Qed.

(** ** What a save leaves alone *)

Lemma makedirs_walk_only_dirs fs cur comps r fs1 q text :
  makedirs_walk fs cur comps = (r, fs1) →
  node_at fs1 q = Some (File text) → node_at fs q = Some (File text).
Proof.
  revert fs cur. induction comps as [|c comps IH]; intros fs cur; simpl.
  - by intros [= _ <-].
  - destruct (special c); [apply IH|].
    destruct (_ <? _)%Z; [by intros [= _ <-]|].
    destruct (node_at fs (cur ++ [c])) as [[]|] eqn:E.
    + by intros [= _ <-].
    + apply IH.
    + intros H Hq. specialize (IH _ _ H Hq).
      destruct (decide (q = cur ++ [c])) as [->|Hne].
      * rewrite node_at_insert_eq in IH. discriminate.
      * by rewrite node_at_insert_ne in IH.
Qed.

Lemma makedirs_only_dirs cwd fs path r fs1 q text :
  makedirs cwd fs path = (r, fs1) →
  node_at fs1 q = Some (File text) → node_at fs q = Some (File text).
Proof.
  unfold makedirs. destruct (path_arg path); [|by intros [= _ <-]].
  apply makedirs_walk_only_dirs.
Qed.

(** The encoding error is raised by the write alone. *)
Lemma walk_not_encoding fs cur comps : walk fs cur comps ≠ Raise UnicodeEncodeError.
Proof.
  revert cur. induction comps as [|c comps IH]; intros cur; simpl; [done|].
  destruct (node_at fs cur) as [[]|]; try done. by destruct (_ <? _)%Z.
Qed.

Lemma path_arg_not_encoding path : path_arg path ≠ Raise UnicodeEncodeError.
Proof.
  unfold path_arg. destruct (has_nul path); [done|].
  destruct (String.eqb path ""); [done|]. by destruct (_ <=? _)%Z.
Qed.

Lemma makedirs_walk_not_encoding fs cur comps :
  (makedirs_walk fs cur comps).1 ≠ Raise UnicodeEncodeError.
Proof.
  revert fs cur. induction comps as [|c comps IH]; intros fs cur; simpl; [done|].
  destruct (special c); [apply IH|]. destruct (_ <? _)%Z; [done|].
  destruct (node_at fs (cur ++ [c])) as [[]|]; try apply IH. simpl. by destruct comps.
Qed.

Lemma makedirs_not_encoding cwd fs path :
  (makedirs cwd fs path).1 ≠ Raise UnicodeEncodeError.
Proof.
  unfold makedirs. pose proof (path_arg_not_encoding path).
  destruct (path_arg path) as [[]|e]; [apply makedirs_walk_not_encoding|].
  simpl. congruence.
Qed.

Lemma open_write_not_encoding cwd fs path :
  open_write cwd fs path ≠ Raise UnicodeEncodeError.
Proof.
  unfold open_write. pose proof (path_arg_not_encoding path).
  destruct (path_arg path) as [[]|e]; simpl; [|congruence].
  pose proof (walk_not_encoding fs (start_of cwd path)
                (removelast (trim (split_sep path)))).
  destruct (walk _ _ _) as [d|[]]; simpl; try done.
  destruct (node_at fs d) as [[]|]; try done.
  destruct (last _) as [name|]; [|done].
  destruct (_ || _); [done|]. destruct (_ <? _)%Z; [done|].
  by destruct (node_at fs (d ++ [name])) as [[]|].
Qed.

(** The tree after [save_file]: the one [os.makedirs] left, where the
    call failed before the write; that tree with an empty file at one
    position, where the text could not be encoded; that tree with the
    encoded text at one position, where the call succeeded. *)
Lemma save_file_tree filename content w :
  ∃ fs1,
    (∀ q n, node_at (w_fs w) q = Some n → node_at fs1 q = Some n)
    ∧ (∀ q b, node_at fs1 q = Some (File b) → node_at (w_fs w) q = Some (File b))
    ∧ (cwd_ok w = true →
       ∀ q, node_at fs1 q = Some Dir → node_at (w_fs w) q = Some Dir ∨ q = data_dir w)
    ∧ ((∃ e, (save_file filename content w).1 = Raise e
             ∧ e ≠ UnicodeEncodeError
             ∧ w_fs (save_file filename content w).2 = fs1)
       ∨ (∃ d name,
             (save_file filename content w).1 = Raise UnicodeEncodeError
             ∧ encode (w_locale w) content = None
             ∧ node_at fs1 (d ++ [name]) ≠ Some Dir
             ∧ w_fs (save_file filename content w).2 = <[d ++ [name] := File ""]> fs1)
       ∨ (∃ d name b msg,
             (save_file filename content w).1 = Ok msg
             ∧ encode (w_locale w) content = Some b
             ∧ node_at fs1 (d ++ [name]) ≠ Some Dir
             ∧ w_fs (save_file filename content w).2 = <[d ++ [name] := File b]> fs1)).
Proof.
  rewrite save_file_steps.
  destruct (node_at (w_fs w) (w_cwd w)) as [[]|] eqn:Ec;
    [exists (w_fs w); split; [done|]; split; [done|]; split; [by left|];
     left; by exists (FileNotFoundError "")| |
     exists (w_fs w); split; [done|]; split; [done|]; split; [by left|];
     left; by exists (FileNotFoundError "")].
  destruct (makedirs _ _ _) as [r fs1] eqn:Em. exists fs1.
  split; [intros q n; by eapply makedirs_preserves|].
  split; [intros q b; by eapply makedirs_only_dirs|].
  split.
  { intros Hcwd q Hq. rewrite (makedirs_data w Hcwd) in Em.
    destruct (node_at (w_fs w) (data_dir w)) as [[]|] eqn:Ed;
      injection Em as _ <-; try by left.
    destruct (decide (q = data_dir w)) as [->|Hne]; [by right|left].
    by rewrite node_at_insert_ne in Hq. }
  pose proof (makedirs_not_encoding (w_cwd w) (w_fs w)
                (path_join (render (w_cwd w)) "data")) as Hm.
  rewrite Em in Hm. simpl in Hm.
  destruct r as [[]|e]; [|left; exists e; split; [done|]; split; [congruence|done]].
  pose proof (open_write_not_encoding (w_cwd w) fs1 (file_path w filename)) as Ho.
  destruct (open_write _ _ _) as [[f fs2]|e] eqn:Eo;
    [|left; exists e; split; [done|]; split; [congruence|done]].
  apply open_write_inv in Eo as ((d & name & -> & _) & Hn & -> & _).
  right. destruct (encode _ _) as [b|] eqn:Ee.
  - right. exists d, name, b. eexists. split; [done|]. split; [done|]. split; [done|].
    simpl. by rewrite insert_insert_eq.
  - left. by exists d, name.
Qed.

(** X10. [save_file] changes at most one regular file. Whether it
    returns or raises, the working directory, the request log, the
    remote end and the locale are as before and every directory is
    still a directory; every regular file is still a regular file,
    which holds its old bytes, or nothing (it was opened, and the text
    could not be written), or the encoded text; at most one position
    differs in the regular file it holds. Where the working directory
    exists, the only directory that can be new is [data]. *)
Theorem save_file_changes_one_file (w : world) (filename content : string) :
  w_cwd (save_file filename content w).2 = w_cwd w
  ∧ w_calls (save_file filename content w).2 = w_calls w
  ∧ w_remote (save_file filename content w).2 = w_remote w
  ∧ w_locale (save_file filename content w).2 = w_locale w
  ∧ (∀ q, node_at (w_fs w) q = Some Dir →
          node_at (w_fs (save_file filename content w).2) q = Some Dir)
  ∧ (∀ q b, node_at (w_fs w) q = Some (File b) →
          node_at (w_fs (save_file filename content w).2) q = Some (File b)
          ∨ node_at (w_fs (save_file filename content w).2) q = Some (File "")
          ∨ ∃ b', encode (w_locale w) content = Some b'
                  ∧ node_at (w_fs (save_file filename content w).2) q = Some (File b'))
  ∧ (∃ p, ∀ q b, q ≠ p →
          node_at (w_fs (save_file filename content w).2) q = Some (File b)
          ↔ node_at (w_fs w) q = Some (File b))
  ∧ (cwd_ok w = true →
     ∀ q, node_at (w_fs (save_file filename content w).2) q = Some Dir →
          node_at (w_fs w) q = Some Dir ∨ q = data_dir w).
Proof.
  assert (w_cwd (save_file filename content w).2 = w_cwd w
          ∧ w_calls (save_file filename content w).2 = w_calls w
          ∧ w_remote (save_file filename content w).2 = w_remote w
          ∧ w_locale (save_file filename content w).2 = w_locale w)
    as (Hc & Hl & Hr & Hloc).
  { rewrite save_file_steps. destruct (node_at _ _) as [[]|]; try done.
    destruct (makedirs _ _ _) as [[[]|] ?]; [|done].
    destruct (open_write _ _ _) as [[]|]; [|done]. by destruct (encode _ _). }
  split; [done|]. split; [done|]. split; [done|]. split; [done|].
  destruct (save_file_tree filename content w) as (fs1 & Hkeep & Honly & Hnew & Hcases).
  assert (∀ d name v,
            node_at fs1 (d ++ [name]) ≠ Some Dir →
            ∀ q, node_at (<[d ++ [name] := File v]> fs1) q = Some Dir
                 → node_at fs1 q = Some Dir) as Hdirs.
  { intros d name v Hn q Hq. destruct (decide (q = d ++ [name])) as [->|Hne].
    - rewrite node_at_insert_eq in Hq. discriminate.
    - by rewrite node_at_insert_ne in Hq. }
  destruct Hcases as [(e & _ & _ & ->)
                     |[(d & name & _ & _ & Hn & ->)
                      |(d & name & b' & msg & _ & Ee & Hn & ->)]].
  - split; [by intros; apply Hkeep|]. split; [by intros; left; apply Hkeep|].
    split; [|done].
    exists []. intros q b _. split; [apply Honly|apply Hkeep].
  - split; [|split; [|split]].
    + intros q Hq. apply dirs_kept_by_file; [done|]. by apply Hkeep.
    + intros q b Hq. destruct (decide (q = d ++ [name])) as [->|Hne].
      * right. left. apply node_at_insert_eq.
      * left. rewrite node_at_insert_ne by done. by apply Hkeep.
    + exists (d ++ [name]). intros q b Hne. rewrite node_at_insert_ne by done.
      split; [apply Honly|apply Hkeep].
    + intros Hcwd q Hq. apply (Hnew Hcwd). by eapply Hdirs.
  - split; [|split; [|split]].
    + intros q Hq. apply dirs_kept_by_file; [done|]. by apply Hkeep.
    + intros q b Hq. destruct (decide (q = d ++ [name])) as [->|Hne].
      * right. right. exists b'. split; [done|]. apply node_at_insert_eq.
      * left. rewrite node_at_insert_ne by done. by apply Hkeep.
    + exists (d ++ [name]). intros q b Hne. rewrite node_at_insert_ne by done.
      split; [apply Honly|apply Hkeep].
    + intros Hcwd q Hq. apply (Hnew Hcwd). by eapply Hdirs.
Qed.

Lemma save_file_changes_one_file_witness :
  node_at (w_fs (save_file "test.txt" "x" (fresh_world unreachable)).2) ["srv"; "data"]
  = Some Dir
  ∧ (node_at (w_fs (fresh_world unreachable)) ["srv"; "data"] = Some Dir
     ∨ ["srv"; "data"] = data_dir (fresh_world unreachable)).
Proof.
  destruct (save_file_changes_one_file (fresh_world unreachable) "test.txt" "x")
    as (_ & _ & _ & _ & _ & _ & _ & H).
  split; [reflexivity|].
  exact (H eq_refl ["srv"; "data"] eq_refl).
Defined.

(** X11. A [save_file] that raises has emptied at most one file. When
    the error is not the encoding error of the write, the regular
    files of the tree, and their bytes, are exactly those from before
    the call. When it is, the text has no encoding in the locale, the
    file that was opened for it is left empty, whatever it held, and
    every other regular file is as before. *)
Theorem failed_save_empties_at_most_one_file
    (w : world) (filename content : string) (e : exn) :
  (save_file filename content w).1 = Raise e →
  (e ≠ UnicodeEncodeError →
     ∀ q b,
       node_at (w_fs (save_file filename content w).2) q = Some (File b)
       ↔ node_at (w_fs w) q = Some (File b))
  ∧ (e = UnicodeEncodeError →
       encode (w_locale w) content = None
       ∧ ∃ p,
           node_at (w_fs (save_file filename content w).2) p = Some (File "")
           ∧ node_at (w_fs w) p ≠ Some Dir
           ∧ ∀ q b, q ≠ p →
               node_at (w_fs (save_file filename content w).2) q = Some (File b)
               ↔ node_at (w_fs w) q = Some (File b)).
Proof.
  intros Hfail.
  destruct (save_file_tree filename content w) as (fs1 & Hkeep & Honly & _ & Hcases).
  destruct Hcases as [(e' & He' & Hne & ->)
                     |[(d & name & He' & Ee & Hn & ->)
                      |(d & name & b' & msg & He' & _)]];
    rewrite He' in Hfail; [| |discriminate]; injection Hfail as <-.
  - split; [|done]. intros _ q b. split; [apply Honly|apply Hkeep].
  - split; [done|]. intros _. split; [done|].
    exists (d ++ [name]). split; [apply node_at_insert_eq|].
    split; [intros H; apply Hn; by apply Hkeep|].
    intros q b Hq. rewrite node_at_insert_ne by done.
    split; [apply Honly|apply Hkeep].
Qed.

Lemma failed_save_witness :
  encode (w_locale stocked_world) cafe = None
  ∧ ∃ p, node_at (w_fs (save_file "notes.txt" cafe stocked_world).2) p = Some (File "")
         ∧ node_at (w_fs stocked_world) p ≠ Some Dir.
Proof.
  destruct (failed_save_empties_at_most_one_file stocked_world "notes.txt" cafe
              UnicodeEncodeError eq_refl) as [_ H].
  destruct (H eq_refl) as (He & p & Hp & Hd & _).
  split; [exact He|]. exists p. split; [exact Hp|exact Hd].
Defined.

(** The file emptied in that example is the one that held the notes. *)
Lemma failed_save_empties_notes :
  (save_file "notes.txt" cafe stocked_world).1 = Raise UnicodeEncodeError
  ∧ node_at (w_fs stocked_world) ["srv"; "data"; "notes.txt"] = Some (File crlf_text)
  ∧ node_at (w_fs (save_file "notes.txt" cafe stocked_world).2)
      ["srv"; "data"; "notes.txt"] = Some (File "").
Proof. by repeat split. Qed.

(** ** What a read returns *)

Lemma has_cr_universal_newlines_upto (n : nat) (s : string) :
  (String.length s ≤ n)%nat → has_cr (universal_newlines s) = false.
Proof.
  revert s. induction n as [|n IH]; intros s Hlen.
  - destruct s; [done|]. simpl in Hlen. lia.
  - destruct s as [|c rest]; [done|]. simpl in Hlen.
    assert (has_cr (universal_newlines rest) = false) as Hrest by (apply IH; lia).
    change (universal_newlines (String c rest))
      with (if Ascii.eqb c "013" then
              match rest with
              | String d rest' =>
                  if Ascii.eqb d "010"
                  then String "010" (universal_newlines rest')
                  else String "010" (universal_newlines rest)
              | "" => String "010" ""
              end
            else String c (universal_newlines rest)).
    destruct (Ascii.eqb c "013") eqn:Ec.
    + destruct rest as [|d rest']; [done|]. simpl in Hlen.
      destruct (Ascii.eqb d "010").
      * change (has_cr (String "010" (universal_newlines rest')))
          with (has_cr (universal_newlines rest')).
        apply IH. lia.
      * exact Hrest.
    + change (has_cr (String c (universal_newlines rest)))
        with (Ascii.eqb c "013" || has_cr (universal_newlines rest)).
      by rewrite Ec, Hrest.
Qed.

Lemma has_cr_universal_newlines s : has_cr (universal_newlines s) = false.
Proof. by apply (has_cr_universal_newlines_upto (String.length s)). Qed.

(** X12. Whatever [read_file] returns is the text that the bytes of
    the regular file its path resolves to decode to, with every line
    ending CR LF or CR turned into LF: the returned text contains no
    carriage return, and is the decoded text itself when that has
    none. *)
Theorem read_file_normalises_line_endings (w : world) (filename text : string) :
  (read_file filename w).1 = Ok text →
  (∃ stored decoded,
     stat (w_cwd w) (w_fs w) (file_path w filename) = Ok (File stored)
     ∧ decode (w_locale w) stored = Some decoded
     ∧ text = universal_newlines decoded
     ∧ (has_cr decoded = false → text = decoded))
  ∧ has_cr text = false.
Proof.
  rewrite read_file_steps. unfold path_exists, open_read. simpl.
  destruct (node_at _ _) as [[]|]; try discriminate.
  destruct (stat _ _ _) as [[stored|]|e]; simpl; try discriminate.
  destruct (decode _ _) as [decoded|] eqn:Ed; [|discriminate].
  intros [= <-]. split; [|apply has_cr_universal_newlines].
  exists stored, decoded. split; [done|]. split; [done|]. split; [done|].
  apply universal_newlines_id.
Qed.

Lemma read_file_normalises_witness :
  has_cr crlf_text = true
  ∧ has_cr ("one" +:+ String "010" "two") = false
  ∧ (read_file "notes.txt" stocked_world).1 = Ok ("one" +:+ String "010" "two").
Proof.
  split; [done|].
  split; [|done].
  exact (proj2 (read_file_normalises_line_endings stocked_world "notes.txt"
                  ("one" +:+ String "010" "two") eq_refl)).
Defined.

(** ** Paths that leave the data directory *)

Lemma resolve_rendered cwd fs p :
  forallb valid_name p = true → p ≠ [] →
  fits (render_comps p) = true →
  dirs_along fs [] (removelast p) = true →
  render p = render_comps p
  ∧ startswith_sep (render_comps p) = true
  ∧ resolve cwd fs (render_comps p) = Ok p.
Proof.
  intros Hv Hne Hfit Hd. destruct (exists_last Hne) as (q & n & ->).
  rewrite removelast_last in Hd.
  rewrite forallb_app in Hv. apply andb_true_iff in Hv as [Hq Hn].
  simpl in Hn. rewrite andb_true_r in Hn.
  split; [by destruct q|]. split; [by destruct q|].
  pose proof (valid_name_short _ Hn) as Hlen.
  pose proof (valid_name_inv _ Hn) as (Hsp & Hsep & Hnul & Hnn).
  rewrite render_comps_app in *. simpl in *. rewrite append_nil_r in *.
  apply resolve_intro; [| |done|].
  - rewrite has_nul_app, render_comps_has_nul by done. simpl. by rewrite Hnul.
  - by destruct (render_comps q).
  - assert (start_of cwd (render_comps q +:+ String "/" n) = []) as ->
      by (unfold start_of; by destruct q).
    rewrite split_render_comps, (split_sep_plain n) by done.
    change (walk fs [] ("" :: q ++ [n])) with (walk fs [] (q ++ [n])).
    pose proof (dirs_along_end fs [] q eq_refl Hd) as Hdir. simpl in Hdir.
    rewrite walk_app, (walk_dirs fs [] q Hq eq_refl Hd). simpl.
    by rewrite Hdir, Hlen, enter_valid.
Qed.

(** X13. An absolute filename is used as it is: the data directory
    plays no part in resolving it. Where the working directory exists,
    [read_file], given the absolute path, within the length limit, of
    any regular file of the machine whose bytes are text in the
    encoding of the locale, returns that text, whether or not [data]
    exists. *)
Theorem read_file_reads_any_absolute_path
    (w : world) (p : list string) (stored : bytes) (text : string) :
  node_at (w_fs w) (w_cwd w) = Some Dir →
  forallb valid_name p = true →
  fits (render p) = true →
  dirs_along (w_fs w) [] (removelast p) = true →
  node_at (w_fs w) p = Some (File stored) →
  decode (w_locale w) stored = Some text →
  file_path w (render p) = render p
  ∧ (read_file (render p) w).1 = Ok (universal_newlines text).
Proof.
  intros Hc Hv Hfit Hd Hp Hdec.
  assert (p ≠ []) as Hne by (intros ->; discriminate).
  assert (render p = render_comps p) as Hrender by by destruct p.
  rewrite Hrender in *.
  destruct (resolve_rendered (w_cwd w) (w_fs w) p Hv Hne Hfit Hd) as (_ & Habs & Hr).
  rewrite (file_path_absolute w _ Habs). split; [done|].
  rewrite read_file_steps, Hc, (file_path_absolute w _ Habs).
  assert (stat (w_cwd w) (w_fs w) (render_comps p) = Ok (File stored)) as Hs.
  { eapply stat_intro; [exact Hr|exact Hp]. }
  unfold path_exists, open_read. rewrite Hs. simpl. by rewrite Hdec.
Qed.

Lemma read_file_absolute_witness :
  (read_file "/etc/hostname" shared_world).1 = Ok "build-host"
  ∧ ¬ beneath (data_dir shared_world) ["etc"; "hostname"].
Proof.
  split.
  - exact (proj2 (read_file_reads_any_absolute_path shared_world ["etc"; "hostname"]
                    "build-host" "build-host"
                    eq_refl eq_refl eq_refl eq_refl eq_refl eq_refl)).
  - intros [k Hk]. discriminate.
Defined.

(** ** Listing the data directory itself *)

Lemma lstrip_all set s : all_in set s = true → lstrip set s = "".
Proof.
  induction s as [|c s IH]; [done|]. simpl.
  intros H. apply andb_true_iff in H as [-> Hs]. by apply IH.
Qed.

(** X14. An argument of [list_files] made of dots and slashes only
    ([".."], ["../.."], ["/"], ["./"], the empty string) names the data
    directory itself, like the default ["."]: the call lists
    [data], never its parent or the root, and returns a value exactly
    when the default call does, the same one. *)
Theorem list_files_dots_and_slashes_list_data (w : world) (directory : string) :
  all_in "./" directory = true →
  (∀ cwd, list_files_target cwd directory = list_files_target cwd ".")
  ∧ (∀ names, (list_files (Some directory) w).1 = Ok names
              ↔ (list_files None w).1 = Ok names)
  ∧ (list_files (Some directory) w).2 = w.
Proof.
  intros Hall.
  assert (∀ cwd, list_files_target cwd directory = list_files_target cwd ".") as Ht.
  { intros cwd. unfold list_files_target. by rewrite (lstrip_all _ _ Hall). }
  split; [done|]. split.
  - intros names. rewrite !list_files_steps. cbv zeta. simpl default. rewrite Ht.
    simpl fst. destruct (node_at _ _) as [[]|]; try done.
    by destruct (path_exists _ _ _).
  - by rewrite list_files_steps.
Qed.

Lemma list_files_parent_witness :
  (list_files (Some "../..") stocked_world).1 = Ok ["notes.txt"].
Proof.
  apply (proj1 (proj2 (list_files_dots_and_slashes_list_data stocked_world "../.."
                         eq_refl))).
  reflexivity.
Defined.

(** ** A regular file in the place of the data directory *)

Lemma set_fs_same w : set_fs (w_fs w) w = w.
Proof. by destruct w. Qed.

Lemma walk_through_file fs cur comps text :
  node_at fs cur = Some (File text) → comps ≠ [] →
  walk fs cur comps = Raise NotADirectoryError.
Proof. intros Hc Hne. destruct comps; [done|]. simpl. by rewrite Hc. Qed.

(** X16. Where the working directory exists (at a depth that leaves
    room for the path of [data]) and [data] in it is a regular file,
    the three file tools are blocked: [save_file] raises
    [FileExistsError] and changes nothing, and for every filename or
    directory argument that is not absolute [read_file] and
    [list_files] raise their not-found error. *)
Theorem data_as_regular_file_blocks_tools (w : world) (text : string) :
  cwd_ok w = true →
  node_at (w_fs w) (data_dir w) = Some (File text) →
  (∀ filename content, save_file filename content w = (Raise FileExistsError, w))
  ∧ (∀ filename, startswith_sep filename = false →
       read_file filename w
       = (Raise (FileNotFoundError ("File " +:+ filename +:+ " not found")), w))
  ∧ (∀ directory,
       list_files directory w
       = (Raise (FileNotFoundError
                   ("Directory " +:+ default "." directory +:+ " not found")), w)).
Proof.
  intros Hcwd Hdata.
  assert (∀ s, startswith_sep s = false →
            path_exists (w_cwd w) (w_fs w)
              (path_join (path_join (render (w_cwd w)) "data") s) = false) as Hblocked.
  { intros s Hs. rewrite (safe_dir_eq w Hcwd).
    rewrite join_beneath;
      [|apply data_dir_nonempty|by apply data_dir_valid|done].
    unfold path_exists, stat, resolve.
    destruct (path_arg _) as [[]|]; [|done]. simpl.
    unfold start_of.
    rewrite startswith_sep_app, (safe_dir_absolute w)
      by by apply safe_dir_nonempty.
    rewrite split_render_comps by by apply data_dir_valid.
    change (walk (w_fs w) [] ("" :: data_dir w ++ split_sep s))
      with (walk (w_fs w) [] (data_dir w ++ split_sep s)).
    unfold data_dir in *. rewrite <- (assoc_L (++)), walk_app.
    rewrite (walk_dirs (w_fs w) [] (w_cwd w) (cwd_valid w Hcwd) eq_refl (cwd_dirs w Hcwd)).
    simpl rbind. rewrite (cwd_is_dir w Hcwd).
    change (enter (w_cwd w) "data") with (w_cwd w ++ ["data"]).
    by rewrite (walk_through_file _ _ _ text Hdata (split_sep_nonempty s)). }
  split; [|split].
  - intros filename content.
    rewrite save_file_steps, (cwd_is_dir w Hcwd), (makedirs_data w Hcwd), Hdata.
    by rewrite set_fs_same.
  - intros filename Hrel. rewrite read_file_steps, (cwd_is_dir w Hcwd). unfold file_path.
    by rewrite (Hblocked filename Hrel).
  - intros directory. rewrite list_files_steps, (cwd_is_dir w Hcwd). cbv zeta.
    unfold list_files_target.
    rewrite (Hblocked (lstrip "./" (default "." directory))); [done|].
    apply head_in_sep, lstrip_head.
Qed.

Lemma data_as_regular_file_witness :
  save_file "test.txt" "Hello" blocked_world = (Raise FileExistsError, blocked_world)
  ∧ (read_file "test.txt" blocked_world).1
    = Raise (FileNotFoundError "File test.txt not found").
Proof.
  destruct (data_as_regular_file_blocks_tools blocked_world "not a directory"
              eq_refl eq_refl) as (Hsave & Hread & _).
  split; [apply Hsave|].
  by rewrite (Hread "test.txt" eq_refl).
Defined.

(** ** Saving into the data directory *)

Lemma fits_prefix a b : fits (a +:+ b) = true → fits a = true.
Proof.
  unfold fits. rewrite fs_length_app. pose proof (fs_length_nonneg b). lia.
Qed.

(** A resolution that succeeds along proper names has gone through
    directories, to the position the names spell. *)
Lemma walk_valid_Ok fs cur comps r :
  forallb valid_name comps = true →
  walk fs cur comps = Ok r →
  r = cur ++ comps ∧ dirs_along fs cur (removelast comps) = true.
Proof.
  revert cur. induction comps as [|c comps IH]; intros cur Hv.
  - simpl. intros [= <-]. by rewrite app_nil_r.
  - simpl in Hv. apply andb_true_iff in Hv as [Hc Hv].
    pose proof (valid_name_inv _ Hc) as (Hs & _).
    simpl walk. destruct (node_at fs cur) as [[]|]; try discriminate.
    rewrite (valid_name_short _ Hc), enter_valid by done.
    intros Hw. destruct (IH _ Hv Hw) as [-> Hd].
    split; [by rewrite <- (app_snoc cur c comps)|].
    destruct comps as [|c' comps]; [done|].
    change (removelast (c :: c' :: comps)) with (c :: removelast (c' :: comps)).
    simpl dirs_along. simpl walk in Hw.
    by destruct (node_at fs (cur ++ [c])) as [[]|].
Qed.

Lemma split_rendered p :
  forallb valid_name p = true → p ≠ [] → split_sep (render_comps p) = "" :: p.
Proof.
  intros Hv Hne. destruct (exists_last Hne) as (q & n & ->).
  rewrite forallb_app in Hv. apply andb_true_iff in Hv as [Hq Hn].
  simpl in Hn. rewrite andb_true_r in Hn.
  apply valid_name_inv in Hn as (_ & Hsep & _ & _).
  rewrite render_comps_app. simpl. rewrite append_nil_r.
  by rewrite split_render_comps, (split_sep_plain n).
Qed.

Lemma resolve_rendered_inv cwd fs p f :
  forallb valid_name p = true → p ≠ [] →
  resolve cwd fs (render_comps p) = Ok f →
  f = p ∧ dirs_along fs [] (removelast p) = true ∧ fits (render_comps p) = true.
Proof.
  intros Hv Hne Hr. apply resolve_inv in Hr as (_ & _ & Hfit & Hw).
  rewrite (split_rendered p Hv Hne) in Hw.
  assert (start_of cwd (render_comps p) = []) as E
    by (unfold start_of; by destruct p).
  rewrite E in Hw.
  change (walk fs [] ("" :: p)) with (walk fs [] p) in Hw.
  by destruct (walk_valid_Ok fs [] p f Hv Hw) as [-> Hd].
Qed.

(** A successful [save_file] whose path spells a position in proper
    names: the text is stored at that position. *)
Lemma save_file_at w w1 filename content msg p :
  cwd_ok w = true →
  forallb valid_name p = true → p ≠ [] →
  file_path w filename = render_comps p →
  save_file filename content w = (Ok msg, w1) →
  ∃ fs1 b,
    makedirs (w_cwd w) (w_fs w) (path_join (render (w_cwd w)) "data") = (Ok tt, fs1)
    ∧ dirs_along fs1 [] (removelast p) = true
    ∧ node_at fs1 p ≠ Some Dir
    ∧ fits (render_comps p) = true
    ∧ encode (w_locale w) content = Some b
    ∧ msg = "Content saved to " +:+ render_comps p
    ∧ w1 = set_fs (<[p := File b]> fs1) w.
Proof.
  intros Hcwd Hv Hne Hpath Hsave.
  apply save_file_Ok in Hsave as (fs1 & f & b & Hc & Em & Eo & Ee & -> & ->).
  rewrite Hpath in *.
  apply open_write_inv in Eo as (_ & Hnd & _ & Hfit & Hagain).
  destruct (Hagain fs1 (λ q H, H)) as [Hres _].
  apply resolve_rendered_inv in Hres as (-> & Hd & _); [|done..].
  exists fs1, b. done.
Qed.

(** Reading back what lies at a position spelled in proper names. *)
Lemma read_file_at w filename p b text :
  node_at (w_fs w) (w_cwd w) = Some Dir →
  forallb valid_name p = true → p ≠ [] →
  file_path w filename = render_comps p →
  fits (render_comps p) = true →
  dirs_along (w_fs w) [] (removelast p) = true →
  w_fs w !! p = Some (File b) →
  decode (w_locale w) b = Some text →
  (read_file filename w).1 = Ok (universal_newlines text).
Proof.
  intros Hc Hv Hne Hpath Hfit Hd Hp Hdec.
  destruct (resolve_rendered (w_cwd w) (w_fs w) p Hv Hne Hfit Hd) as (_ & _ & Hr).
  rewrite read_file_steps, Hc, Hpath.
  assert (stat (w_cwd w) (w_fs w) (render_comps p) = Ok (File b)) as Hs.
  { eapply stat_intro; [exact Hr|]. by destruct p. }
  unfold path_exists, open_read. rewrite Hs. simpl. by rewrite Hdec.
Qed.

Lemma file_path_in_data w filename :
  cwd_ok w = true → valid_name filename = true →
  file_path w filename = render_comps (data_dir w ++ [filename]).
Proof.
  intros Hcwd Hn. rewrite (file_path_beneath w Hcwd) by by apply valid_name_relative.
  rewrite render_comps_app. simpl. by rewrite append_nil_r.
Qed.

(** X15. Where the working directory exists, whenever [save_file]
    succeeds with a proper name, its confirmation ends with the
    absolute path of the file, working directory, [data] and name
    joined by slashes; the text has an encoding in the locale, whose
    bytes are stored under that name in [data]; [data] is a directory;
    nothing else in the tree has changed; and, the encoding decoding
    what it has encoded, [read_file] of the same name returns the text
    with its line endings normalised. *)
Theorem save_file_confirms_path_and_stores
    (w w1 : world) (filename content msg : string) :
  cwd_ok w = true →
  valid_name filename = true →
  save_file filename content w = (Ok msg, w1) →
  msg = "Content saved to " +:+ render (data_dir w ++ [filename])
  ∧ (∃ b, encode (w_locale w) content = Some b
          ∧ w_fs w1 !! (data_dir w ++ [filename]) = Some (File b))
  ∧ node_at (w_fs w1) (data_dir w) = Some Dir
  ∧ (∀ q, q ≠ data_dir w ++ [filename] → q ≠ data_dir w →
          node_at (w_fs w1) q = node_at (w_fs w) q)
  ∧ (lossless (w_locale w) →
     (read_file filename w1).1 = Ok (universal_newlines content)).
Proof.
  intros Hcwd Hn Hsave.
  set (p := data_dir w ++ [filename]).
  assert (forallb valid_name p = true) as Hv.
  { unfold p. rewrite forallb_app, (data_dir_valid w Hcwd). simpl. by rewrite Hn. }
  assert (p ≠ []) as Hne by (unfold p; by destruct (data_dir w)).
  assert (render p = render_comps p) as Hrender by (unfold p; by destruct (data_dir w)).
  pose proof (file_path_in_data w filename Hcwd Hn) as Hpath. fold p in Hpath.
  destruct (save_file_at w w1 filename content msg p Hcwd Hv Hne Hpath Hsave)
    as (fs1 & b & Em & Hd & Hnd & Hfit & Ee & -> & ->).
  destruct (makedirs_data_Ok w fs1 Hcwd Em) as (Hdirs1 & _ & Hsame & Hkeep).
  unfold p in Hd. rewrite removelast_last in Hd. fold p in Hd.
  set (fs2 := <[p := File b]> fs1).
  assert (fs2 !! p = Some (File b)) as Hp by apply lookup_insert_eq.
  assert (∀ q, node_at fs1 q = Some Dir → node_at fs2 q = Some Dir) as Hsub
    by (intros q; by apply dirs_kept_by_file).
  rewrite Hrender. split; [done|]. split; [by exists b|].
  split; [apply Hsub; by apply (data_is_dir w fs1)|].
  split.
  - intros q Hq1 Hq2. simpl. unfold fs2. rewrite node_at_insert_ne by done.
    by apply Hsame.
  - intros Hcodec.
    apply (read_file_at (set_fs fs2 w) filename p b content); try done.
    + apply Hsub, Hkeep, (cwd_is_dir w Hcwd).
    + unfold p. rewrite removelast_last.
      by apply (dirs_along_agree fs1 fs2 [] (data_dir w) Hsub).
    + by apply Hcodec.
Qed.

Lemma save_file_confirms_witness :
  "Content saved to /srv/data/test.txt"
  = "Content saved to " +:+ render (data_dir (fresh_world unreachable) ++ ["test.txt"])
  ∧ (read_file "test.txt" (save_file "test.txt" crlf_text (fresh_world unreachable)).2).1
    = Ok ("one" +:+ String "010" "two").
Proof.
  destruct (save_file_confirms_path_and_stores (fresh_world unreachable)
              (save_file "test.txt" crlf_text (fresh_world unreachable)).2
              "test.txt" crlf_text "Content saved to /srv/data/test.txt"
              eq_refl eq_refl eq_refl)
    as (Hmsg & _ & _ & _ & Hread).
  split; [exact Hmsg|exact (Hread ascii_codec_lossless)].
Defined.

(** ** Filenames with a directory part *)

Lemma has_sep_valid_name n : valid_name n = true → has_sep n = false.
Proof. intros H. by apply valid_name_inv in H as (_ & ? & _). Qed.

Section BelowData.
Variable w : world.
Hypothesis Hcwd : cwd_ok w = true.

Lemma file_path_two first name :
  first ≠ "" → startswith_sep first = false →
  file_path w (first +:+ String "/" name)
  = render_comps (data_dir w) +:+ String "/" (first +:+ String "/" name).
Proof.
  intros Hne Hrel. apply (file_path_beneath w Hcwd).
  by rewrite startswith_sep_app.
Qed.

Lemma file_path_two_valid sub name :
  valid_name sub = true → valid_name name = true →
  file_path w (sub +:+ String "/" name)
  = render_comps ((data_dir w ++ [sub]) ++ [name]).
Proof.
  intros Hs Hn. pose proof (valid_name_inv _ Hs) as (_ & _ & _ & Hne).
  rewrite file_path_two by (done || by apply valid_name_relative).
  rewrite !render_comps_app. simpl. by rewrite !append_nil_r, !append_assoc.
Qed.

(** The position that [data/../name] resolves to. *)
Lemma resolve_parent fs name f :
  dirs_along fs [] (data_dir w) = true →
  valid_name name = true →
  resolve (w_cwd w) fs (file_path w (".." +:+ String "/" name)) = Ok f →
  f = w_cwd w ++ [name].
Proof.
  intros Hdirs Hn Hr. pose proof (valid_name_inv _ Hn) as (Hsp & Hsep & Hnul & Hnn).
  rewrite file_path_two in Hr by done.
  apply resolve_inv in Hr as (_ & _ & _ & Hw).
  assert (start_of (w_cwd w)
            (render_comps (data_dir w) +:+ String "/" (".." +:+ String "/" name)) = [])
    as E.
  { unfold start_of.
    by rewrite startswith_sep_app, (safe_dir_absolute w) by by apply safe_dir_nonempty. }
  rewrite E, split_render_comps in Hw by by apply data_dir_valid.
  change (split_sep (".." +:+ String "/" name)) with (".." :: split_sep name) in Hw.
  rewrite (split_sep_plain name) in Hw by done.
  change (walk fs [] ("" :: data_dir w ++ [".."; name]))
    with (walk fs [] (data_dir w ++ [".."; name])) in Hw.
  rewrite walk_app, (walk_data w fs Hcwd Hdirs) in Hw. simpl rbind in Hw.
  assert (node_at fs (w_cwd w) = Some Dir) as Hdir.
  { unfold data_dir in Hdirs. rewrite dirs_along_app in Hdirs.
    apply andb_true_iff in Hdirs as [H _].
    by apply (dirs_along_end fs [] (w_cwd w) eq_refl H). }
  simpl walk in Hw. rewrite (data_is_dir w fs Hdirs) in Hw.
  change (enter (data_dir w) "..") with (removelast (w_cwd w ++ ["data"])) in Hw.
  rewrite removelast_last, Hdir, (valid_name_short _ Hn), enter_valid in Hw by done.
  by injection Hw as <-.
Qed.

End BelowData.

(** X17. Where the working directory exists, whenever [save_file]
    succeeds with a filename ["../"] followed by a proper name, the
    encoded text is stored under that name in the working directory
    itself, next to [data] and not beneath it, and the confirmation
    names the path through [data/..]. *)
Theorem save_file_parent_component_escapes
    (w w1 : world) (name content msg : string) :
  cwd_ok w = true →
  valid_name name = true →
  save_file ("../" +:+ name) content w = (Ok msg, w1) →
  msg = "Content saved to " +:+ render_comps (data_dir w) +:+ "/../" +:+ name
  ∧ (∃ b, encode (w_locale w) content = Some b
          ∧ w_fs w1 !! (w_cwd w ++ [name]) = Some (File b))
  ∧ ¬ beneath (data_dir w) (w_cwd w ++ [name]).
Proof.
  intros Hcwd Hn Hsave.
  change ("../" +:+ name) with (".." +:+ String "/" name) in *.
  apply save_file_Ok in Hsave as (fs1 & f & b & Hc & Em & Eo & Ee & -> & ->).
  destruct (makedirs_data_Ok w fs1 Hcwd Em) as (Hdirs1 & _ & _ & _).
  apply open_write_inv in Eo as (_ & Hnd & _ & _ & Hagain).
  destruct (Hagain fs1 (λ q H, H)) as [Hres _].
  apply (resolve_parent w Hcwd fs1 name f Hdirs1 Hn) in Hres as ->.
  split; [|split].
  - by rewrite (file_path_two w Hcwd ".." name).
  - exists b. split; [done|]. apply lookup_insert_eq.
  - unfold beneath, data_dir. intros [k Hk].
    rewrite <- (assoc_L (++)) in Hk. apply app_inv_head in Hk.
    injection Hk as -> _. apply Hnd.
    change (w_cwd w ++ ["data"]) with (data_dir w). by apply (data_is_dir w fs1).
Qed.

Lemma save_file_parent_witness :
  (∃ b, encode (w_locale stocked_world) "x" = Some b
        ∧ w_fs (save_file "../outside.txt" "x" stocked_world).2
            !! (w_cwd stocked_world ++ ["outside.txt"]) = Some (File b))
  ∧ ¬ beneath (data_dir stocked_world) (w_cwd stocked_world ++ ["outside.txt"]).
Proof.
  destruct (save_file_parent_component_escapes stocked_world
              (save_file "../outside.txt" "x" stocked_world).2
              "outside.txt" "x" "Content saved to /srv/data/../outside.txt"
              eq_refl eq_refl eq_refl)
    as (_ & Hstored & Hout).
  split; [exact Hstored|exact Hout].
Defined.

(** X18. Where the working directory exists, in a tree whose entries
    bear proper names and with an encoding that decodes what it has
    encoded: whenever [save_file] succeeds with a filename made of a
    proper name that begins with neither a dot nor a slash, a slash
    and a proper name, the first name was a subdirectory of [data] and
    the encoded text is stored inside it; [read_file] of the same
    filename returns the text (line endings normalised); [list_files]
    of the subdirectory shows the name, and the listing of [data]
    itself does not show the filename. *)
Theorem save_into_subdirectory
    (w w1 : world) (sub name content msg : string) :
  cwd_ok w = true →
  valid_fs (w_fs w) = true →
  lossless (w_locale w) →
  valid_name sub = true →
  head_in "./" sub = false →
  valid_name name = true →
  save_file (sub +:+ "/" +:+ name) content w = (Ok msg, w1) →
  msg = "Content saved to " +:+ render ((data_dir w ++ [sub]) ++ [name])
  ∧ node_at (w_fs w) (data_dir w ++ [sub]) = Some Dir
  ∧ (∃ b, encode (w_locale w) content = Some b
          ∧ w_fs w1 !! ((data_dir w ++ [sub]) ++ [name]) = Some (File b))
  ∧ (read_file (sub +:+ "/" +:+ name) w1).1 = Ok (universal_newlines content)
  ∧ (∃ names, (list_files (Some sub) w1).1 = Ok names ∧ name ∈ names)
  ∧ (∃ names, (list_files None w1).1 = Ok names ∧ sub +:+ "/" +:+ name ∉ names).
Proof.
  intros Hcwd Hvfs Hcodec Hsub Hhead Hn Hsave.
  change (sub +:+ "/" +:+ name) with (sub +:+ String "/" name) in *.
  set (dir := data_dir w ++ [sub]).
  set (p := dir ++ [name]).
  assert (forallb valid_name dir = true) as Hvdir.
  { unfold dir. rewrite forallb_app, (data_dir_valid w Hcwd). simpl. by rewrite Hsub. }
  assert (forallb valid_name p = true) as Hv.
  { unfold p. rewrite forallb_app, Hvdir. simpl. by rewrite Hn. }
  assert (dir ≠ []) as Hnedir by (unfold dir; by destruct (data_dir w)).
  assert (p ≠ []) as Hne by (unfold p; by destruct dir).
  assert (render p = render_comps p) as Hrender by (unfold p; by destruct dir).
  pose proof (file_path_two_valid w Hcwd sub name Hsub Hn) as Hpath.
  fold dir in Hpath. fold p in Hpath.
  destruct (save_file_at w w1 _ content msg p Hcwd Hv Hne Hpath Hsave)
    as (fs1 & b & Em & Hd & Hnd & Hfit & Ee & -> & ->).
  destruct (makedirs_data_Ok w fs1 Hcwd Em) as (Hdirs1 & _ & Hsame & Hkeep).
  unfold p in Hd. rewrite removelast_last in Hd.
  pose proof (dirs_along_end fs1 [] dir eq_refl Hd) as Hdir1. simpl in Hdir1.
  set (fs2 := <[p := File b]> fs1).
  assert (fs2 !! p = Some (File b)) as Hp by apply lookup_insert_eq.
  assert (∀ q, node_at fs1 q = Some Dir → node_at fs2 q = Some Dir) as Hkept
    by (intros q; by apply dirs_kept_by_file).
  assert (dirs_along fs2 [] dir = true) as Hd2
    by by apply (dirs_along_agree fs1 fs2 [] dir Hkept).
  assert (dirs_along fs2 [] (data_dir w) = true) as Hdata2
    by by apply (dirs_along_agree fs1 fs2 [] (data_dir w) Hkept).
  assert (node_at fs2 (w_cwd w) = Some Dir) as Hc2
    by apply Hkept, Hkeep, (cwd_is_dir w Hcwd).
  assert (node_at fs2 dir = Some Dir) as Hdir2 by by apply Hkept.
  assert (dir ≠ data_dir w) as Hdd.
  { unfold dir. intros E. apply (f_equal length) in E.
    rewrite length_app in E. simpl in E. lia. }
  assert (fits (render_comps dir) = true) as Hfitdir.
  { unfold p in Hfit. rewrite render_comps_app in Hfit. by apply fits_prefix in Hfit. }
  assert (fits (render_comps (data_dir w) +:+ "/") = true) as Hfitdata.
  { unfold dir in Hfitdir. rewrite render_comps_app in Hfitdir. simpl in Hfitdir.
    change (render_comps (data_dir w) +:+ String "/" (sub +:+ ""))
      with (render_comps (data_dir w) +:+ ("/" +:+ (sub +:+ ""))) in Hfitdir.
    rewrite <- append_assoc in Hfitdir. by apply fits_prefix in Hfitdir. }
  rewrite Hrender. split; [done|].
  split; [rewrite <- (Hsame dir Hdd); done|].
  split; [by exists b|]. split; [|split].
  - apply (read_file_at (set_fs fs2 w) _ p b content); try done.
    + unfold p. by rewrite removelast_last.
    + by apply Hcodec.
  - rewrite list_files_steps. cbv zeta.
    change (w_cwd (set_fs fs2 w)) with (w_cwd w).
    change (w_fs (set_fs fs2 w)) with fs2.
    change (default "." (Some sub)) with sub.
    rewrite Hc2.
    assert (list_files_target (render (w_cwd w)) sub = render_comps dir) as Ht.
    { unfold list_files_target. rewrite (safe_dir_eq w Hcwd), lstrip_id by done.
      rewrite join_beneath;
        [|apply data_dir_nonempty|by apply data_dir_valid|by apply valid_name_relative].
      unfold dir. rewrite render_comps_app. simpl. by rewrite append_nil_r. }
    rewrite Ht.
    destruct (resolve_rendered (w_cwd w) fs2 dir Hvdir Hnedir Hfitdir) as (_ & _ & Hr).
    { unfold dir. rewrite removelast_last. exact Hdata2. }
    unfold path_exists, listdir.
    rewrite (stat_intro _ _ _ _ _ Hr Hdir2), Hr. simpl.
    eexists. split; [done|].
    apply list_elem_of_filter. split.
    + apply (isfile_join _ _ _ _ _ Hr Hdir2 Hn). split; [eauto|].
      rewrite join_beneath by (done || by apply valid_name_relative).
      unfold p in Hfit. rewrite render_comps_app in Hfit. simpl in Hfit.
      by rewrite append_nil_r in Hfit.
    + apply entries_spec. eauto.
  - rewrite list_files_steps. cbv zeta.
    change (w_cwd (set_fs fs2 w)) with (w_cwd w).
    change (w_fs (set_fs fs2 w)) with fs2.
    change (default "." None) with ".".
    rewrite Hc2.
    pose proof (resolve_data_listing w fs2 Hcwd Hdata2 Hfitdata) as Hr.
    pose proof (data_is_dir w fs2 Hdata2) as Hdd2.
    unfold path_exists, listdir.
    rewrite (stat_intro _ _ _ _ _ Hr Hdd2), Hr. simpl.
    eexists. split; [done|].
    rewrite list_elem_of_filter, entries_spec. intros [_ [v Hv']].
    assert (data_dir w ++ [sub +:+ String "/" name] ≠ p) as Hkey.
    { unfold p, dir. intros E. apply (f_equal length) in E.
      rewrite !length_app in E. simpl in E. lia. }
    unfold fs2 in Hv'. rewrite lookup_insert_ne in Hv' by done.
    assert (node_at (w_fs w) (data_dir w ++ [sub +:+ String "/" name]) = Some v) as Hold.
    { rewrite <- Hsame.
      - by rewrite node_at_snoc.
      - intros E. apply (f_equal length) in E.
        rewrite length_app in E. simpl in E. lia. }
    rewrite node_at_snoc in Hold.
    pose proof (valid_fs_names _ _ _ Hvfs Hold) as Hk.
    rewrite forallb_app in Hk. apply andb_true_iff in Hk as [_ Hk].
    simpl in Hk. rewrite andb_true_r in Hk.
    apply has_sep_valid_name in Hk. rewrite has_sep_app in Hk. simpl in Hk.
    by rewrite orb_true_r in Hk.
Qed.

Lemma save_into_subdirectory_witness :
  node_at (w_fs stocked_world) (data_dir stocked_world ++ ["archive"]) = Some Dir
  ∧ ∃ names,
      (list_files (Some "archive")
         (save_file "archive/new.txt" "Hello" stocked_world).2).1 = Ok names
      ∧ "new.txt" ∈ names.
Proof.
  destruct (save_into_subdirectory stocked_world
              (save_file "archive/new.txt" "Hello" stocked_world).2
              "archive" "new.txt" "Hello" "Content saved to /srv/data/archive/new.txt"
              eq_refl eq_refl ascii_codec_lossless eq_refl eq_refl eq_refl eq_refl)
    as (_ & Hdir & _ & _ & Hlist & _).
  split; [exact Hdir|exact Hlist].
Defined.

(** ** When a save succeeds *)

Lemma has_sep_relative n : has_sep n = false → startswith_sep n = false.
Proof. destruct n as [|x n]; [done|]. simpl. by intros [-> _]%orb_false_iff. Qed.

Lemma special_short n : special n = true → (NAME_MAX <? fs_length n)%Z = false.
Proof.
  unfold special. rewrite !orb_true_iff, !eqb_string_eq. by intros [[->| ->]| ->].
Qed.

(** [open] for writing, given a path made of the data directory and
    one more component. *)
Lemma open_write_in_data w fs name :
  cwd_ok w = true →
  dirs_along fs [] (data_dir w) = true →
  name ≠ "" → has_sep name = false → has_nul name = false →
  open_write (w_cwd w) fs (file_path w name)
  = if fits (file_path w name) then
      if special name then Raise IsADirectoryError
      else if (NAME_MAX <? fs_length name)%Z then Raise (OSError ENAMETOOLONG)
      else match node_at fs (data_dir w ++ [name]) with
           | Some Dir => Raise IsADirectoryError
           | _ => Ok (data_dir w ++ [name], <[data_dir w ++ [name] := File ""]> fs)
           end
    else Raise (OSError ENAMETOOLONG).
Proof.
  intros Hcwd Hdirs Hne Hsep Hnul.
  pose proof (has_sep_relative _ Hsep) as Hrel.
  rewrite (file_path_beneath w Hcwd) by done.
  set (path := render_comps (data_dir w) +:+ String "/" name).
  assert (has_nul path = false) as Hpn.
  { unfold path. rewrite has_nul_app, (safe_dir_has_nul w Hcwd). simpl. by rewrite Hnul. }
  assert (path ≠ "") as Hpe by (unfold path; by destruct (render_comps (data_dir w))).
  destruct (fits path) eqn:Hfit.
  - unfold open_write. rewrite (path_arg_Ok _ Hpn Hpe Hfit). simpl rbind.
    assert (split_sep path = ("" :: data_dir w) ++ [name]) as Hsplit.
    { unfold path. rewrite split_render_comps by by apply data_dir_valid.
      by rewrite (split_sep_plain name). }
    assert (endswith_sep path = false) as He.
    { unfold path. rewrite endswith_sep_app by done.
      destruct name as [|x name]; [done|]. by apply (endswith_sep_plain (String x name)). }
    rewrite Hsplit, trim_id by (rewrite last_snoc; congruence).
    rewrite removelast_last, last_snoc, He, orb_false_r.
    assert (start_of (w_cwd w) path = []) as ->.
    { unfold start_of, path.
      by rewrite startswith_sep_app, (safe_dir_absolute w)
        by by apply safe_dir_nonempty. }
    change (walk fs [] ("" :: data_dir w)) with (walk fs [] (data_dir w)).
    rewrite (walk_data w fs Hcwd Hdirs). simpl.
    rewrite (data_is_dir w fs Hdirs). destruct (special name); [done|].
    destruct (_ <? _)%Z; [done|].
    by destruct (node_at fs (data_dir w ++ [name])) as [[]|].
  - unfold open_write, path_arg. rewrite Hpn.
    apply eqb_string_neq in Hpe as ->. unfold fits in Hfit.
    by destruct (Z.leb_spec PATH_MAX (fs_length path)); [|lia].
Qed.

(** X19. Where the working directory exists, [save_file] with a proper
    name succeeds exactly when [data] is not a regular file, the name
    is not that of a subdirectory of [data], the path of the file is
    within the length limit and the text has an encoding in the
    locale. *)
Theorem save_file_succeeds_exactly_when (w : world) (filename content : string) :
  cwd_ok w = true →
  valid_name filename = true →
  is_ok (save_file filename content w).1 = true
  ↔ (∀ b, node_at (w_fs w) (data_dir w) ≠ Some (File b))
    ∧ node_at (w_fs w) (data_dir w ++ [filename]) ≠ Some Dir
    ∧ fits (file_path w filename) = true
    ∧ is_Some (encode (w_locale w) content).
Proof.
  intros Hcwd Hn. pose proof (valid_name_inv _ Hn) as (Hsp & Hsep & Hnul & Hne).
  assert (data_dir w ++ [filename] ≠ data_dir w) as Hdd.
  { intros E. apply (f_equal length) in E. rewrite length_app in E. simpl in E. lia. }
  rewrite save_file_steps, (cwd_is_dir w Hcwd).
  destruct (makedirs _ _ _) as [r fs1] eqn:Em.
  destruct r as [[]|e].
  - destruct (makedirs_data_Ok w fs1 Hcwd Em) as (Hdirs1 & Hdata & Hsame & _).
    rewrite (open_write_in_data w fs1 filename Hcwd Hdirs1 Hne Hsep Hnul).
    rewrite Hsp, (valid_name_short _ Hn), (Hsame _ Hdd).
    destruct (fits _); [|split; [done|by intros (_ & _ & ? & _)]].
    destruct (node_at (w_fs w) (data_dir w ++ [filename])) as [[]|] eqn:Ef;
      try (destruct (encode _ _) as [b|]; simpl;
           (split; [intros H; by repeat split|by intros (_ & _ & _ & [? ?])])).
    split; [done|]. by intros (_ & ? & _).
  - split; [done|]. intros (Hdata & _). rewrite (makedirs_data w Hcwd) in Em.
    destruct (node_at (w_fs w) (data_dir w)) as [[b|]|]; try discriminate.
    by destruct (Hdata b).
Qed.

Lemma save_file_succeeds_witness :
  (∀ b, node_at (w_fs stocked_world) (data_dir stocked_world) ≠ Some (File b))
  ∧ node_at (w_fs stocked_world) (data_dir stocked_world ++ ["notes.txt"]) ≠ Some Dir
  ∧ fits (file_path stocked_world "notes.txt") = true
  ∧ is_Some (encode (w_locale stocked_world) "Hello").
Proof.
  exact (proj1 (save_file_succeeds_exactly_when stocked_world "notes.txt" "Hello"
                  eq_refl eq_refl) eq_refl).
Defined.

(** X20. Where the working directory exists and [data] in it is not a
    regular file, [save_file] with a filename free of separators and
    NUL but longer than a file name can be raises [OSError] with the
    error number of a name too long; [data] is a directory afterwards,
    and no regular file has been written or changed. *)
Theorem save_file_rejects_long_names (w : world) (filename content : string) :
  cwd_ok w = true →
  (∀ b, node_at (w_fs w) (data_dir w) ≠ Some (File b)) →
  has_sep filename = false →
  has_nul filename = false →
  (NAME_MAX < fs_length filename)%Z →
  (save_file filename content w).1 = Raise (OSError ENAMETOOLONG)
  ∧ node_at (w_fs (save_file filename content w).2) (data_dir w) = Some Dir
  ∧ (∀ q b,
       node_at (w_fs (save_file filename content w).2) q = Some (File b)
       ↔ node_at (w_fs w) q = Some (File b)).
Proof.
  intros Hcwd Hdata Hsep Hnul Hlong.
  assert (filename ≠ "") as Hne by (intros ->; by compute in Hlong).
  assert ((NAME_MAX <? fs_length filename)%Z = true) as Hlen by lia.
  assert (special filename = false) as Hsp.
  { destruct (special filename) eqn:E; [|done].
    apply special_short in E. congruence. }
  rewrite save_file_steps, (cwd_is_dir w Hcwd).
  destruct (makedirs _ _ _) as [r fs1] eqn:Em.
  assert (r = Ok tt) as ->.
  { rewrite (makedirs_data w Hcwd) in Em.
    destruct (node_at (w_fs w) (data_dir w)) as [[b|]|]; try by injection Em as <-.
    by destruct (Hdata b). }
  destruct (makedirs_data_Ok w fs1 Hcwd Em) as (Hdirs1 & _ & _ & Hkeep).
  rewrite (open_write_in_data w fs1 filename Hcwd Hdirs1 Hne Hsep Hnul).
  rewrite Hsp, Hlen.
  assert ((if fits (file_path w filename)
           then Raise (OSError ENAMETOOLONG) else Raise (OSError ENAMETOOLONG))
          = @Raise (list string * gmap (list string) node) (OSError ENAMETOOLONG)) as ->
    by by destruct (fits _).
  split; [done|]. split; [by apply (data_is_dir w fs1)|].
  intros q b. simpl. split; [by eapply makedirs_only_dirs|apply Hkeep].
Qed.

Lemma save_file_long_name_witness :
  (save_file long_name "x" (fresh_world unreachable)).1 = Raise (OSError ENAMETOOLONG)
  ∧ node_at (w_fs (save_file long_name "x" (fresh_world unreachable)).2)
      (data_dir (fresh_world unreachable)) = Some Dir.
Proof.
  destruct (save_file_rejects_long_names (fresh_world unreachable) long_name "x")
    as (Hraise & Hdata & _);
    [reflexivity|discriminate|reflexivity|reflexivity|reflexivity|].
  split; [exact Hraise|exact Hdata].
Defined.
